(** * TDASpring23: the course notebooks, embedded and checked

    The repository is a set of teaching notebooks.  Three of them carry
    the statements verified here:

    - [02-StabilityOfClusteringAndBarcodes]: the single linkage
      hierarchical clustering metric [u_X], distance matrices, and the
      Gromov-Hausdorff stability theorem;
    - [06-VectorizingPersistenceDiagrams]: the synthetic point cloud
      generators, the data set built from them, the CSV barcode loader
      and the persistence images;
    - the Takens embedding notebook: [make_gravitational_waves].

    Numbers are real numbers: numpy's float64 arrays are lists of [R]
    and two-dimensional arrays are lists of rows.  *)

From Stdlib Require Import String Ascii.
From Stdlib Require Import Reals Lra Lia List Arith ZArith Bool DecimalString.
Import ListNotations.
Local Open Scope R_scope.

(* ================================================================== *)
(** * Part I: definitions *)
(* ================================================================== *)

(** ** Python: exceptions, the random generator, files *)

Module Py.

Inductive exn : Type :=
  | ValueError
  | IndexError
  | ZeroDivisionError
  | FileNotFoundError
  | OtherError (name : string).

Inductive result (A : Type) : Type :=
  | Ok (a : A)
  | Raise (e : exn).
Arguments Ok {A} a.
Arguments Raise {A} e.

(** numpy's global random generator: a state and one draw of each
    kind the notebooks use.  [next_below n] is [randint(n)]. *)
Class RandomState : Type := {
    rng_state : Type;
    next_normal : rng_state -> R * rng_state;
    next_uniform : rng_state -> R * rng_state;
    next_below : nat -> rng_state -> nat * rng_state;
    next_uniform_range : forall g, 0 <= fst (next_uniform g) < 1;
    next_below_lt : forall n g, (0 < n)%nat -> (fst (next_below n g) < n)%nat
  }.

(** What the two readers return.  [np.load] is used once, on the
    file of gravitational wave signals, a structured array whose
    records have the fields ["data"] and ["signal_present"];
    [np.genfromtxt] returns a one- or two-dimensional array. *)
Record gw_record : Type := { data : list R; signal_present : R }.

Inductive ndarray : Type :=
  | Arr1 (a : list R)
  | Arr2 (a : list (list R)).

Inductive call : Type :=
  | np_load_call (file : string)
  | np_genfromtxt_call (file : string).

Inductive outcome : Type :=
  | Returned
  | Raised (e : exn).

Definition outcome_of {A : Type} (r : result A) : outcome :=
  match r with Ok _ => Returned | Raise e => Raised e end.

Definition call_eq_dec (c c' : call) : {c = c'} + {c <> c'}.
Proof. decide equality; apply string_dec. Defined.

Section Effects.
Context {RS : RandomState}.

(** The state of a run: the generator, what the readers find on
    disk, and the calls to the readers made so far, oldest first. *)
Record world : Type := {
    rng : rng_state;
    npy_files : string -> result (list gw_record);
    csv_files : string -> result ndarray;
    calls : list (call * outcome)
  }.

Definition M (A : Type) : Type := world -> result A * world.

Definition ret {A : Type} (a : A) : M A := fun w => (Ok a, w).

Definition raise {A : Type} (e : exn) : M A := fun w => (Raise e, w).

Definition bind {A B : Type} (m : M A) (k : A -> M B) : M B :=
  fun w => match m w with
           | (Ok a, w') => k a w'
           | (Raise e, w') => (Raise e, w')
           end.

Definition lift {A : Type} (r : result A) : M A := fun w => (r, w).

Definition set_rng (w : world) (g : rng_state) : world :=
  {| rng := g; npy_files := npy_files w; csv_files := csv_files w;
     calls := calls w |}.

Definition record_call (w : world) (c : call) (o : outcome) : world :=
  {| rng := rng w; npy_files := npy_files w; csv_files := csv_files w;
     calls := calls w ++ [(c, o)] |}.

Definition draw_normal : M R :=
  fun w => let (x, g) := next_normal (rng w) in (Ok x, set_rng w g).

Definition draw_uniform : M R :=
  fun w => let (x, g) := next_uniform (rng w) in (Ok x, set_rng w g).

Definition draw_below (n : nat) : M nat :=
  fun w => let (x, g) := next_below n (rng w) in (Ok x, set_rng w g).


(** The state after some more calls to the readers. *)
Definition add_calls (w : world) (cs : list (call * outcome)) : world :=
  {| rng := rng w; npy_files := npy_files w; csv_files := csv_files w;
     calls := calls w ++ cs |}.

(** Two states with the same disk and the same record of calls; a
    computation that returns from every state, with a result in [P],
    and leaves these as they are. *)
Definition same_disk (w w' : world) : Prop :=
  npy_files w' = npy_files w /\ csv_files w' = csv_files w /\
  calls w' = calls w.

Definition returns {A : Type} (m : M A) (P : A -> Prop) : Prop :=
  forall w, exists a w', m w = (Ok a, w') /\ same_disk w w' /\ P a.

(** [a] is a value that [m] returns from some state. *)
Definition produced {A : Type} (m : M A) (a : A) : Prop :=
  exists w1 w2, m w1 = (Ok a, w2).

(** A computation that does not call the readers, whether it
    returns or raises. *)
Definition quiet {A : Type} (m : M A) : Prop :=
  forall w, same_disk w (snd (m w)).

(** The calls to the readers made between two states. *)
Definition calls_since (w w' : world) : list (call * outcome) :=
  skipn (length (calls w)) (calls w').

End Effects.

Declare Scope py_scope.
Delimit Scope py_scope with py.
Notation "x <- m ;; k" := (bind m (fun x => k))
  (at level 61, m at next level, right associativity) : py_scope.
Notation "' p <- m ;; k" := (bind m (fun x => let 'p := x in k))
  (at level 61, p pattern, m at next level, right associativity) : py_scope.

(** [for a in l: s = body(a, s)] *)
Fixpoint for_each {RS : RandomState} {A S : Type}
         (l : list A) (body : A -> S -> M S) (s : S) : M S :=
  match l with
  | [] => ret s
  | a :: t => bind (body a s) (for_each t body)
  end.

(** [[f(a) for a in l]] *)
Fixpoint comprehension {RS : RandomState} {A B : Type}
         (l : list A) (f : A -> M B) : M (list B) :=
  match l with
  | [] => ret []
  | a :: t => bind (f a) (fun b => bind (comprehension t f)
                                        (fun bs => ret (b :: bs)))
  end.

(** [range(n)], [range(a, b)] and [range(a, b, step)] with [step > 0]
    or [step < 0]; [range] with step [0] raises. *)
Definition range2 (a b : Z) : list Z :=
  map (fun i => (a + Z.of_nat i)%Z) (seq 0 (Z.to_nat (b - a))).

Definition range (n : Z) : list Z := range2 0 n.

Definition range3 (a b step : Z) : result (list Z) :=
  if (step =? 0)%Z then Raise ValueError
  else if (0 <? step)%Z then
    Ok (map (fun i => (a + Z.of_nat i * step)%Z)
            (seq 0 (Z.to_nat ((b - a + step - 1) / step))))
  else
    Ok (map (fun i => (a + Z.of_nat i * step)%Z)
            (seq 0 (Z.to_nat ((a - b - step - 1) / (- step))))).

(** [int(x)] of a float: truncation towards zero. *)
Definition int (x : R) : Z :=
  if Rle_dec 0 x then Zfloor x else Zceil x.

(** [str(j)] of an integer. *)
Definition str (j : Z) : string := NilZero.string_of_int (Z.to_int j).

(** [a % b] and [l[i]] with a non-negative index. *)
Definition mod_ (a b : Z) : result Z :=
  if (b =? 0)%Z then Raise ZeroDivisionError else Ok (a mod b)%Z.

Definition getitem {A : Type} (l : list A) (i : nat) : result A :=
  match nth_error l i with
  | Some a => Ok a
  | None => Raise IndexError
  end.

End Py.

(** ** numpy: arrays and the operations the notebooks call *)

Module Np.
Import Py.
Local Open Scope py_scope.

Definition array1 := list R.
Definition array2 := list (list R).

(** [a.shape == (n, m)] for a two-dimensional array. *)
Definition has_shape {A : Type} (a : list (list A)) (n m : nat) : Prop :=
  length a = n /\ Forall (fun row => length row = m) a.

(** [a[i][j]], read with the default [0] outside the array. *)
Definition entry (a : array2) (i j : nat) : R := nth j (nth i a []) 0.

Definition scale1 (c : R) (a : array1) : array1 := map (Rmult c) a.
Definition scale2 (c : R) (a : array2) : array2 := map (scale1 c) a.

(** [a.flatten()] *)
Definition flatten (a : array2) : array1 := concat a.

(** [a + b] for one-dimensional arrays, with numpy's broadcasting:
    equal lengths, or one of the two of length one. *)
Definition add1 (a b : array1) : result array1 :=
  if (length a =? length b)%nat then
    Ok (map (fun ab => fst ab + snd ab) (combine a b))
  else match a, b with
       | [x], _ => Ok (map (fun y => x + y) b)
       | _, [y] => Ok (map (fun x => x + y) a)
       | _, _ => Raise ValueError
       end.

Fixpoint add_rows (a b : array2) : result array2 :=
  match a, b with
  | r :: a', s :: b' =>
      match add1 r s with
      | Ok rs => match add_rows a' b' with
                 | Ok t => Ok (rs :: t)
                 | Raise e => Raise e
                 end
      | Raise e => Raise e
      end
  | _, _ => Ok []
  end.

(** [a + b] for two-dimensional arrays given as lists of rows. *)
Definition add2 (a b : array2) : result array2 :=
  if (length a =? length b)%nat then add_rows a b
  else match a, b with
       | [r], _ => add_rows (repeat r (length b)) b
       | _, [s] => add_rows a (repeat s (length a))
       | _, _ => Raise ValueError
       end.

(** [a + v] for a two-dimensional [a] and a one-dimensional [v]:
    [v] is added to every row. *)
Definition add2_1 (a : array2) (v : array1) : result array2 := add2 a [v].

(** [np.zeros(n)], [np.ones(n)]: a negative size raises. *)
Definition size_arg (n : Z) : result nat :=
  if (n <? 0)%Z then Raise ValueError else Ok (Z.to_nat n).

Definition zeros (n : Z) : result array1 :=
  match size_arg n with Ok k => Ok (repeat 0 k) | Raise e => Raise e end.

Definition ones (n : Z) : result array1 :=
  match size_arg n with Ok k => Ok (repeat 1 k) | Raise e => Raise e end.

(** [np.linspace(a, b, num)], end point included. *)
Definition linspace (a b : R) (num : Z) : result array1 :=
  match size_arg num with
  | Ok k => Ok (map (fun i => a + INR i * ((b - a) / INR (k - 1))) (seq 0 k))
  | Raise e => Raise e
  end.

(** [np.transpose(a)] and [np.linalg.norm(a, axis=0)] for an array
    with [ncols] columns.  A list of rows does not record its second
    dimension when it has no rows, so it is passed along. *)
Definition column (a : array2) (j : nat) : array1 :=
  map (fun row => nth j row 0) a.

Definition transpose (ncols : nat) (a : array2) : array2 :=
  map (column a) (seq 0 ncols).

Definition norm_axis0 (ncols : nat) (a : array2) : array1 :=
  map (fun j => sqrt (fold_right Rplus 0 (map (fun x => x * x) (column a j))))
      (seq 0 ncols).

(** [a /= v]: every row of [a] divided, entry by entry, by [v]. *)
Definition div_rows (a : array2) (v : array1) : array2 :=
  map (fun row => map (fun xy => fst xy / snd xy) (combine row v)) a.

(** [np.concatenate((a, b))] along the first axis: the rows of [a]
    then the rows of [b]; the numbers of columns have to agree. *)
Definition concatenate2 (a b : array2) : result array2 :=
  match a, b with
  | r :: _, s :: _ =>
      if (length r =? length s)%nat then Ok (a ++ b) else Raise ValueError
  | _, _ => Ok (a ++ b)
  end.

(** [l[i] = v] *)
Definition setitem {A : Type} (l : list A) (i : nat) (v : A) : result (list A) :=
  if (i <? length l)%nat then Ok (firstn i l ++ v :: skipn (S i) l)
  else Raise IndexError.

(** [l[k:] = v] *)
Definition slice_start (k : Z) (len : nat) : nat :=
  if (k <? 0)%Z then Z.to_nat (Z.max 0 (Z.of_nat len + k))
  else Z.to_nat (Z.min k (Z.of_nat len)).

Definition assign_from {A : Type} (l : list A) (k : Z) (v : A) : list A :=
  let s := slice_start k (length l) in
  firstn s l ++ repeat v (length l - s).

Section Random.
Context {RS : RandomState}.

Fixpoint draws (draw : M R) (n : nat) : M array1 :=
  match n with
  | O => ret []
  | S n' => x <- draw ;; xs <- draws draw n' ;; ret (x :: xs)
  end.

Fixpoint draws2 (draw : M R) (n m : nat) : M array2 :=
  match n with
  | O => ret []
  | S n' => r <- draws draw m ;; rs <- draws2 draw n' m ;; ret (r :: rs)
  end.

(** [np.random.randn(n)], [np.random.randn(n, m)],
    [np.random.random((n, m))], [np.random.random()],
    [np.random.randn()], [np.random.randint(n)]. *)
Definition random_randn1 (n : Z) : M array1 :=
  k <- lift (size_arg n) ;; draws draw_normal k.

Definition random_randn2 (n m : Z) : M array2 :=
  k <- lift (size_arg n) ;; l <- lift (size_arg m) ;;
  draws2 draw_normal k l.

Definition random_random2 (n m : Z) : M array2 :=
  k <- lift (size_arg n) ;; l <- lift (size_arg m) ;;
  draws2 draw_uniform k l.

Definition random_random0 : M R := draw_uniform.

Definition random_randn0 : M R := draw_normal.

Definition random_randint (n : Z) : M Z :=
  if (n <=? 0)%Z then raise ValueError
  else k <- draw_below (Z.to_nat n) ;; ret (Z.of_nat k).

(** The two readers: the outcome is what the disk holds for the
    name, and the call is recorded. *)
Definition load (file : string) : M (list gw_record) :=
  fun w => let r := npy_files w file in
           (r, record_call w (np_load_call file) (outcome_of r)).

Definition genfromtxt (file : string) : M ndarray :=
  fun w => let r := csv_files w file in
           (r, record_call w (np_genfromtxt_call file) (outcome_of r)).

End Random.

End Np.

(** ** Notebook 02: stability of clustering *)

Module Clustering.
Import Np.

(** A finite metric space is represented by its distance matrix
    ("Recall that we can represent a finite metric space by its
    distance matrix"): the points are the indices [0 .. N-1]. *)
Record metric_space (D : array2) : Prop := {
    ms_shape : has_shape D (length D) (length D);
    ms_nonneg : forall i j, (i < length D)%nat -> (j < length D)%nat ->
                0 <= entry D i j;
    ms_zero : forall i j, (i < length D)%nat -> (j < length D)%nat ->
              (entry D i j = 0 <-> i = j);
    ms_sym : forall i j, (i < length D)%nat -> (j < length D)%nat ->
             entry D i j = entry D j i;
    ms_triangle : forall i j k, (i < length D)%nat -> (j < length D)%nat ->
                  (k < length D)%nat ->
                  entry D i k <= entry D i j + entry D j k
  }.

(** A chain is a sequence of points [x_1, ..., x_n]; it is an
    [eps]-chain when [d (x_i, x_{i+1}) <= eps] for all [i]. *)
Fixpoint eps_chain (d : nat -> nat -> R) (eps : R) (c : list nat) : Prop :=
  match c with
  | a :: ((b :: _) as t) => d a b <= eps /\ eps_chain d eps t
  | _ => True
  end.

(** [x = x_1] and [x_n = x']. *)
Definition joins (c : list nat) (x x' : nat) : Prop :=
  hd_error c = Some x /\ last c x = x'.

Definition in_space (N : nat) (c : list nat) : Prop :=
  Forall (fun p => (p < N)%nat) c.

(** The set [{eps > 0 | there exists an eps-chain joining x to x'}]. *)
Definition chain_scales (D : array2) (x x' : nat) (eps : R) : Prop :=
  0 < eps /\
  exists c, in_space (length D) c /\ joins c x x' /\ eps_chain (entry D) eps c.

(** [m] is the infimum of the set [S]. *)
Definition is_inf (S : R -> Prop) (m : R) : Prop :=
  (forall e, S e -> m <= e) /\ (forall b, (forall e, S e -> b <= e) -> b <= m).

(** The largest step of a chain. *)
Fixpoint maxstep (d : nat -> nat -> R) (c : list nat) : R :=
  match c with
  | a :: ((b :: _) as t) => Rmax (d a b) (maxstep d t)
  | _ => 0
  end.

(** [u_X], computed: the points are opened one at a time as
    intermediate points of chains, and a pair's value is lowered to
    the larger of the two halves through the new point when that is
    smaller (the minimax form of the all-pairs closure that single
    linkage computes). *)
Definition relax (k : nat) (u : nat -> nat -> R) : nat -> nat -> R :=
  fun i j => Rmin (u i j) (Rmax (u i k) (u k j)).

Definition closure (d : nat -> nat -> R) (n : nat) : nat -> nat -> R :=
  fold_left (fun u k => relax k u) (seq 0 n) d.

Definition u_X (D : array2) (x x' : nat) : R :=
  closure (entry D) (length D) x x'.

(** [SLHC : (X, d_X) |-> (X, u_X)], as a distance matrix again. *)
Definition SLHC (D : array2) : array2 :=
  map (fun i => map (fun j => u_X D i j) (seq 0 (length D)))
      (seq 0 (length D)).

(** The matrix of Example 3 that is passed to [squareform] and
    [linkage]. *)
Definition D_graph : array2 :=
  [ [0; 1; 2; 3];
    [1; 0; 3; 4];
    [2; 3; 0; 5];
    [3; 4; 5; 0] ].

(** What the data model asks of a distance matrix of [N] points:
    an [N] by [N] array, symmetric, with zero diagonal. *)
Definition distance_matrix (D : array2) (N : nat) : Prop :=
  has_shape D N N /\
  (forall i j, (i < N)%nat -> (j < N)%nat -> entry D i j = entry D j i) /\
  (forall i, (i < N)%nat -> entry D i i = 0).

(** Modelled from the spec: [sklearn.metrics.pairwise_distances] is
    library code that the notebook imports and the repository does not
    contain.  Called as [pairwise_distances(X)] it uses the Euclidean
    metric: entry [(i, j)] is the distance between rows [i] and [j] of
    the point cloud [X], the "distance matrix" of the data model. *)
Definition sq_diffs (p q : list R) : R :=
  fold_right Rplus 0 (map (fun ab => (fst ab - snd ab) * (fst ab - snd ab))
                          (combine p q)).

Definition euclidean (p q : list R) : R := sqrt (sq_diffs p q).

Definition pairwise_distances (X : array2) : array2 :=
  map (fun p => map (fun q => euclidean p q) X) X.

(** Modelled from the spec: the Gromov-Hausdorff distance is named by
    the spec and used by the notebook as defined in lecture; its
    definition is not in the repository.  It is taken in the form
    used for finite spaces: half the least distortion of a
    correspondence between the two point sets, where a correspondence
    is a set of pairs [(x, y)] that meets every [x] and every [y], and
    its distortion is the largest [|d_X(x, x') - d_Y(y, y')|] over its
    pairs [(x, y)], [(x', y')]. *)
Definition correspondence (N M : nat) (C : list (nat * nat)) : Prop :=
  (forall p, In p C -> (fst p < N)%nat /\ (snd p < M)%nat) /\
  (forall x, (x < N)%nat -> exists y, In (x, y) C) /\
  (forall y, (y < M)%nat -> exists x, In (x, y) C).

Definition is_correspondence (N M : nat) (C : list (nat * nat)) : bool :=
  forallb (fun x => existsb (fun p => fst p =? x)%nat C) (seq 0 N) &&
  forallb (fun y => existsb (fun p => snd p =? y)%nat C) (seq 0 M).

Definition pair_eqb (p q : nat * nat) : bool :=
  ((fst p =? fst q) && (snd p =? snd q))%nat.

Fixpoint sublists {A : Type} (l : list A) : list (list A) :=
  match l with
  | [] => [[]]
  | a :: t => map (cons a) (sublists t) ++ sublists t
  end.

Definition correspondences (N M : nat) : list (list (nat * nat)) :=
  filter (is_correspondence N M) (sublists (list_prod (seq 0 N) (seq 0 M))).

Definition Rmax_list (l : list R) : R := fold_right Rmax 0 l.

Definition Rmin_list (l : list R) : R :=
  match l with
  | [] => 0
  | a :: t => fold_right Rmin a t
  end.

Definition distortion (DX DY : array2) (C : list (nat * nat)) : R :=
  Rmax_list
    (map (fun pq => Rabs (entry DX (fst (fst pq)) (fst (snd pq)) -
                          entry DY (snd (fst pq)) (snd (snd pq))))
         (list_prod C C)).

Definition d_GH (DX DY : array2) : R :=
  / 2 * Rmin_list (map (distortion DX DY)
                       (correspondences (length DX) (length DY))).

(** The two-point space with its points at distance 1. *)
Definition D_pair : array2 := [ [0; 1]; [1; 0] ].

End Clustering.

(** ** Notebook 06: vectorizing persistence diagrams *)

Module Vectorizing.
Import Py Np.
Local Open Scope py_scope.

Section Generators.
Context {RS : RandomState}.

Definition sample_spherical (npoints : Z) (scale : R) (ndim : Z) : M array2 :=
  vec <- random_randn2 ndim npoints ;;
  let vec := div_rows vec (norm_axis0 (Z.to_nat npoints) vec) in
  let vec := scale2 scale (transpose (Z.to_nat npoints) vec) in
  ret vec.

Definition noisy_sphere (npoints : Z) (scale noiseLevel offset : R)
           (ndim : Z) : M array2 :=
  sphere <- sample_spherical npoints scale ndim ;;
  rnd <- random_random2 npoints ndim ;;
  sum <- lift (add2 sphere (scale2 (scale * noiseLevel) rnd)) ;;
  one <- lift (ones ndim) ;;
  data <- lift (add2_1 sum (scale1 offset one)) ;;
  ret data.

Definition noise (N : Z) (scale : R) (ndim : Z) : M array2 :=
  rnd <- random_random2 N 2 ;;
  ret (scale2 scale rnd).

(** The cell that builds [datas] and [labels], as a function of the
    parameters it starts with. *)
Definition dataset_cell (total_samples npoints : Z)
           (circle_noise_level snr noise_scale circle_scale : R)
  : M (list array2 * array1) :=
  let samples_per_class := int (IZR total_samples / 2) in
  just_noise <- comprehension (range samples_per_class)
                  (fun _ => noise npoints noise_scale 2) ;;
  with_circle <- comprehension (range samples_per_class)
                   (fun _ =>
                      u <- random_random0 ;;
                      circle <- noisy_sphere (int (snr * IZR npoints))
                                  circle_scale circle_noise_level
                                  ((0.2 * u + 0.4) * noise_scale) 2 ;;
                      rest <- noise (npoints - int (snr * IZR npoints))
                                noise_scale 2 ;;
                      lift (concatenate2 circle rest)) ;;
  let datas := ([] ++ just_noise) ++ with_circle in
  labels <- lift (zeros total_samples) ;;
  let labels := assign_from labels samples_per_class 1 in
  ret (datas, labels).

(** What a sample of each class is. *)
Definition pure_noise (npoints : Z) (noise_scale : R) (d : array2) : Prop :=
  produced (noise npoints noise_scale 2) d.

Definition noise_with_circle (npoints : Z)
           (circle_noise_level snr noise_scale circle_scale : R)
           (d : array2) : Prop :=
  exists (u : R) (circle rest : array2),
    produced (noisy_sphere (int (snr * IZR npoints)) circle_scale
                           circle_noise_level
                           ((0.2 * u + 0.4) * noise_scale) 2) circle /\
    produced (noise (npoints - int (snr * IZR npoints)) noise_scale 2) rest /\
    length circle = Z.to_nat (int (snr * IZR npoints)) /\
    length rest = Z.to_nat (npoints - int (snr * IZR npoints)) /\
    d = circle ++ rest.

(** The parameters of the experiment as the notebook sets them. *)
Definition total_samples : Z := 200.
Definition samples_per_class : Z := int (IZR total_samples / 2).
Definition npoints : Z := 400.
Definition circle_noise_level : R := 0.4.
Definition snr : R := 0.25.
Definition noise_scale : R := 150.
Definition circle_scale : R := 30.

Definition dataset : M (list array2 * array1) :=
  dataset_cell total_samples npoints circle_noise_level snr
               noise_scale circle_scale.

(** Reading the barcodes. *)
Definition fileName (j : Z) : string :=
  ("data/50biased_" ++ str j ++ ".csv")%string.

Definition barcodes : M (list ndarray) :=
  for_each (range 6)
           (fun j barcodes =>
              file <- genfromtxt (fileName j) ;;
              ret (barcodes ++ [file]))
           [].

(** [a[j, 1:3]]: one index too many for a one-dimensional array, a
    row index outside the array raises, the slice never does. *)
Definition row_slice (a : ndarray) (j : Z) (lo hi : nat) : result array1 :=
  match a with
  | Arr1 _ => Raise IndexError
  | Arr2 rows =>
      match nth_error rows (Z.to_nat j) with
      | Some row => Ok (firstn (hi - lo) (skipn lo row))
      | None => Raise IndexError
      end
  end.

(** The body shared by the two cells that build [dem_barcodes] and
    [rep_barcodes]: one barcode for each row number [j]. *)
Definition barcodes_of_rows (barcodes : list ndarray) (rows : list Z)
  : M (list array2) :=
  for_each rows
           (fun j out =>
              barcode <- for_each (range 6)
                           (fun k barcode =>
                              file <- lift (getitem barcodes (Z.to_nat k)) ;;
                              bar <- lift (row_slice file j 1 3) ;;
                              ret (barcode ++ [bar]))
                           [] ;;
              ret (out ++ [barcode]))
           [].

Definition dem_barcodes (barcodes : list ndarray) : M (list array2) :=
  barcodes_of_rows barcodes (range2 1 243).

Definition rep_barcodes (barcodes : list ndarray) : M (list array2) :=
  barcodes_of_rows barcodes (range2 243 431).

(** [barcodes[k][j, 1:3]] when file [k] holds the rows [files k]. *)
Definition bar_of (files : Z -> list (list R)) (j k : Z) : list R :=
  firstn 2 (skipn 1 (nth (Z.to_nat j) (files k) [])).

(** What reading the files numbered in [l], in order, does on a given
    disk: the calls it makes, and the arrays it collects or the
    exception that ends it. *)
Fixpoint read_all (disk : string -> result ndarray) (l : list Z)
  : list (call * outcome) * result (list ndarray) :=
  match l with
  | [] => ([], Ok [])
  | j :: t =>
      match disk (fileName j) with
      | Ok a =>
          let (cs, r) := read_all disk t in
          ((np_genfromtxt_call (fileName j), Returned) :: cs,
           match r with
           | Ok rest => Ok (a :: rest)
           | Raise e => Raise e
           end)
      | Raise e => ([(np_genfromtxt_call (fileName j), Raised e)], Raise e)
      end
  end.

Definition load_barcodes : M (list array2 * list array2) :=
  files <- barcodes ;;
  dem <- dem_barcodes files ;;
  rep <- rep_barcodes files ;;
  ret (dem, rep).

End Generators.

End Vectorizing.

(** ** Persistence images *)

Module Persim.
Import Np.

Section Images.

(** [norm_cdf x loc scale]: the Gaussian distribution function
    ([scipy.stats.norm.cdf]). *)
Variable norm_cdf : R -> R -> R -> R.

(** Modelled from the spec: [persim.PersImage] is library code that the
    notebook imports and the repository does not contain.  By the spec
    a persistence image is a fixed-resolution 2D grid of accumulated
    Gaussian density, a rasterization of a persistence diagram via
    weighted Gaussian kernels, at the resolution [pixels] given at
    construction.  A diagram is an array of rows [birth, death]; each
    of its points, taken to (birth, persistence), adds to every pixel
    the mass that a Gaussian centred at the point puts on the pixel,
    weighted linearly by persistence. *)
Record PersImage : Type := { pixels : nat * nat; spread : R }.

Definition to_landscape (diagram : array2) : array2 :=
  map (fun row => [nth 0 row 0; nth 1 row 0 - nth 0 row 0]) diagram.

Definition grid (lo hi : R) (n : nat) : array1 :=
  map (fun i => lo + INR i * ((hi - lo) / INR (n - 1))) (seq 0 n).

Definition total (l : array1) : R := fold_right Rplus 0 l.

Definition mass (lower width center sigma : R) : R :=
  norm_cdf (lower + width) center sigma - norm_cdf lower center sigma.

Definition image (pim : PersImage) (minBD maxBD : R) (landscape : array2)
  : array2 :=
  let nx := fst (pixels pim) in
  let ny := snd (pixels pim) in
  let dx := maxBD / INR ny in
  let sigma := if Req_dec_T (spread pim) 0 then dx else spread pim in
  let img :=
    map (fun x_lower =>
           map (fun y_lower =>
                  total (map (fun point =>
                                mass x_lower dx (nth 0 point 0) sigma *
                                mass y_lower dx (nth 1 point 0) sigma *
                                (nth 1 point 0 / maxBD))
                             landscape))
               (grid 0 maxBD ny))
        (grid minBD maxBD nx) in
  rev (transpose ny img).

(** [pim.transform(diagrams)] for a non-empty collection of diagrams:
    one image for each diagram, on a grid common to all of them. *)
Definition transform (pim : PersImage) (diagrams : list array2) : list array2 :=
  let landscapes := map to_landscape diagrams in
  let values := concat (concat landscapes) in
  let maxBD := fold_right Rmax 0 values in
  let minBD := fold_right Rmin 0 values in
  map (image pim minBD maxBD) landscapes.

(** [np.array([img.flatten() for img in imgs])] *)
Definition imgs_array (imgs : list array2) : array2 := map flatten imgs.

End Images.

End Persim.

(** ** The Takens embedding notebook: gravitational waves *)

Module Takens.
Import Py Np.
Local Open Scope py_scope.

(** [a / b] of two integers and [row[indices]]. *)
Definition true_div (a b : Z) : result R :=
  if (b =? 0)%Z then Raise ZeroDivisionError else Ok (IZR a / IZR b).

Fixpoint take (row : array1) (indices : list Z) : result array1 :=
  match indices with
  | [] => Ok []
  | i :: rest =>
      match getitem row (Z.to_nat i) with
      | Ok x => match take row rest with
                | Ok xs => Ok (x :: xs)
                | Raise e => Raise e
                end
      | Raise e => Raise e
      end
  end.

(** [padded n V out]: [out] is [V] with [n] more points, some in
    front and the others behind. *)
Definition padded (n : Z) (V out : array1) : Prop :=
  exists front back,
    out = front ++ V ++ back /\
    (length front < Z.to_nat n)%nat /\
    (length front + length back = Z.to_nat n)%nat.

(** [signal] is [row[range(0, Norig, downsample_factor)]]. *)
Definition downsampled (row : array1) (Norig downsample_factor : Z)
           (signal : array1) : Prop :=
  exists indices, range3 0 Norig downsample_factor = Ok indices /\
                  take row indices = Ok signal.

Section GravitationalWaves.
Context {RS : RandomState}.

Definition padrand (V : array1) (n : Z) (kr : R) : M array1 :=
  cut <- random_randint n ;;
  rand1 <- random_randn1 cut ;;
  rand2 <- random_randn1 (n - cut) ;;
  let out := map (fun x => x * kr) rand1 ++ V ++ map (fun x => x * kr) rand2 in
  ret out.

Definition Npad : Z := 500.

(** The body of the main loop, on the loop variable [j] and the
    four names the loop updates. *)
Definition signal_step (gw : list gw_record) (Norig Ndat N downsample_factor : Z)
           (ncoeff : list R) (j : Z)
           (st : list array1 * list array1 * Z * array1)
  : M (list array1 * list array1 * Z * array1) :=
  let '(noisy_signals, gw_signals, k, labels) := st in
  i <- lift (mod_ j Ndat) ;;
  row <- lift (getitem (map data gw) (Z.to_nat i)) ;;
  indices <- lift (range3 0 Norig downsample_factor) ;;
  signal <- lift (take row indices) ;;
  z <- random_randn0 ;;
  let sigp : Z := if Rlt_dec z 0 then 1%Z else 0%Z in
  c <- lift (getitem ncoeff (Z.to_nat j)) ;;
  xi <- random_randn1 N ;;
  let noise := scale1 c xi in
  labels <- lift (setitem labels (Z.to_nat j) (IZR sigp)) ;;
  if (sigp =? 1)%Z then
    sum <- lift (add1 signal noise) ;;
    kr <- lift (getitem ncoeff (Z.to_nat j)) ;;
    rawsig <- padrand sum Npad kr ;;
    let k := if (k =? 0)%Z then 1%Z else k in
    ret (noisy_signals ++ [rawsig], gw_signals ++ [signal], k, labels)
  else
    kr <- lift (getitem ncoeff (Z.to_nat j)) ;;
    rawsig <- padrand noise Npad kr ;;
    ret (noisy_signals ++ [rawsig], gw_signals ++ [signal], k, labels).

Definition coeff_step (Rcoef : array1) (n_snr_values : Z) (j : Z)
           (st : list R * list R) : M (list R * list R) :=
  let '(ncoeff, Rcoeflist) := st in
  i <- lift (mod_ j n_snr_values) ;;
  r <- lift (getitem Rcoef (Z.to_nat i)) ;;
  let ncoeff := ncoeff ++ [/ 10 ^ 19 * (1 / r)] in
  i' <- lift (mod_ j n_snr_values) ;;
  r' <- lift (getitem Rcoef (Z.to_nat i')) ;;
  ret (ncoeff, Rcoeflist ++ [r']).

Definition make_gravitational_waves (path_to_data : string)
           (n_signals downsample_factor : Z) (r_min r_max : R)
           (n_snr_values : Z)
  : M (list array1 * list array1 * array1) :=
  Rcoef <- lift (linspace r_min r_max n_snr_values) ;;
  gw <- load (path_to_data ++ "/" ++ "gravitational_wave_signals.npy")%string ;;
  first <- lift (getitem (map data gw) 0) ;;
  let Norig := Z.of_nat (length first) in
  let Ndat := Z.of_nat (length (map signal_present gw)) in
  q <- lift (true_div Norig downsample_factor) ;;
  let N := int q in
  coeffs <- for_each (range n_signals) (coeff_step Rcoef n_snr_values)
                     ([], []) ;;
  let ncoeff := fst coeffs in
  labels <- lift (zeros n_signals) ;;
  st <- for_each (range n_signals)
                 (signal_step gw Norig Ndat N downsample_factor ncoeff)
                 ([], [], 0%Z, labels) ;;
  let '(noisy_signals, gw_signals, _, labels) := st in
  ret (noisy_signals, gw_signals, labels).

(** What the function promises about sample [j]: [signal] is the
    stored signal number [j mod Ndat], downsampled; the noise is
    [N] normal draws scaled by [10^-19 / Rcoef[j mod n_snr_values]]; and
    [rawsig] is the padded sum of the two with label [1], or the padded
    noise with label [0]. *)
Definition sample_ok (gw : list gw_record) (Rcoef : array1)
           (Norig N downsample_factor n_snr_values : Z) (j : Z)
           (rawsig signal : array1) (label : R) : Prop :=
  exists (record : gw_record) (r : R) (xi : array1),
    nth_error gw (Z.to_nat (j mod Z.of_nat (length gw))) = Some record /\
    nth_error Rcoef (Z.to_nat (j mod n_snr_values)) = Some r /\
    downsampled (data record) Norig downsample_factor signal /\
    length xi = Z.to_nat N /\
    ((label = 1 /\
      exists sum, add1 signal (scale1 (/ 10 ^ 19 * (1 / r)) xi) = Ok sum /\
                  padded Npad sum rawsig) \/
     (label = 0 /\ padded Npad (scale1 (/ 10 ^ 19 * (1 / r)) xi) rawsig)).

(** The list [ncoeff] after [m] rounds of the first loop. *)
Definition coeffs_ok (Rcoef : array1) (n_snr_values : Z) (m : nat)
           (ncoeff : list R) : Prop :=
  length ncoeff = m /\
  forall i, (i < m)%nat ->
            exists r, nth_error Rcoef (Z.to_nat (Z.of_nat i mod n_snr_values)) = Some r /\
                      nth i ncoeff 0 = / 10 ^ 19 * (1 / r).

(** The four names of the main loop after [m] rounds, for [labels] of
    length [L]. *)
Definition signals_ok (gw : list gw_record) (Rcoef : array1)
           (Norig N downsample_factor n_snr_values : Z) (L m : nat)
           (st : list array1 * list array1 * Z * array1) : Prop :=
  let '(noisy_signals, gw_signals, _, labels) := st in
  length noisy_signals = m /\
  length gw_signals = m /\
  length labels = L /\
  forall i, (i < m)%nat ->
            sample_ok gw Rcoef Norig N downsample_factor n_snr_values
                      (Z.of_nat i) (nth i noisy_signals [])
                      (nth i gw_signals []) (nth i labels 0).

(** The lengths of what the main loop has built after [m] rounds:
    every noisy signal has [len] points. *)
Definition lengths_ok (L len m : nat)
           (st : list array1 * list array1 * Z * array1) : Prop :=
  let '(noisy_signals, gw_signals, _, labels) := st in
  length noisy_signals = m /\
  length gw_signals = m /\
  length labels = L /\
  Forall (fun s => length s = len) noisy_signals.

(** "Random-padded": [out] is [V] with [n] more points around it,
    drawn from the generator between the states [w] and [w']: first
    the number [cut] of points in front, then the [cut] points in
    front, then the [n - cut] points behind, each of them a normal
    draw times [kr]. *)
Definition random_padded (V : array1) (n : Z) (kr : R) (w : world)
           (out : array1) (w' : world) : Prop :=
  exists (cut : Z) (rand1 rand2 : array1) (w1 w2 : world),
    random_randint n w = (Ok cut, w1) /\
    random_randn1 cut w1 = (Ok rand1, w2) /\
    random_randn1 (n - cut) w2 = (Ok rand2, w') /\
    out = map (fun x => x * kr) rand1 ++ V ++ map (fun x => x * kr) rand2.

(** Sample [j] as the contract of the function describes it, as a step
    of the run from the state [w] to the state [w']: [signal] is the
    stored signal number [j mod Ndat], downsampled; the generator gives
    a normal draw [z] and then the [N] normal draws [xi]; the noise
    term is [xi] scaled by [10^-19 / Rcoef[j mod n_snr_values]]; the
    label is [1] and the noisy signal is the random-padded sum of the
    signal and the noise term when [z < 0], and the label is [0] and
    the noisy signal is the random-padded noise term alone
    otherwise. *)
Definition sample_run (gw : list gw_record) (Rcoef : array1)
           (Norig N downsample_factor n_snr_values : Z) (j : Z) (w : world)
           (rawsig signal : array1) (label : R) (w' : world) : Prop :=
  exists (record : gw_record) (r z : R) (xi : array1) (w1 w2 : world),
    nth_error gw (Z.to_nat (j mod Z.of_nat (length gw))) = Some record /\
    nth_error Rcoef (Z.to_nat (j mod n_snr_values)) = Some r /\
    downsampled (data record) Norig downsample_factor signal /\
    random_randn0 w = (Ok z, w1) /\
    random_randn1 N w1 = (Ok xi, w2) /\
    ((z < 0 /\ label = 1 /\
      exists sum,
        add1 signal (scale1 (/ 10 ^ 19 * (1 / r)) xi) = Ok sum /\
        random_padded sum Npad (/ 10 ^ 19 * (1 / r)) w2 rawsig w') \/
     (~ z < 0 /\ label = 0 /\
      random_padded (scale1 (/ 10 ^ 19 * (1 / r)) xi) Npad
                    (/ 10 ^ 19 * (1 / r)) w2 rawsig w')).

(** The main loop after [m] rounds, started in the state [w0], with
    the states [ws] it has gone through: round [j] is the step
    [sample_run] from state number [j] to state number [j + 1]. *)
Definition trace_ok (gw : list gw_record) (Rcoef : array1)
           (Norig N downsample_factor n_snr_values : Z) (L : nat) (w0 : world)
           (m : nat) (st : list array1 * list array1 * Z * array1)
           (ws : list world) : Prop :=
  let '(noisy_signals, gw_signals, _, labels) := st in
  length noisy_signals = m /\
  length gw_signals = m /\
  length labels = L /\
  length ws = S m /\
  nth_error ws 0 = Some w0 /\
  forall j, (j < m)%nat ->
            (nth j labels 0 = 0 \/ nth j labels 0 = 1) /\
            exists wj wj',
              nth_error ws j = Some wj /\
              nth_error ws (S j) = Some wj' /\
              sample_run gw Rcoef Norig N downsample_factor n_snr_values
                         (Z.of_nat j) wj (nth j noisy_signals [])
                         (nth j gw_signals []) (nth j labels 0) wj'.

End GravitationalWaves.

End Takens.

(** ** A generator and two disks to run the code on *)

Module Demo.
Import Py Np.

(** A generator that counts: the normal draws alternate between [-1]
    and [1], the uniform draws are [1/2], and [randint(n)] returns the
    count modulo [n]. *)
Definition counter : RandomState.
Proof.
  refine {| rng_state := nat;
            next_normal := fun g => (if Nat.even g then -1 else 1, S g);
            next_uniform := fun g => (/ 2, S g);
            next_below := fun n g => (g mod n, S g)%nat |}.
  - intros g. simpl. lra.
  - intros n g Hn. simpl. apply Nat.mod_upper_bound. lia.
Defined.

(** A disk with the six CSV files and the file of signals, and a disk
    with no files. *)
Definition csv_table : list (list R) := repeat [0; 1; 2] 431.

Definition signals : list gw_record :=
  [ {| data := [1; 2; 3; 4]; signal_present := 1 |};
    {| data := [5; 6; 7; 8]; signal_present := 0 |} ].

Definition full_disk : @world counter :=
  @Build_world counter 0%nat
               (fun _ => Ok signals) (fun _ => Ok (Arr2 csv_table)) [].

Definition empty_disk : @world counter :=
  @Build_world counter 0%nat
               (fun _ => Raise FileNotFoundError)
               (fun _ => Raise FileNotFoundError) [].

End Demo.

(** ** More of Python and numpy: indices of either sign, reshaping,
    the position of the smallest and of the largest entry *)

Module Np2.
Import Py Np.

(** [l[i]] for an integer [i]: a negative index counts from the end,
    and [l[-0]] is [l[0]]. *)
Definition index {A : Type} (l : list A) (i : Z) : result A :=
  if (i <? 0)%Z then
    if (i + Z.of_nat (length l) <? 0)%Z then Raise IndexError
    else getitem l (Z.to_nat (i + Z.of_nat (length l)))
  else getitem l (Z.to_nat i).

(** [[f(a) for a in l]] for an [f] that has no effect but may raise. *)
Fixpoint map_result {A B : Type} (f : A -> result B) (l : list A)
  : result (list B) :=
  match l with
  | [] => Ok []
  | a :: t =>
      match f a with
      | Ok b => match map_result f t with
                | Ok bs => Ok (b :: bs)
                | Raise e => Raise e
                end
      | Raise e => Raise e
      end
  end.

(** The Euclidean norm of a point, [np.linalg.norm(v)]. *)
Definition norm (v : array1) : R :=
  sqrt (fold_right Rplus 0 (map (fun x => x * x) v)).

(** [a.reshape((n, m))]: the entries in row-major order, cut into [n]
    rows of [m]; the number of entries has to be [n * m]. *)
Fixpoint chunks (n m : nat) (l : array1) : array2 :=
  match n with
  | O => []
  | S n' => firstn m l :: chunks n' m (skipn m l)
  end.

Definition reshape (a : array2) (n m : nat) : result array2 :=
  if (length (flatten a) =? n * m)%nat then Ok (chunks n m (flatten a))
  else Raise ValueError.

(** [np.argmin(l)] and [np.argmax(l)]: the first position of the
    smallest (largest) entry; an empty array raises.  [arg_from]
    scans [l], whose first entry has position [i], knowing the best
    entry so far and its position. *)
Fixpoint arg_from (better : R -> R -> bool) (l : array1) (i : nat)
         (best : R) (pos : nat) : nat :=
  match l with
  | [] => pos
  | x :: t => if better x best then arg_from better t (S i) x i
              else arg_from better t (S i) best pos
  end.

Definition argmin (l : array1) : result nat :=
  match l with
  | [] => Raise ValueError
  | x :: t => Ok (arg_from (fun a b => if Rlt_dec a b then true else false)
                           t 1 x 0)
  end.

Definition argmax (l : array1) : result nat :=
  match l with
  | [] => Raise ValueError
  | x :: t => Ok (arg_from (fun a b => if Rlt_dec b a then true else false)
                           t 1 x 0)
  end.

End Np2.

(** ** Notebook 06: the cells that use the samples and the barcodes *)

Module Vectorizing2.
Import Py Np Np2.
Local Open Scope py_scope.

(** [all_barcodes = dem_barcodes + rep_barcodes] and
    [y = [0]*len(dem_barcodes)+[1]*len(rep_barcodes)]. *)
Definition all_barcodes (dem_barcodes rep_barcodes : list array2)
  : list array2 := dem_barcodes ++ rep_barcodes.

Definition y (dem_barcodes rep_barcodes : list array2) : list Z :=
  repeat 0%Z (length dem_barcodes) ++ repeat 1%Z (length rep_barcodes).

Section Cells.
Context {RS : RandomState}.

(** The two cells that plot one diagram of each class draw
    [random_sample = np.random.randint(50)] and plot
    [items[random_sample]] on the left and [items[-random_sample]] on
    the right, for [items] the list [diagrams_h1] or [all_barcodes].
    The result is the pair of diagrams plotted. *)
Definition plotted_pair {A : Type} (items : list A) : M (A * A) :=
  random_sample <- random_randint 50 ;;
  left <- lift (index items random_sample) ;;
  right <- lift (index items (- random_sample)) ;;
  ret (left, right).

End Cells.

End Vectorizing2.

(** ** The Takens embedding notebook: the cells around the generator
    of gravitational waves *)

Module Takens2.
Import Py Np Np2 Takens.
Local Open Scope py_scope.

(** [np.array([embedded_signal[subsample_factor*t,:] for t in
    range(int(len(embedded_signal)/subsample_factor))])] *)
Definition subsampled_embedded_signal (embedded_signal : array2)
           (subsample_factor : Z) : result array2 :=
  match true_div (Z.of_nat (length embedded_signal)) subsample_factor with
  | Ok q => map_result (fun t => index embedded_signal (subsample_factor * t))
                       (range (int q))
  | Raise e => Raise e
  end.

(** The cell that picks the series to plot: the positions of the
    smallest and of the largest label, and the three series read at
    these positions. *)
Definition series_to_plot (noisy_signals gw_signals : list array1)
           (labels : array1) : result (nat * nat * array1 * array1 * array1) :=
  match argmin labels with
  | Ok background_idx =>
      match argmax labels with
      | Ok signal_idx =>
          match getitem noisy_signals background_idx with
          | Ok ts_noise =>
              match getitem noisy_signals signal_idx with
              | Ok ts_background =>
                  match getitem gw_signals signal_idx with
                  | Ok ts_signal =>
                      Ok (background_idx, signal_idx,
                          ts_noise, ts_background, ts_signal)
                  | Raise e => Raise e
                  end
              | Raise e => Raise e
              end
          | Raise e => Raise e
          end
      | Raise e => Raise e
      end
  | Raise e => Raise e
  end.

Section Signals.
Context {RS : RandomState}.

(** The first cell: a sine wave with uniform noise, sampled on
    [np.linspace(0, 2*np.pi, n_samples)]. *)
Definition signal (n_samples : Z) (noise_level frequency : R) : M array1 :=
  domain <- lift (linspace 0 (2 * PI) n_samples) ;;
  comprehension domain
                (fun x => u <- random_random0 ;;
                          ret (sin (frequency * x) + noise_level * u)).

End Signals.

End Takens2.

(** ** More inputs to run the code on *)

Module Demo2.
Import Py Np.

(** Two stored signals of five points, a length that the downsampling
    factor [2] does not divide. *)
Definition odd_signals : list gw_record :=
  [ {| data := [1; 2; 3; 4; 5]; signal_present := 1 |};
    {| data := [5; 6; 7; 8; 9]; signal_present := 0 |} ].

Definition odd_disk : @world Demo.counter :=
  @Build_world Demo.counter 0%nat
               (fun _ => Ok odd_signals) (fun _ => Ok (Arr2 Demo.csv_table)) [].

(** A disk where the file of signals holds no record, and a disk where
    the fourth CSV file is missing and the others are there. *)
Definition no_signals_disk : @world Demo.counter :=
  @Build_world Demo.counter 0%nat
               (fun _ => Ok []) (fun _ => Ok (Arr2 Demo.csv_table)) [].

Definition gap_disk : @world Demo.counter :=
  @Build_world Demo.counter 0%nat
               (fun _ => Ok Demo.signals)
               (fun file => if string_dec file "data/50biased_3.csv"
                            then Raise FileNotFoundError
                            else Ok (Arr2 Demo.csv_table)) [].

(** The disk of [Demo.full_disk] with the generator one draw further. *)
Definition later_disk : @world Demo.counter :=
  @Build_world Demo.counter 1%nat
               (fun _ => Ok Demo.signals) (fun _ => Ok (Arr2 Demo.csv_table)) [].

(** A disk where the second CSV file has only two rows. *)
Definition short_disk : @world Demo.counter :=
  @Build_world Demo.counter 0%nat
               (fun _ => Ok Demo.signals)
               (fun file => if string_dec file "data/50biased_1.csv"
                            then Ok (Arr2 [[0; 1; 2]; [0; 1; 2]])
                            else Ok (Arr2 Demo.csv_table)) [].

End Demo2.

(* ================================================================== *)
(** * Part II: theorems *)
(* ================================================================== *)

(** Case analysis on every [Rmax] and [Rmin] in sight. *)
Ltac minmax_lra :=
  unfold Rmax, Rmin in *; repeat destruct Rle_dec; lra.

(** ** The Python and numpy operations on small inputs *)

Section Examples.
Import Py Np Clustering Vectorizing Takens.

Example range_6 : range 6 = [0; 1; 2; 3; 4; 5]%Z.
Proof. reflexivity. Qed.

Example range2_1_4 : range2 1 4 = [1; 2; 3]%Z.
Proof. reflexivity. Qed.

Example range3_step_3 : range3 0 10 3 = Ok [0; 3; 6; 9]%Z.
Proof. reflexivity. Qed.

Example range3_step_0 : range3 0 10 0 = Raise ValueError.
Proof. reflexivity. Qed.

Example range3_backwards : range3 0 10 (-2) = Ok [].
Proof. reflexivity. Qed.

Example str_5 : str 5 = "5"%string.
Proof. reflexivity. Qed.

Example fileName_3 : fileName 3 = "data/50biased_3.csv"%string.
Proof. reflexivity. Qed.

Example int_half : int (5 / 2) = 2%Z.
Proof.
  unfold int. destruct (Rle_dec 0 (5 / 2)) as [_|H]; [|exfalso; apply H; lra].
  apply Zfloor_eq. lra.
Qed.

Example int_negative_half : int (- 5 / 2) = (-2)%Z.
Proof.
  unfold int. destruct (Rle_dec 0 (- 5 / 2)) as [H|_]; [exfalso; lra|].
  apply Zceil_eq. lra.
Qed.

Example mod_negative : mod_ (-1) 3 = Ok 2%Z.
Proof. reflexivity. Qed.

Example mod_by_zero : mod_ 7 0 = Raise ZeroDivisionError.
Proof. reflexivity. Qed.

Example add1_same : add1 [1; 2] [3; 4] = Ok [1 + 3; 2 + 4].
Proof. reflexivity. Qed.

Example add1_broadcast : add1 [1] [2; 3] = Ok [1 + 2; 1 + 3].
Proof. reflexivity. Qed.

Example add1_mismatch : add1 [1; 2] [3; 4; 5] = Raise ValueError.
Proof. reflexivity. Qed.

Example take_every_other : take [1; 2; 3; 4] [0; 2]%Z = Ok [1; 3].
Proof. reflexivity. Qed.

Example take_outside : take [1; 2] [0; 2]%Z = Raise IndexError.
Proof. reflexivity. Qed.

Example row_slice_1_3 : row_slice (Arr2 [[1; 2; 3; 4]]) 0 1 3 = Ok [2; 3].
Proof. reflexivity. Qed.

Example row_slice_short : row_slice (Arr2 [[1; 2]]) 0 1 3 = Ok [2].
Proof. reflexivity. Qed.

Example row_slice_one_dimensional : row_slice (Arr1 [1; 2; 3]) 0 1 3 = Raise IndexError.
Proof. reflexivity. Qed.

Example assign_from_2 : assign_from [0; 0; 0; 0] 2 1 = [0; 0; 1; 1].
Proof. reflexivity. Qed.

Example setitem_1 : setitem [0; 0; 0] 1 1 = Ok [0; 1; 0].
Proof. reflexivity. Qed.

Example zeros_negative : zeros (-1) = Raise ValueError.
Proof. reflexivity. Qed.

Example concatenate2_columns :
  concatenate2 [[1; 2]] [[3; 4; 5]] = Raise ValueError.
Proof. reflexivity. Qed.

Example transpose_2_3 :
  transpose 3 [[1; 2; 3]; [4; 5; 6]] = [[1; 4]; [2; 5]; [3; 6]].
Proof. reflexivity. Qed.

Example correspondences_1_2 : correspondences 1 2 = [[(0, 0); (0, 1)]]%nat.
Proof. reflexivity. Qed.

(** A chain through point 0 joins points 1 and 2 of the graph metric
    with steps of at most 2, although they are at distance 3. *)
Example chain_1_0_2 : chain_scales D_graph 1 2 2.
Proof.
  split; [lra|]. exists [1; 0; 2]%nat. split; [|split].
  - repeat constructor.
  - split; reflexivity.
  - unfold entry. simpl. lra.
Qed.

End Examples.

(** ** Chains and the closure *)

Section Chains.
Import Np Clustering.

Variable d : nat -> nat -> R.

Lemma maxstep_nonneg c : 0 <= maxstep d c.
Proof.
  induction c as [|a [|b t] IH]; simpl; try lra.
  eapply Rle_trans; [exact IH | apply Rmax_r].
Qed.

Lemma maxstep_cons a b t :
  maxstep d (a :: b :: t) = Rmax (d a b) (maxstep d (b :: t)).
Proof. reflexivity. Qed.

(** Cutting a chain at a point: the largest step is the larger of
    the largest steps of the two pieces. *)
Lemma maxstep_app l1 a l2 :
  maxstep d (l1 ++ a :: l2) =
  Rmax (maxstep d (l1 ++ [a])) (maxstep d (a :: l2)).
Proof.
  induction l1 as [|b l1 IH].
  - simpl (maxstep d ([] ++ [a])). simpl app.
    rewrite Rmax_right; [reflexivity | apply maxstep_nonneg].
  - destruct l1 as [|b' l1].
    + simpl app. rewrite !maxstep_cons. simpl (maxstep d [a]).
      pose proof (maxstep_nonneg (a :: l2)).
      generalize dependent (maxstep d (a :: l2)). intros M _ HM.
      minmax_lra.
    + change ((b :: b' :: l1) ++ a :: l2) with (b :: (b' :: l1) ++ a :: l2).
      change ((b :: b' :: l1) ++ [a]) with (b :: (b' :: l1) ++ [a]).
      change ((b' :: l1) ++ a :: l2) with (b' :: l1 ++ a :: l2) in *.
      change ((b' :: l1) ++ [a]) with (b' :: l1 ++ [a]) in *.
      rewrite !maxstep_cons, IH, Rmax_assoc. reflexivity.
Qed.

Lemma maxstep_prefix l1 a l2 :
  maxstep d (l1 ++ [a]) <= maxstep d (l1 ++ a :: l2).
Proof. rewrite (maxstep_app l1 a l2). apply Rmax_l. Qed.

Lemma maxstep_suffix l1 a l2 :
  maxstep d (a :: l2) <= maxstep d (l1 ++ a :: l2).
Proof. rewrite (maxstep_app l1 a l2). apply Rmax_r. Qed.

Lemma eps_chain_maxstep eps c :
  0 <= eps -> (eps_chain d eps c <-> maxstep d c <= eps).
Proof.
  intros Heps. induction c as [|a [|b t] IH]; simpl; try tauto.
  simpl in IH. split.
  - intros [H1 H2]. apply Rmax_lub; tauto.
  - intros H. split.
    + eapply Rle_trans; [apply Rmax_l | exact H].
    + apply IH. eapply Rle_trans; [apply Rmax_r | exact H].
Qed.

Lemma closure_S n : closure d (S n) = relax n (closure d n).
Proof. unfold closure. rewrite seq_S, fold_left_app. reflexivity. Qed.

Lemma split_first (k : nat) l :
  In k l -> exists l1 l2, l = l1 ++ k :: l2 /\ ~ In k l1.
Proof.
  induction l as [|a l IH]; intros Hin; [destruct Hin|].
  destruct (Nat.eq_dec a k) as [->|Hne].
  - exists [], l. split; [reflexivity | intros []].
  - destruct Hin as [->|Hin]; [congruence|].
    destruct (IH Hin) as (l1 & l2 & -> & Hnot).
    exists (a :: l1), l2. split; [reflexivity|].
    intros [H|H]; [congruence | exact (Hnot H)].
Qed.

Lemma split_last (k : nat) l :
  In k l -> exists l1 l2, l = l1 ++ k :: l2 /\ ~ In k l2.
Proof.
  induction l as [|a l IH]; intros Hin; [destruct Hin|].
  destruct (in_dec Nat.eq_dec k l) as [Hl|Hl].
  - destruct (IH Hl) as (l1 & l2 & -> & Hnot).
    exists (a :: l1), l2. split; [reflexivity | exact Hnot].
  - destruct Hin as [->|Hin]; [|contradiction].
    exists [], l. split; [reflexivity | exact Hl].
Qed.

Lemma below_S_not_in n l :
  Forall (fun p => (p < S n)%nat) l -> ~ In n l ->
  Forall (fun p => (p < n)%nat) l.
Proof.
  rewrite !Forall_forall. intros H Hn p Hp.
  specialize (H p Hp). assert (p <> n) by (intros ->; exact (Hn Hp)). lia.
Qed.

(** The closure over the first [n] points is below the largest step
    of every chain whose intermediate points are among them. *)
Lemma closure_le_chain n : forall i j mid,
  Forall (fun p => (p < n)%nat) mid ->
  closure d n i j <= maxstep d (i :: mid ++ [j]).
Proof.
  induction n as [|n IH]; intros i j mid Hmid.
  - destruct mid as [|m mid].
    + simpl. apply Rmax_l.
    + inversion Hmid; lia.
  - rewrite closure_S. unfold relax.
    destruct (in_dec Nat.eq_dec n mid) as [Hin|Hnot].
    + eapply Rle_trans; [apply Rmin_r|]. apply Rmax_lub.
      * destruct (split_first n mid Hin) as (l1 & l2 & -> & Hl1).
        apply Forall_app in Hmid. destruct Hmid as [Hmid1 _].
        eapply Rle_trans; [apply (IH i n l1), below_S_not_in; assumption|].
        rewrite <- app_assoc. simpl.
        apply (maxstep_prefix (i :: l1) n (l2 ++ [j])).
      * destruct (split_last n mid Hin) as (l1 & l2 & -> & Hl2).
        apply Forall_app in Hmid. destruct Hmid as [_ Hmid2].
        inversion Hmid2 as [|? ? _ Hmid2']; subst.
        eapply Rle_trans; [apply (IH n j l2), below_S_not_in; assumption|].
        rewrite <- app_assoc. simpl.
        apply (maxstep_suffix (i :: l1) n (l2 ++ [j])).
    + eapply Rle_trans; [apply Rmin_l|].
      apply IH, below_S_not_in; assumption.
Qed.

Hypothesis d_nonneg : forall i j, 0 <= d i j.

(** The closure is the largest step of some chain. *)
Lemma closure_attained n : forall i j,
  exists mid, Forall (fun p => (p < n)%nat) mid /\
              closure d n i j = maxstep d (i :: mid ++ [j]).
Proof.
  induction n as [|n IH]; intros i j.
  - exists []. split; [constructor|]. simpl.
    rewrite Rmax_left; [reflexivity | apply d_nonneg].
  - rewrite closure_S. unfold relax.
    destruct (Rle_dec (closure d n i j)
                      (Rmax (closure d n i n) (closure d n n j))) as [Hle|Hgt].
    + rewrite Rmin_left by exact Hle.
      destruct (IH i j) as (mid & Hmid & ->). exists mid. split; [|reflexivity].
      eapply Forall_impl; [|exact Hmid]. simpl; intros; lia.
    + rewrite Rmin_right by lra.
      destruct (IH i n) as (m1 & Hm1 & ->).
      destruct (IH n j) as (m2 & Hm2 & ->).
      exists (m1 ++ n :: m2). split.
      * apply Forall_app. split; [|constructor; [lia|]];
          (eapply Forall_impl; [|eassumption]); simpl; intros; lia.
      * replace (i :: (m1 ++ n :: m2) ++ [j])
          with ((i :: m1) ++ n :: (m2 ++ [j]))
          by (simpl; rewrite <- app_assoc; reflexivity).
        rewrite maxstep_app. reflexivity.
Qed.

Lemma closure_nonneg n i j : 0 <= closure d n i j.
Proof.
  destruct (closure_attained n i j) as (mid & _ & ->). apply maxstep_nonneg.
Qed.

Lemma closure_le_d n i j : closure d n i j <= d i j.
Proof.
  induction n as [|n IH]; [apply Rle_refl|].
  rewrite closure_S. unfold relax.
  eapply Rle_trans; [apply Rmin_l | exact IH].
Qed.

End Chains.

(** ** The single linkage metric of a finite metric space *)

Section SingleLinkage.
Import Np Clustering.

Variable D : array2.
Hypothesis HD : metric_space D.

Lemma entry_outside_l i j : (length D <= i)%nat -> entry D i j = 0.
Proof.
  intros H. unfold entry. rewrite (nth_overflow D [] H). destruct j; reflexivity.
Qed.

Lemma entry_outside_r i j : (length D <= j)%nat -> entry D i j = 0.
Proof.
  intros H. destruct (le_lt_dec (length D) i) as [Hi|Hi].
  - apply entry_outside_l; exact Hi.
  - unfold entry. apply nth_overflow.
    destruct (ms_shape D HD) as [_ Hrows]. rewrite Forall_forall in Hrows.
    rewrite (Hrows (nth i D [])); [exact H | apply nth_In; exact Hi].
Qed.

Lemma entry_nonneg i j : 0 <= entry D i j.
Proof.
  destruct (le_lt_dec (length D) i) as [Hi|Hi];
    [rewrite entry_outside_l by exact Hi; lra|].
  destruct (le_lt_dec (length D) j) as [Hj|Hj];
    [rewrite entry_outside_r by exact Hj; lra|].
  apply (ms_nonneg D HD); assumption.
Qed.

Lemma u_X_le_chain x x' mid :
  in_space (length D) mid ->
  u_X D x x' <= maxstep (entry D) (x :: mid ++ [x']).
Proof. apply closure_le_chain. Qed.

Lemma u_X_attained x x' :
  exists mid, in_space (length D) mid /\
              u_X D x x' = maxstep (entry D) (x :: mid ++ [x']).
Proof. apply closure_attained, entry_nonneg. Qed.

Lemma u_X_nonneg x x' : 0 <= u_X D x x'.
Proof. apply closure_nonneg, entry_nonneg. Qed.

Lemma u_X_le_d x x' : u_X D x x' <= entry D x x'.
Proof. apply closure_le_d. Qed.

Lemma u_X_diag x : (x < length D)%nat -> u_X D x x = 0.
Proof.
  intros Hx. apply Rle_antisym; [|apply u_X_nonneg].
  eapply Rle_trans; [apply u_X_le_d|].
  apply Req_le, (ms_zero D HD); auto.
Qed.

(** A chain between two different points makes a step between two
    different points. *)
Lemma maxstep_pos mid : forall x x',
  (x < length D)%nat -> (x' < length D)%nat -> in_space (length D) mid ->
  x <> x' -> 0 < maxstep (entry D) (x :: mid ++ [x']).
Proof.
  induction mid as [|m mid IH]; intros x x' Hx Hx' Hmid Hne.
  - simpl. eapply Rlt_le_trans; [|apply Rmax_l].
    pose proof (ms_nonneg D HD x x' Hx Hx').
    pose proof (proj1 (ms_zero D HD x x' Hx Hx')). 
    destruct (Req_dec (entry D x x') 0); [tauto | lra].
  - inversion Hmid as [|? ? Hm Hmid']; subst.
    change (0 < Rmax (entry D x m) (maxstep (entry D) (m :: mid ++ [x']))).
    destruct (Nat.eq_dec x m) as [->|Hxm].
    + eapply Rlt_le_trans; [apply (IH m x'); assumption | apply Rmax_r].
    + eapply Rlt_le_trans; [|apply Rmax_l].
      pose proof (ms_nonneg D HD x m Hx Hm).
      pose proof (proj1 (ms_zero D HD x m Hx Hm)).
      destruct (Req_dec (entry D x m) 0); [tauto | lra].
Qed.

Lemma entry_sym i j : entry D i j = entry D j i.
Proof.
  destruct (le_lt_dec (length D) i) as [Hi|Hi];
    [rewrite entry_outside_l, entry_outside_r by exact Hi; reflexivity|].
  destruct (le_lt_dec (length D) j) as [Hj|Hj];
    [rewrite entry_outside_r, entry_outside_l by exact Hj; reflexivity|].
  apply (ms_sym D HD); assumption.
Qed.

(** Walking a chain backwards makes the same steps. *)
Lemma maxstep_rev c : maxstep (entry D) (rev c) = maxstep (entry D) c.
Proof.
  induction c as [|a [|b t] IH]; try reflexivity.
  change (rev (a :: b :: t)) with (rev (b :: t) ++ [a]).
  simpl (rev (b :: t)) in *. rewrite <- app_assoc. simpl ([b] ++ [a]).
  rewrite maxstep_app, IH, (maxstep_cons _ a b t).
  simpl (maxstep (entry D) [b; a]). rewrite (entry_sym b a).
  pose proof (entry_nonneg a b).
  generalize (maxstep (entry D) (b :: t)). intros M. minmax_lra.
Qed.

Lemma u_X_sym x x' : u_X D x x' = u_X D x' x.
Proof.
  assert (Hle : forall a b, u_X D a b <= u_X D b a).
  { intros a b. destruct (u_X_attained b a) as (mid & Hmid & ->).
    rewrite <- maxstep_rev.
    replace (rev (b :: mid ++ [a])) with (a :: rev mid ++ [b])
      by (simpl; rewrite rev_app_distr; reflexivity).
    apply u_X_le_chain. apply Forall_rev. exact Hmid. }
  apply Rle_antisym; apply Hle.
Qed.

Lemma u_X_strong_triangle x x' x'' :
  (x' < length D)%nat ->
  u_X D x x'' <= Rmax (u_X D x x') (u_X D x' x'').
Proof.
  intros Hx'.
  destruct (u_X_attained x x') as (m1 & Hm1 & ->).
  destruct (u_X_attained x' x'') as (m2 & Hm2 & ->).
  eapply Rle_trans;
    [|apply Req_le; exact (maxstep_app (entry D) (x :: m1) x' (m2 ++ [x'']))].
  replace ((x :: m1) ++ x' :: m2 ++ [x'']) with (x :: (m1 ++ x' :: m2) ++ [x''])
    by (simpl; rewrite <- app_assoc; reflexivity).
  apply u_X_le_chain. apply Forall_app. split; [exact Hm1|].
  constructor; assumption.
Qed.

Lemma u_X_zero_iff x x' :
  (x < length D)%nat -> (x' < length D)%nat ->
  (u_X D x x' = 0 <-> x = x').
Proof.
  intros Hx Hx'. split.
  - intros H0. destruct (Nat.eq_dec x x') as [|Hne]; [assumption|].
    destruct (u_X_attained x x') as (mid & Hmid & Heq).
    pose proof (maxstep_pos mid x x' Hx Hx' Hmid Hne). lra.
  - intros <-. apply u_X_diag; exact Hx.
Qed.

(** A chain that joins [x] to [x'] is the one-point chain or has the
    form [x, ..., x']. *)
Lemma joins_inv c x x' :
  joins c x x' ->
  (c = [x] /\ x = x') \/ exists mid, c = x :: mid ++ [x'].
Proof.
  intros [Hhd Hlast]. destruct c as [|a rest]; [discriminate|].
  injection Hhd as ->.
  destruct rest as [|b rest]; [left; split; [reflexivity | exact Hlast]|].
  right. destruct (exists_last (l := b :: rest)) as (mid & l & Heq);
    [discriminate|].
  rewrite Heq in *. exists mid.
  change (x :: mid ++ [l]) with ((x :: mid) ++ [l]) in Hlast.
  rewrite last_last in Hlast. subst l. reflexivity.
Qed.

(** [u_X] is the infimum that the notebook defines it to be. *)
Lemma u_X_is_inf x x' :
  (x < length D)%nat -> (x' < length D)%nat ->
  is_inf (chain_scales D x x') (u_X D x x').
Proof.
  intros Hx Hx'. split.
  - intros e (He & c & Hc & Hj & Hchain).
    destruct (joins_inv c x x' Hj) as [[-> <-]|(mid & ->)].
    + rewrite u_X_diag by exact Hx. lra.
    + eapply Rle_trans; [apply (u_X_le_chain x x' mid)|].
      * inversion Hc as [|? ? _ Hc']; subst.
        apply Forall_app in Hc'. tauto.
      * apply eps_chain_maxstep; [lra | exact Hchain].
  - intros b Hb.
    destruct (u_X_attained x x') as (mid & Hmid & Heq).
    assert (Hin : in_space (length D) (x :: mid ++ [x'])).
    { constructor; [exact Hx|]. apply Forall_app. split; [exact Hmid|].
      constructor; [exact Hx' | constructor]. }
    assert (Hj : joins (x :: mid ++ [x']) x x').
    { split; [reflexivity|].
      change (x :: mid ++ [x']) with ((x :: mid) ++ [x']). apply last_last. }
    assert (Hmem : forall e, 0 < e -> u_X D x x' <= e -> chain_scales D x x' e).
    { intros e He Hle. split; [exact He|].
      exists (x :: mid ++ [x']). repeat split; try assumption; try apply Hj.
      apply eps_chain_maxstep; [lra | rewrite <- Heq; exact Hle]. }
    pose proof (u_X_nonneg x x') as Hnn.
    destruct (Rle_lt_dec (u_X D x x') 0) as [H0|Hpos].
    + destruct (Rle_lt_dec b (u_X D x x')) as [|Hlt]; [assumption|].
      assert (Hhalf : b <= b / 2) by (apply Hb, Hmem; lra). lra.
    + apply Hb, Hmem; lra.
Qed.

End SingleLinkage.

(** ** Distance matrices *)

Section DistanceMatrices.
Import Np Clustering.

Lemma sq_diffs_sym p : forall q, sq_diffs p q = sq_diffs q p.
Proof.
  unfold sq_diffs. induction p as [|a p IH]; intros [|b q]; simpl; try reflexivity.
  rewrite (IH q). ring.
Qed.

Lemma sq_diffs_diag p : sq_diffs p p = 0.
Proof.
  unfold sq_diffs. induction p as [|a p IH]; simpl; [reflexivity|].
  rewrite IH. ring.
Qed.

Lemma entry_pairwise X i j :
  (i < length X)%nat -> (j < length X)%nat ->
  entry (pairwise_distances X) i j = euclidean (nth i X []) (nth j X []).
Proof.
  intros Hi Hj. unfold entry, pairwise_distances.
  rewrite (nth_indep _ [] (map (fun q => euclidean [] q) X))
    by (rewrite length_map; exact Hi).
  rewrite (map_nth (fun p => map (fun q => euclidean p q) X) X [] i).
  rewrite (nth_indep _ 0 (euclidean (nth i X []) []))
    by (rewrite length_map; exact Hj).
  apply (map_nth (fun q => euclidean (nth i X []) q)).
Qed.

Lemma pairwise_distances_ok X :
  distance_matrix (pairwise_distances X) (length X).
Proof.
  split; [|split].
  - split.
    + unfold pairwise_distances. apply length_map.
    + unfold pairwise_distances. rewrite Forall_map, Forall_forall.
      intros p _. apply length_map.
  - intros i j Hi Hj. rewrite !entry_pairwise by assumption.
    unfold euclidean. rewrite sq_diffs_sym. reflexivity.
  - intros i Hi. rewrite entry_pairwise by assumption.
    unfold euclidean. rewrite sq_diffs_diag. apply sqrt_0.
Qed.

(** Case analysis on an index below a literal bound. *)
Ltac index_cases i H :=
  repeat (destruct i as [|i]; [|try (exfalso; lia)]).

Lemma D_graph_ok : distance_matrix D_graph 4.
Proof.
  split; [|split].
  - split; [reflexivity|]. repeat constructor.
  - intros i j Hi Hj. index_cases i Hi; index_cases j Hj; reflexivity.
  - intros i Hi. index_cases i Hi; reflexivity.
Qed.

Lemma D_graph_metric : metric_space D_graph.
Proof.
  split; simpl length.
  - split; [reflexivity|]. repeat constructor.
  - intros i j Hi Hj. index_cases i Hi; index_cases j Hj;
      unfold entry; simpl; lra.
  - intros i j Hi Hj. index_cases i Hi; index_cases j Hj;
      unfold entry; simpl; split; intros H;
      try reflexivity; try discriminate; try lra.
  - intros i j Hi Hj. index_cases i Hi; index_cases j Hj; reflexivity.
  - intros i j k Hi Hj Hk.
    index_cases i Hi; index_cases j Hj; index_cases k Hk;
      unfold entry; simpl; lra.
Qed.

Lemma D_pair_metric : metric_space D_pair.
Proof.
  split; simpl length.
  - split; [reflexivity|]. repeat constructor.
  - intros i j Hi Hj. index_cases i Hi; index_cases j Hj;
      unfold entry; simpl; lra.
  - intros i j Hi Hj. index_cases i Hi; index_cases j Hj;
      unfold entry; simpl; split; intros H;
      try reflexivity; try discriminate; try lra.
  - intros i j Hi Hj. index_cases i Hi; index_cases j Hj; reflexivity.
  - intros i j k Hi Hj Hk.
    index_cases i Hi; index_cases j Hj; index_cases k Hk;
      unfold entry; simpl; lra.
Qed.

End DistanceMatrices.

(** ** Correspondences and distortion *)

Section Lists.
Import Np Clustering.

Lemma Rabs_bounds a b : Rabs a <= b -> - b <= a <= b.
Proof. unfold Rabs. destruct (Rcase_abs a); lra. Qed.

Lemma Rmax_list_nonneg l : 0 <= Rmax_list l.
Proof.
  induction l as [|a l IH]; simpl; [lra|].
  eapply Rle_trans; [exact IH | apply Rmax_r].
Qed.

Lemma Rmax_list_ge l x : In x l -> x <= Rmax_list l.
Proof.
  induction l as [|a l IH]; intros Hin; [destruct Hin|].
  simpl. destruct Hin as [->|Hin]; [apply Rmax_l|].
  eapply Rle_trans; [apply IH, Hin | apply Rmax_r].
Qed.

Lemma Rmax_list_le l b :
  0 <= b -> (forall x, In x l -> x <= b) -> Rmax_list l <= b.
Proof.
  intros Hb. induction l as [|a l IH]; intros H; simpl; [exact Hb|].
  apply Rmax_lub; [apply H; left; reflexivity|].
  apply IH. intros x Hx. apply H. right. exact Hx.
Qed.

Lemma fold_Rmin_le_init a t : fold_right Rmin a t <= a.
Proof.
  induction t as [|b t IH]; simpl; [lra|].
  eapply Rle_trans; [apply Rmin_r | exact IH].
Qed.

Lemma Rmin_list_le l x : In x l -> Rmin_list l <= x.
Proof.
  destruct l as [|a t]; [intros []|]. simpl.
  induction t as [|b t IH]; simpl; intros Hin.
  - destruct Hin as [->|[]]. lra.
  - destruct Hin as [->|[->|Hin]].
    + eapply Rle_trans; [apply Rmin_r | apply fold_Rmin_le_init].
    + apply Rmin_l.
    + eapply Rle_trans; [apply Rmin_r | apply IH]. right. exact Hin.
Qed.

Lemma Rmin_list_in l : l <> [] -> In (Rmin_list l) l.
Proof.
  destruct l as [|a t]; [congruence|]. intros _. simpl.
  induction t as [|b t IH]; simpl; [left; reflexivity|].
  destruct (Rle_dec b (fold_right Rmin a t)) as [Hle|Hgt].
  - rewrite Rmin_left by exact Hle. right. left. reflexivity.
  - rewrite Rmin_right by lra.
    destruct IH as [IH|IH]; [left; exact IH | right; right; exact IH].
Qed.

Lemma Rmin_list_map_le {A : Type} (f g : A -> R) l :
  (forall r, In r l -> f r <= g r) ->
  Rmin_list (map f l) <= Rmin_list (map g l).
Proof.
  intros H. destruct l as [|a t]; [simpl; lra|].
  pose proof (Rmin_list_in (map g (a :: t))) as Hin.
  apply in_map_iff in Hin; [|discriminate].
  destruct Hin as (r & <- & Hr).
  eapply Rle_trans; [|apply H, Hr].
  apply Rmin_list_le, in_map, Hr.
Qed.

Lemma sublists_incl {A : Type} (l : list A) :
  forall s, In s (sublists l) -> incl s l.
Proof.
  induction l as [|a l IH]; simpl; intros s Hs.
  - destruct Hs as [<-|[]]. intros x [].
  - apply in_app_or in Hs. destruct Hs as [Hs|Hs].
    + apply in_map_iff in Hs. destruct Hs as (s' & <- & Hs').
      intros x [->|Hx]; [left; reflexivity | right; apply (IH s' Hs'), Hx].
    + intros x Hx. right. apply (IH s Hs), Hx.
Qed.

Lemma filter_in_sublists {A : Type} (f : A -> bool) (l : list A) :
  In (filter f l) (sublists l).
Proof.
  induction l as [|a l IH]; simpl; [left; reflexivity|].
  apply in_or_app. destruct (f a); [left; apply in_map, IH | right; exact IH].
Qed.

Lemma is_correspondence_spec N M C :
  is_correspondence N M C = true <->
  (forall x, (x < N)%nat -> exists y, In (x, y) C) /\
  (forall y, (y < M)%nat -> exists x, In (x, y) C).
Proof.
  unfold is_correspondence.
  rewrite andb_true_iff, !forallb_forall. split.
  - intros [HX HY]. split.
    + intros x Hx. specialize (HX x). rewrite existsb_exists in HX.
      destruct HX as ([a b] & Hin & Heq); [apply in_seq; lia|].
      apply Nat.eqb_eq in Heq. simpl in Heq. subst a. exists b. exact Hin.
    + intros y Hy. specialize (HY y). rewrite existsb_exists in HY.
      destruct HY as ([a b] & Hin & Heq); [apply in_seq; lia|].
      apply Nat.eqb_eq in Heq. simpl in Heq. subst b. exists a. exact Hin.
  - intros [HX HY]. split.
    + intros x Hx. apply in_seq in Hx. apply existsb_exists.
      destruct (HX x) as (y & Hin); [lia|].
      exists (x, y). split; [exact Hin | apply Nat.eqb_refl].
    + intros y Hy. apply in_seq in Hy. apply existsb_exists.
      destruct (HY y) as (x & Hin); [lia|].
      exists (x, y). split; [exact Hin | apply Nat.eqb_refl].
Qed.

(** The enumerated correspondences are correspondences. *)
Lemma correspondences_sound N M C :
  In C (correspondences N M) -> correspondence N M C.
Proof.
  unfold correspondences. rewrite filter_In. intros [Hsub Hc].
  apply is_correspondence_spec in Hc. split; [|exact Hc].
  intros [a b] Hin. apply (sublists_incl _ _ Hsub) in Hin.
  apply in_prod_iff in Hin. rewrite !in_seq in Hin. simpl. lia.
Qed.

Lemma length_SLHC D : length (SLHC D) = length D.
Proof. unfold SLHC. rewrite length_map, length_seq. reflexivity. Qed.

Lemma entry_SLHC D i j :
  (i < length D)%nat -> (j < length D)%nat ->
  entry (SLHC D) i j = u_X D i j.
Proof.
  intros Hi Hj. unfold entry, SLHC.
  rewrite (nth_indep _ [] (map (fun j => u_X D 0 j) (seq 0 (length D))))
    by (rewrite length_map, length_seq; exact Hi).
  rewrite (map_nth (fun i => map (fun j => u_X D i j) (seq 0 (length D)))).
  rewrite seq_nth by exact Hi. simpl.
  rewrite (nth_indep _ 0 (u_X D i 0))
    by (rewrite length_map, length_seq; exact Hj).
  rewrite (map_nth (fun j => u_X D i j)).
  rewrite seq_nth by exact Hj. reflexivity.
Qed.

(** Single linkage takes finite metric spaces to finite metric spaces
    (ultrametric ones, by [u_X_strong_triangle]). *)
Lemma SLHC_metric_space D : metric_space D -> metric_space (SLHC D).
Proof.
  intros HD. split; rewrite ?length_SLHC.
  - split; [apply length_SLHC|]. unfold SLHC. rewrite Forall_map, Forall_forall.
    intros i _. rewrite length_map, length_seq. reflexivity.
  - intros i j Hi Hj. rewrite entry_SLHC by assumption. apply (u_X_nonneg D HD).
  - intros i j Hi Hj. rewrite entry_SLHC by assumption.
    apply (u_X_zero_iff D HD); assumption.
  - intros i j Hi Hj. rewrite !entry_SLHC by assumption. apply (u_X_sym D HD).
  - intros i j k Hi Hj Hk. rewrite !entry_SLHC by assumption.
    pose proof (u_X_strong_triangle D HD i j k Hj).
    pose proof (u_X_nonneg D HD i j). pose proof (u_X_nonneg D HD j k).
    minmax_lra.
Qed.

End Lists.

(** ** Stability of single linkage *)

Section Transport.
Import Np Clustering.

(** Two spaces and a relation between their points that meets every
    point of the first and stretches distances by at most [delta]. *)
Variables DX DY : array2.
Hypothesis HX : metric_space DX.
Variable rel : nat -> nat -> Prop.
Variable delta : R.
Hypothesis delta_nonneg : 0 <= delta.
Hypothesis rel_total :
  forall a, (a < length DX)%nat -> exists b, rel a b /\ (b < length DY)%nat.
Hypothesis rel_dist :
  forall a b a' b', rel a b -> rel a' b' ->
                    entry DY b b' <= entry DX a a' + delta.

Lemma lift_chain mid :
  in_space (length DX) mid ->
  exists ys, in_space (length DY) ys /\ Forall2 rel mid ys.
Proof.
  induction 1 as [|m mid Hm _ (ys & Hys & Hrel)].
  - exists []. split; constructor.
  - destruct (rel_total m Hm) as (b & Hb & Hlt).
    exists (b :: ys). split; constructor; assumption.
Qed.

Lemma maxstep_related c1 c2 :
  Forall2 rel c1 c2 ->
  maxstep (entry DY) c2 <= maxstep (entry DX) c1 + delta.
Proof.
  induction 1 as [|a b c1 c2 Hab Hrest IH]; [simpl; lra|].
  destruct Hrest as [|a' b' c1 c2 Hab' Hrest]; [simpl; lra|].
  rewrite !maxstep_cons.
  pose proof (rel_dist a b a' b' Hab Hab').
  apply Rmax_lub.
  - eapply Rle_trans; [eassumption|]. apply Rplus_le_compat_r, Rmax_l.
  - eapply Rle_trans; [exact IH|]. apply Rplus_le_compat_r, Rmax_r.
Qed.

(** A chain in [X] is carried, point by point, to a chain in [Y]
    whose steps are at most [delta] longer. *)
Lemma u_X_related x y x' y' :
  rel x y -> rel x' y' ->
  u_X DY y y' <= u_X DX x x' + delta.
Proof.
  intros Hxy Hxy'.
  destruct (u_X_attained DX HX x x') as (mid & Hmid & ->).
  destruct (lift_chain mid Hmid) as (ys & Hys & Hrel).
  eapply Rle_trans; [apply (u_X_le_chain DY y y' ys Hys)|].
  apply maxstep_related. constructor; [exact Hxy|].
  apply Forall2_app; [exact Hrel|]. constructor; [exact Hxy' | constructor].
Qed.

End Transport.

Section Stability.
Import Np Clustering.

Variables DX DY : array2.
Hypothesis HX : metric_space DX.
Hypothesis HY : metric_space DY.

Lemma distortion_nonneg (A B : array2) C : 0 <= distortion A B C.
Proof. apply Rmax_list_nonneg. Qed.

Lemma distortion_ge (A B : array2) C x y x' y' :
  In (x, y) C -> In (x', y') C ->
  Rabs (entry A x x' - entry B y y') <= distortion A B C.
Proof.
  intros H1 H2. unfold distortion. apply Rmax_list_ge.
  apply in_map_iff. exists ((x, y), (x', y')). split; [reflexivity|].
  apply in_prod; assumption.
Qed.

(** Single linkage does not increase the distortion of a
    correspondence. *)
Lemma distortion_SLHC_le C :
  correspondence (length DX) (length DY) C ->
  distortion (SLHC DX) (SLHC DY) C <= distortion DX DY C.
Proof.
  intros (Hrange & HtotX & HtotY).
  apply Rmax_list_le; [apply distortion_nonneg|].
  intros v Hv. apply in_map_iff in Hv.
  destruct Hv as ([[x y] [x' y']] & <- & Hin). simpl.
  apply in_prod_iff in Hin. destruct Hin as [H1 H2].
  destruct (Hrange _ H1) as [Hx Hy]. destruct (Hrange _ H2) as [Hx' Hy'].
  simpl in Hx, Hy, Hx', Hy'.
  rewrite !entry_SLHC by assumption.
  assert (HYX : u_X DY y y' <= u_X DX x x' + distortion DX DY C).
  { apply (u_X_related DX DY HX (fun a b => In (a, b) C));
      [apply distortion_nonneg | | | exact H1 | exact H2].
    - intros a Ha. destruct (HtotX a Ha) as (b & Hb).
      exists b. split; [exact Hb | apply (Hrange _ Hb)].
    - intros a b a' b' Hab Hab'.
      pose proof (distortion_ge DX DY C a b a' b' Hab Hab') as Hd.
      apply Rabs_bounds in Hd. lra. }
  assert (HXY : u_X DX x x' <= u_X DY y y' + distortion DX DY C).
  { apply (u_X_related DY DX HY (fun b a => In (a, b) C));
      [apply distortion_nonneg | | | exact H1 | exact H2].
    - intros b Hb. destruct (HtotY b Hb) as (a & Ha).
      exists a. split; [exact Ha | apply (Hrange _ Ha)].
    - intros b a b' a' Hab Hab'.
      pose proof (distortion_ge DX DY C a b a' b' Hab Hab') as Hd.
      apply Rabs_bounds in Hd. lra. }
  apply Rabs_le. lra.
Qed.

Lemma d_GH_SLHC_le : d_GH (SLHC DX) (SLHC DY) <= d_GH DX DY.
Proof.
  unfold d_GH. rewrite !length_SLHC.
  apply Rmult_le_compat_l; [lra|].
  apply Rmin_list_map_le. intros C HC.
  apply distortion_SLHC_le, correspondences_sound, HC.
Qed.

End Stability.

(** ** The enumeration of correspondences is complete *)

Section GromovHausdorff.
Import Np Clustering.

Lemma distortion_ext (A B : array2) C C' :
  (forall p, In p C <-> In p C') -> distortion A B C = distortion A B C'.
Proof.
  assert (Hle : forall C1 C2, (forall p, In p C1 -> In p C2) ->
                              distortion A B C1 <= distortion A B C2).
  { intros C1 C2 H. apply Rmax_list_le; [apply Rmax_list_nonneg|].
    intros v Hv. apply in_map_iff in Hv.
    destruct Hv as ([[x y] [x' y']] & <- & Hin).
    apply in_prod_iff in Hin. destruct Hin as [H1 H2]. simpl.
    apply (distortion_ge A B C2 x y x' y'); apply H; assumption. }
  intros H. apply Rle_antisym; apply Hle; intros p; apply H.
Qed.

Lemma pair_eqb_eq p q : pair_eqb p q = true <-> p = q.
Proof.
  destruct p as [a b], q as [c e]. unfold pair_eqb. simpl.
  rewrite andb_true_iff, !Nat.eqb_eq. split.
  - intros [-> ->]. reflexivity.
  - intros H. injection H as -> ->. split; reflexivity.
Qed.

Lemma correspondences_complete N M C :
  correspondence N M C ->
  exists C', In C' (correspondences N M) /\ forall p, In p C <-> In p C'.
Proof.
  intros (Hrange & HtotX & HtotY).
  set (keep := fun p => existsb (pair_eqb p) C).
  set (C' := filter keep (list_prod (seq 0 N) (seq 0 M))).
  assert (Hsame : forall p, In p C <-> In p C').
  { intros p. unfold C'. rewrite filter_In. unfold keep.
    rewrite existsb_exists. split.
    - intros Hp. split.
      + destruct p as [a b]. apply in_prod_iff. rewrite !in_seq.
        destruct (Hrange _ Hp). simpl in *. lia.
      + exists p. split; [exact Hp | apply pair_eqb_eq; reflexivity].
    - intros (_ & q & Hq & Heq). apply pair_eqb_eq in Heq. subst q. exact Hq. }
  exists C'. split; [|exact Hsame].
  unfold correspondences. apply filter_In. split.
  - apply filter_in_sublists.
  - apply is_correspondence_spec. split.
    + intros x Hx. destruct (HtotX x Hx) as (y & Hy).
      exists y. apply Hsame, Hy.
    + intros y Hy. destruct (HtotY y Hy) as (x & Hx).
      exists x. apply Hsame, Hx.
Qed.

(** [d_GH] is half the infimum of the distortions of all
    correspondences, whenever there is one. *)
Lemma d_GH_is_half_inf DX DY :
  (exists C, correspondence (length DX) (length DY) C) ->
  is_inf (fun e => exists C, correspondence (length DX) (length DY) C /\
                             e = / 2 * distortion DX DY C)
         (d_GH DX DY).
Proof.
  intros (C0 & HC0). unfold d_GH. split.
  - intros e (C & HC & ->).
    destruct (correspondences_complete _ _ C HC) as (C' & HC' & Hsame).
    rewrite (distortion_ext DX DY C C' Hsame).
    apply Rmult_le_compat_l; [lra|].
    apply Rmin_list_le, in_map, HC'.
  - intros b Hb.
    destruct (correspondences_complete _ _ C0 HC0) as (C' & HC' & _).
    pose proof (Rmin_list_in (map (distortion DX DY)
                  (correspondences (length DX) (length DY)))) as Hin.
    apply in_map_iff in Hin.
    + destruct Hin as (C & <- & HC). apply Hb.
      exists C. split; [apply correspondences_sound, HC | reflexivity].
    + intros Hnil. apply map_eq_nil in Hnil. rewrite Hnil in HC'. destruct HC'.
Qed.

End GromovHausdorff.

(** ** Main results for notebook 02 *)

Import Np Clustering.

(** C1.  For a finite metric space given by its distance matrix [D],
    [u_X D x x'] is the infimum of the [eps > 0] for which an
    [eps]-chain joins [x] to [x'], and it is an ultrametric: it
    satisfies the strong triangle inequality
    [u_X(x, x'') <= max (u_X(x, x'), u_X(x', x''))], it is non-negative
    and zero exactly when [x = x'], and it is symmetric. *)
Theorem slhc_metric_is_ultrametric (D : array2) :
  metric_space D ->
  forall x x' x'' : nat,
    (x < length D)%nat -> (x' < length D)%nat -> (x'' < length D)%nat ->
    is_inf (chain_scales D x x') (u_X D x x') /\
    u_X D x x'' <= Rmax (u_X D x x') (u_X D x' x'') /\
    0 <= u_X D x x' /\
    (u_X D x x' = 0 <-> x = x') /\
    u_X D x x' = u_X D x' x.
Proof.
  intros HD x x' x'' Hx Hx' Hx''. repeat split.
  - apply (u_X_is_inf D HD x x' Hx Hx').
  - apply (u_X_is_inf D HD x x' Hx Hx').
  - apply (u_X_strong_triangle D HD); assumption.
  - apply (u_X_nonneg D HD).
  - apply (u_X_zero_iff D HD); assumption.
  - apply (u_X_zero_iff D HD); assumption.
  - apply (u_X_sym D HD).
Qed.

Lemma slhc_metric_is_ultrametric_witness :
  metric_space D_graph /\
  is_inf (chain_scales D_graph 1 2) (u_X D_graph 1 2) /\
  u_X D_graph 1 3 <= Rmax (u_X D_graph 1 2) (u_X D_graph 2 3) /\
  0 <= u_X D_graph 1 2 /\
  (u_X D_graph 1 2 = 0 <-> 1%nat = 2%nat) /\
  u_X D_graph 1 2 = u_X D_graph 2 1.
Proof.
  split; [exact D_graph_metric|].
  apply (slhc_metric_is_ultrametric D_graph D_graph_metric 1 2 3); simpl; lia.
Defined.

(** C4.  The matrix [pairwise_distances X] of a point cloud of [N]
    points is [N] by [N], symmetric and zero on the diagonal, and so is
    the hand-written 4 by 4 matrix passed to [squareform] and
    [linkage]. *)
Theorem distance_matrices_symmetric :
  (forall X : array2, distance_matrix (pairwise_distances X) (length X)) /\
  distance_matrix D_graph 4.
Proof.
  split; [exact pairwise_distances_ok | exact D_graph_ok].
Qed.

(** C2.  For finite metric spaces [(X, d_X)] and [(Y, d_Y)], given by
    their distance matrices, the Gromov-Hausdorff distance between
    their single linkage ultrametric spaces is at most the
    Gromov-Hausdorff distance between the spaces themselves:
    [d_GH ((X, u_X), (Y, u_Y)) <= d_GH ((X, d_X), (Y, d_Y))]. *)
Theorem slhc_gromov_hausdorff_stable (DX DY : array2) :
  metric_space DX -> metric_space DY ->
  d_GH (SLHC DX) (SLHC DY) <= d_GH DX DY.
Proof.
  intros HX HY. apply d_GH_SLHC_le; assumption.
Qed.

Lemma slhc_gromov_hausdorff_stable_witness :
  metric_space D_graph /\ metric_space D_pair /\
  d_GH (SLHC D_graph) (SLHC D_pair) <= d_GH D_graph D_pair.
Proof.
  split; [exact D_graph_metric|]. split; [exact D_pair_metric|].
  apply (slhc_gromov_hausdorff_stable D_graph D_pair
           D_graph_metric D_pair_metric).
Defined.

(** ** Running Python code *)

Section Runs.
Import Py Np.
Context {RS : RandomState}.

Lemma bind_ok {A B : Type} (m : M A) (k : A -> M B) w a w' :
  m w = (Ok a, w') -> bind m k w = k a w'.
Proof. intros H. unfold bind. rewrite H. reflexivity. Qed.

Lemma bind_raise {A B : Type} (m : M A) (k : A -> M B) w e w' :
  m w = (Raise e, w') -> bind m k w = (Raise e, w').
Proof. intros H. unfold bind. rewrite H. reflexivity. Qed.

Lemma bind_lift_ok {A B : Type} (r : result A) (k : A -> M B) w a :
  r = Ok a -> bind (lift r) k w = k a w.
Proof. intros ->. reflexivity. Qed.

Lemma same_disk_refl w : same_disk w w.
Proof. repeat split. Qed.

Lemma same_disk_trans w1 w2 w3 :
  same_disk w1 w2 -> same_disk w2 w3 -> same_disk w1 w3.
Proof.
  intros (A1 & B1 & C1) (A2 & B2 & C2).
  repeat split; congruence.
Qed.

Lemma returns_ret {A : Type} (a : A) (P : A -> Prop) :
  P a -> returns (ret a) P.
Proof.
  intros H w. exists a, w. repeat split. exact H.
Qed.

Lemma returns_bind {A B : Type} (m : M A) (k : A -> M B)
      (P : A -> Prop) (Q : B -> Prop) :
  returns m P -> (forall a, P a -> returns (k a) Q) -> returns (bind m k) Q.
Proof.
  intros Hm Hk w. destruct (Hm w) as (a & w1 & E1 & D1 & Pa).
  destruct (Hk a Pa w1) as (b & w2 & E2 & D2 & Qb).
  exists b, w2. rewrite (bind_ok _ _ _ _ _ E1).
  split; [exact E2|]. split; [eapply same_disk_trans; eassumption | exact Qb].
Qed.

Lemma returns_lift {A : Type} (r : result A) (a : A) (P : A -> Prop) :
  r = Ok a -> P a -> returns (lift r) P.
Proof. intros -> H. apply returns_ret. exact H. Qed.

Lemma returns_lift_eq {A : Type} (r : result A) (a : A) :
  r = Ok a -> returns (lift r) (fun x => x = a).
Proof. intros ->. apply returns_ret. reflexivity. Qed.

Lemma returns_weaken {A : Type} (m : M A) (P Q : A -> Prop) :
  returns m P -> (forall a, P a -> Q a) -> returns m Q.
Proof.
  intros H HPQ w. destruct (H w) as (a & w' & E & D & Pa).
  exists a, w'. auto.
Qed.

Lemma returns_draw_normal : returns draw_normal (fun _ => True).
Proof.
  intros w. unfold draw_normal. destruct (next_normal (rng w)) as [x g].
  exists x, (set_rng w g). repeat split.
Qed.

Lemma returns_draw_uniform :
  returns draw_uniform (fun u => 0 <= u < 1).
Proof.
  intros w. unfold draw_uniform.
  pose proof (next_uniform_range (rng w)) as Hu.
  destruct (next_uniform (rng w)) as [x g].
  exists x, (set_rng w g). repeat split; apply Hu.
Qed.

Lemma returns_draw_below n :
  (0 < n)%nat -> returns (draw_below n) (fun k => (k < n)%nat).
Proof.
  intros Hn w. unfold draw_below.
  pose proof (next_below_lt n (rng w) Hn) as Hk.
  destruct (next_below n (rng w)) as [x g].
  exists x, (set_rng w g). repeat split. exact Hk.
Qed.

Lemma returns_draws draw n :
  returns draw (fun _ => True) ->
  returns (draws draw n) (fun l => length l = n).
Proof.
  intros Hd. induction n as [|n IH]; simpl.
  - apply returns_ret. reflexivity.
  - eapply returns_bind; [exact Hd|]. intros x _.
    eapply returns_bind; [exact IH|]. intros xs Hxs.
    apply returns_ret. simpl. congruence.
Qed.

Lemma returns_draws2 draw n m :
  returns draw (fun _ => True) ->
  returns (draws2 draw n m) (fun a => has_shape a n m).
Proof.
  intros Hd. induction n as [|n IH]; simpl.
  - apply returns_ret. split; [reflexivity | constructor].
  - eapply returns_bind; [apply (returns_draws draw m Hd)|]. intros r Hr.
    eapply returns_bind; [exact IH|]. intros rs [Hlen Hrows].
    apply returns_ret. split; [simpl; congruence | constructor; assumption].
Qed.

Lemma size_arg_ok n : (0 <= n)%Z -> size_arg n = Ok (Z.to_nat n).
Proof.
  intros H. unfold size_arg.
  destruct (Z.ltb_spec n 0); [lia | reflexivity].
Qed.

Lemma returns_randn1 n :
  (0 <= n)%Z ->
  returns (random_randn1 n) (fun l => length l = Z.to_nat n).
Proof.
  intros Hn. unfold random_randn1.
  eapply returns_bind; [apply (returns_lift_eq _ _ (size_arg_ok n Hn))|].
  intros k ->. apply returns_draws, returns_draw_normal.
Qed.

Lemma returns_randn2 n m :
  (0 <= n)%Z -> (0 <= m)%Z ->
  returns (random_randn2 n m)
          (fun a => has_shape a (Z.to_nat n) (Z.to_nat m)).
Proof.
  intros Hn Hm. unfold random_randn2.
  eapply returns_bind; [apply (returns_lift_eq _ _ (size_arg_ok n Hn))|].
  intros k ->.
  eapply returns_bind; [apply (returns_lift_eq _ _ (size_arg_ok m Hm))|].
  intros l ->. apply returns_draws2, returns_draw_normal.
Qed.

Lemma returns_random2 n m :
  (0 <= n)%Z -> (0 <= m)%Z ->
  returns (random_random2 n m)
          (fun a => has_shape a (Z.to_nat n) (Z.to_nat m)).
Proof.
  intros Hn Hm. unfold random_random2.
  eapply returns_bind; [apply (returns_lift_eq _ _ (size_arg_ok n Hn))|].
  intros k ->.
  eapply returns_bind; [apply (returns_lift_eq _ _ (size_arg_ok m Hm))|].
  intros l ->. apply returns_draws2.
  eapply returns_weaken; [apply returns_draw_uniform | trivial].
Qed.

End Runs.

(** ** Shapes of arrays *)

Section Shapes.
Import Py Np.

Lemma has_shape_scale2 c a n m : has_shape a n m -> has_shape (scale2 c a) n m.
Proof.
  intros [Hn Hm]. split; unfold scale2.
  - rewrite length_map. exact Hn.
  - rewrite Forall_map. eapply Forall_impl; [|exact Hm].
    intros row Hrow. unfold scale1. rewrite length_map. exact Hrow.
Qed.

Lemma has_shape_transpose ncols a :
  has_shape (transpose ncols a) ncols (length a).
Proof.
  unfold transpose. split.
  - rewrite length_map, length_seq. reflexivity.
  - rewrite Forall_map, Forall_forall. intros j _.
    unfold column. apply length_map.
Qed.

Lemma length_norm_axis0 ncols a : length (norm_axis0 ncols a) = ncols.
Proof. unfold norm_axis0. rewrite length_map, length_seq. reflexivity. Qed.

Lemma has_shape_div_rows a v n m :
  has_shape a n m -> length v = m -> has_shape (div_rows a v) n m.
Proof.
  intros [Hn Hm] Hv. split; unfold div_rows.
  - rewrite length_map. exact Hn.
  - rewrite Forall_map. eapply Forall_impl; [|exact Hm].
    intros row Hrow. simpl in *. rewrite length_map, length_combine. lia.
Qed.

Lemma add1_same_length a b :
  length a = length b ->
  exists c, add1 a b = Ok c /\ length c = length a.
Proof.
  intros H. unfold add1. rewrite (proj2 (Nat.eqb_eq _ _) H).
  eexists. split; [reflexivity|].
  rewrite length_map, length_combine. lia.
Qed.

Lemma add_rows_same_shape a : forall b n m,
  has_shape a n m -> has_shape b n m ->
  exists c, add_rows a b = Ok c /\ has_shape c n m.
Proof.
  induction a as [|r a IH]; intros b n m [Han Ham] [Hbn Hbm].
  - exists []. split; [reflexivity|]. split; [exact Han | constructor].
  - destruct b as [|s b]; [simpl in *; lia|].
    inversion Ham as [|? ? Hr Ham']; subst.
    inversion Hbm as [|? ? Hs Hbm']; subst.
    destruct (add1_same_length r s) as (rs & Ers & Hrs); [congruence|].
    destruct (IH b (length a) (length r)) as (c & Ec & Hc1 & Hc2).
    + split; [reflexivity | exact Ham'].
    + split; [simpl in *; lia | exact Hbm'].
    + exists (rs :: c). simpl. rewrite Ers, Ec.
      split; [reflexivity|]. split; [simpl; lia | constructor; assumption].
Qed.

Lemma add2_same_shape a b n m :
  has_shape a n m -> has_shape b n m ->
  exists c, add2 a b = Ok c /\ has_shape c n m.
Proof.
  intros Ha Hb. unfold add2.
  assert (E : length a = length b) by (destruct Ha, Hb; congruence).
  rewrite (proj2 (Nat.eqb_eq _ _) E).
  apply add_rows_same_shape; assumption.
Qed.

Lemma has_shape_repeat {A : Type} (r : list A) n :
  has_shape (repeat r n) n (length r).
Proof.
  split; [apply repeat_length|].
  apply Forall_forall. intros x Hx. apply repeat_spec in Hx. congruence.
Qed.

(** Adding a row vector of the right length to every row. *)
Lemma add2_1_shape a v n m :
  has_shape a n m -> length v = m ->
  exists c, add2_1 a v = Ok c /\ has_shape c n m.
Proof.
  intros Ha Hv. unfold add2_1, add2.
  destruct (Nat.eqb _ _) eqn:E.
  - apply Nat.eqb_eq in E. apply add_rows_same_shape; [exact Ha|].
    destruct Ha as [Hn _]. simpl in E. split; [simpl; lia|].
    constructor; [exact Hv | constructor].
  - apply Nat.eqb_neq in E. simpl in E.
    assert (Hrep : exists c, add_rows a (repeat v (length a)) = Ok c /\
                             has_shape c n m).
    { apply add_rows_same_shape; [exact Ha|].
      destruct Ha as [Hn _]. rewrite <- Hn, <- Hv. apply has_shape_repeat. }
    destruct a as [|r [|r' a]]; [exact Hrep | simpl in E; lia | exact Hrep].
Qed.

Lemma ones_ok n : (0 <= n)%Z -> ones n = Ok (repeat 1 (Z.to_nat n)).
Proof. intros H. unfold ones. rewrite size_arg_ok by exact H. reflexivity. Qed.

Lemma zeros_ok n : (0 <= n)%Z -> zeros n = Ok (repeat 0 (Z.to_nat n)).
Proof. intros H. unfold zeros. rewrite size_arg_ok by exact H. reflexivity. Qed.

End Shapes.

(** ** The point cloud generators *)

Section PointClouds.
Import Py Np Vectorizing.
Context {RS : RandomState}.

Lemma returns_sample_spherical npoints scale ndim :
  (0 <= npoints)%Z -> (0 <= ndim)%Z ->
  returns (sample_spherical npoints scale ndim)
          (fun a => has_shape a (Z.to_nat npoints) (Z.to_nat ndim)).
Proof.
  intros Hn Hd. unfold sample_spherical.
  eapply returns_bind; [apply (returns_randn2 ndim npoints Hd Hn)|].
  intros vec Hvec. apply returns_ret.
  apply has_shape_scale2.
  assert (Hdiv : has_shape (div_rows vec (norm_axis0 (Z.to_nat npoints) vec))
                           (Z.to_nat ndim) (Z.to_nat npoints))
    by (apply has_shape_div_rows; [exact Hvec | apply length_norm_axis0]).
  destruct Hdiv as [Hlen _]. rewrite <- Hlen.
  apply has_shape_transpose.
Qed.

Lemma returns_noisy_sphere npoints scale noiseLevel offset ndim :
  (0 <= npoints)%Z -> (0 <= ndim)%Z ->
  returns (noisy_sphere npoints scale noiseLevel offset ndim)
          (fun a => has_shape a (Z.to_nat npoints) (Z.to_nat ndim)).
Proof.
  intros Hn Hd. unfold noisy_sphere.
  eapply returns_bind; [apply (returns_sample_spherical _ scale _ Hn Hd)|].
  intros sphere Hsphere.
  eapply returns_bind; [apply (returns_random2 _ _ Hn Hd)|].
  intros rnd Hrnd.
  destruct (add2_same_shape sphere (scale2 (scale * noiseLevel) rnd) _ _
              Hsphere (has_shape_scale2 _ _ _ _ Hrnd)) as (sum & Esum & Hsum).
  eapply returns_bind; [apply (returns_lift_eq _ _ Esum)|].
  intros sum' ->.
  eapply returns_bind; [apply (returns_lift_eq _ _ (ones_ok ndim Hd))|].
  intros one ->.
  destruct (add2_1_shape sum (scale1 offset (repeat 1 (Z.to_nat ndim))) _ _ Hsum)
    as (data & Ed & Hdata);
    [unfold scale1; rewrite length_map; apply repeat_length|].
  eapply returns_bind; [apply (returns_lift_eq _ _ Ed)|].
  intros data' ->. apply returns_ret. exact Hdata.
Qed.

(** [noise] draws two coordinates for each point, whatever [ndim]. *)
Lemma returns_noise N scale ndim :
  (0 <= N)%Z ->
  returns (noise N scale ndim) (fun a => has_shape a (Z.to_nat N) 2).
Proof.
  intros HN. unfold noise.
  eapply returns_bind; [apply (returns_random2 N 2 HN); lia|].
  intros rnd Hrnd. apply returns_ret. apply has_shape_scale2. exact Hrnd.
Qed.

End PointClouds.

(** ** The synthetic data set *)

Section Dataset.
Import Py Np Vectorizing.
Context {RS : RandomState}.

Lemma returns_produced {A : Type} (m : M A) (P : A -> Prop) :
  returns m P -> returns m (fun a => P a /\ produced m a).
Proof.
  intros H w. destruct (H w) as (a & w' & E & D & Pa).
  exists a, w'. repeat split; try assumption; try apply D.
  exists w, w'. exact E.
Qed.

Lemma returns_comprehension {A B : Type} (l : list A) (f : A -> M B)
      (P : B -> Prop) :
  (forall a, returns (f a) P) ->
  returns (comprehension l f)
          (fun bs => length bs = length l /\ Forall P bs).
Proof.
  intros Hf. induction l as [|a l IH]; simpl.
  - apply returns_ret. split; [reflexivity | constructor].
  - eapply returns_bind; [apply Hf|]. intros b Pb.
    eapply returns_bind; [exact IH|]. intros bs [Hlen Hall].
    apply returns_ret. split; [simpl; congruence | constructor; assumption].
Qed.

Lemma length_range n : length (range n) = Z.to_nat n.
Proof.
  unfold range, range2. rewrite length_map, length_seq. f_equal. lia.
Qed.

Lemma length_range2 a b : length (range2 a b) = Z.to_nat (b - a).
Proof. unfold range2. rewrite length_map, length_seq. reflexivity. Qed.

(** [int(a / b)] is the integer quotient for a non-negative [a] and
    a positive [b]. *)
Lemma int_quotient a b :
  (0 <= a)%Z -> (0 < b)%Z -> int (IZR a / IZR b) = (a / b)%Z.
Proof.
  intros Ha Hb. unfold int.
  assert (Hbr : 0 < IZR b) by (apply IZR_lt; exact Hb).
  assert (Hq : 0 <= IZR a / IZR b).
  { apply Rmult_le_pos; [apply IZR_le; exact Ha|].
    apply Rlt_le, Rinv_0_lt_compat, Hbr. }
  destruct (Rle_dec 0 (IZR a / IZR b)) as [_|Hn]; [|contradiction].
  apply Zfloor_eq.
  pose proof (Z.mul_div_le a b Hb) as Hlo.
  pose proof (Z.mul_succ_div_gt a b Hb) as Hhi.
  apply IZR_le in Hlo. apply IZR_lt in Hhi.
  rewrite mult_IZR in Hlo. rewrite mult_IZR, succ_IZR in Hhi.
  split.
  - apply Rmult_le_reg_r with (IZR b); [exact Hbr|].
    unfold Rdiv. rewrite Rmult_assoc, Rinv_l by lra. lra.
  - apply Rmult_lt_reg_r with (IZR b); [exact Hbr|].
    unfold Rdiv. rewrite Rmult_assoc, Rinv_l by lra. lra.
Qed.

Lemma concatenate2_same_columns a b n n' m :
  has_shape a n m -> has_shape b n' m ->
  concatenate2 a b = Ok (a ++ b) /\ has_shape (a ++ b) (n + n') m.
Proof.
  intros [Han Ham] [Hbn Hbm]. split.
  - unfold concatenate2. destruct a as [|r a]; [reflexivity|].
    destruct b as [|s b]; [reflexivity|].
    inversion Ham; inversion Hbm; subst.
    replace (length r =? length s)%nat with true; [reflexivity|].
    symmetry. apply Nat.eqb_eq. congruence.
  - split; [rewrite length_app; congruence|].
    apply Forall_app. split; assumption.
Qed.

Lemma nth_assign_from (l : list R) (k : Z) (v : R) i :
  (0 <= k <= Z.of_nat (length l))%Z -> (i < length l)%nat ->
  nth i (assign_from l k v) 0 =
  if (Z.to_nat k <=? i)%nat then v else nth i l 0.
Proof.
  intros Hk Hi. unfold assign_from, slice_start.
  destruct (Z.ltb_spec k 0) as [|_]; [lia|].
  rewrite Z.min_l by lia.
  destruct (Nat.leb_spec (Z.to_nat k) i) as [Hle|Hlt].
  - rewrite app_nth2 by (rewrite length_firstn; lia).
    rewrite length_firstn, Nat.min_l by lia.
    apply nth_repeat_lt. lia.
  - rewrite app_nth1 by (rewrite length_firstn; lia).
    rewrite nth_firstn.
    destruct (Nat.ltb_spec i (Z.to_nat k)); [reflexivity | lia].
Qed.

Lemma length_assign_from {A : Type} (l : list A) (k : Z) (v : A) :
  length (assign_from l k v) = length l.
Proof.
  unfold assign_from. rewrite length_app, length_firstn, repeat_length.
  lia.
Qed.

(** The data set, for any parameters that make sense: a
    non-negative number of samples and a share of circle points
    between none and all. *)
Lemma dataset_cell_spec total_samples npoints cnl snr ns cs :
  (0 <= total_samples)%Z ->
  (0 <= int (snr * IZR npoints) <= npoints)%Z ->
  let spc := Z.to_nat (total_samples / 2) in
  returns (dataset_cell total_samples npoints cnl snr ns cs)
          (fun out =>
             let datas := fst out in
             let labels := snd out in
             length datas = (2 * spc)%nat /\
             Forall (fun d => has_shape d (Z.to_nat npoints) 2) datas /\
             (forall i, (i < spc)%nat ->
                        pure_noise npoints ns (nth i datas [])) /\
             (forall i, (spc <= i < 2 * spc)%nat ->
                        noise_with_circle npoints cnl snr ns cs (nth i datas [])) /\
             length labels = Z.to_nat total_samples /\
             (forall i, (i < Z.to_nat total_samples)%nat ->
                        nth i labels 0 = if (spc <=? i)%nat then 1 else 0)).
Proof.
  intros Htot Hnc spc. unfold dataset_cell.
  replace (IZR total_samples / 2) with (IZR total_samples / IZR 2) by reflexivity.
  rewrite (int_quotient total_samples 2) by lia.
  set (nc := int (snr * IZR npoints)) in *.
  eapply returns_bind.
  { apply (returns_comprehension (range (total_samples / 2))
             (fun _ => noise npoints ns 2)
             (fun d => has_shape d (Z.to_nat npoints) 2 /\ pure_noise npoints ns d)).
    intros _. apply returns_produced, returns_noise. lia. }
  intros just_noise [Hlen1 Hall1]. rewrite length_range in Hlen1.
  eapply returns_bind.
  { apply (returns_comprehension (range (total_samples / 2)) _
             (fun d => has_shape d (Z.to_nat npoints) 2 /\
                       noise_with_circle npoints cnl snr ns cs d)).
    intros _.
    eapply returns_bind; [apply returns_draw_uniform|]. intros u Hu.
    eapply returns_bind;
      [apply returns_produced,
         (returns_noisy_sphere nc cs cnl ((0.2 * u + 0.4) * ns) 2); lia|].
    intros circle [Hcircle Pcircle].
    eapply returns_bind;
      [apply returns_produced, (returns_noise (npoints - nc) ns 2); lia|].
    intros rest [Hrest Prest].
    destruct (concatenate2_same_columns circle rest _ _ _ Hcircle Hrest)
      as [Ecat Hcat].
    eapply returns_weaken; [apply (returns_lift_eq _ _ Ecat)|].
    intros d ->. split.
    - replace (Z.to_nat npoints)
        with (Z.to_nat nc + Z.to_nat (npoints - nc))%nat by lia.
      exact Hcat.
    - exists u, circle, rest. fold nc.
      destruct Hcircle, Hrest. repeat split; assumption. }
  intros with_circle [Hlen2 Hall2]. rewrite length_range in Hlen2.
  eapply returns_bind; [apply (returns_lift_eq _ _ (zeros_ok _ Htot))|].
  intros labels ->. apply returns_ret. simpl fst. simpl snd.
  unfold spc in *. clear spc.
  assert (Hspc : (Z.to_nat (total_samples / 2) <= Z.to_nat total_samples)%nat).
  { apply Z2Nat.inj_le; try lia.
    - apply Z.div_pos; lia.
    - apply Z.div_le_upper_bound; lia. }
  unfold array2, array1 in *.
  split; [rewrite length_app; simpl; lia|].
  split.
  { apply Forall_app. split; simpl.
    - eapply Forall_impl; [|exact Hall1]. intros d Hd. apply Hd.
    - eapply Forall_impl; [|exact Hall2]. intros d Hd. apply Hd. }
  split.
  { intros i Hi. simpl. rewrite app_nth1 by lia.
    rewrite Forall_forall in Hall1. apply Hall1, nth_In. lia. }
  split.
  { intros i Hi. simpl. rewrite app_nth2 by lia.
    rewrite Forall_forall in Hall2. apply Hall2, nth_In. lia. }
  split; [rewrite length_assign_from, repeat_length; reflexivity|].
  intros i Hi. rewrite nth_assign_from.
  - destruct (_ <=? i)%nat; [reflexivity|].
    apply nth_repeat_lt. exact Hi.
  - rewrite repeat_length. split; [apply Z.div_pos; lia|].
    rewrite Z2Nat.id by lia. apply Z.div_le_upper_bound; lia.
  - rewrite repeat_length. exact Hi.
Qed.

End Dataset.

(** ** Main results for notebook 06: generators and data set *)

Import Py Vectorizing.

(** The half of C3 that holds: [noisy_sphere] returns an array of
    shape [(npoints, ndim)]. *)
Lemma noisy_sphere_shape (RS : RandomState) (w : world)
      (npoints : Z) (scale noiseLevel offset : R) (ndim : Z) :
  (1 <= npoints)%Z -> (1 <= ndim)%Z ->
  exists a w',
    noisy_sphere npoints scale noiseLevel offset ndim w = (Ok a, w') /\
    has_shape a (Z.to_nat npoints) (Z.to_nat ndim).
Proof.
  intros Hn Hd.
  destruct (returns_noisy_sphere npoints scale noiseLevel offset ndim
              ltac:(lia) ltac:(lia) w) as (a & w' & E & _ & Ha).
  exists a, w'. split; assumption.
Qed.

(** C3.  [noise(N, scale, ndim)] does not return an array of shape
    [(N, ndim)]: for [N = 5] and [ndim = 3] it returns, from every
    state, an array of shape [(5, 2)], which is not of shape
    [(5, 3)]. *)
Theorem noise_ignores_ndim (RS : RandomState) (w : world) :
  exists a w',
    noise 5 1 3 w = (Ok a, w') /\ has_shape a 5 2 /\ ~ has_shape a 5 3.
Proof.
  destruct (returns_noise 5 1 3 ltac:(lia) w) as (a & w' & E & _ & Ha).
  exists a, w'. split; [exact E|]. split; [exact Ha|].
  intros [_ H3]. destruct Ha as [Hlen H2].
  destruct a as [|row a]; [discriminate|].
  inversion H2; inversion H3; subst. lia.
Qed.

Lemma samples_per_class_value : samples_per_class = 100%Z.
Proof.
  unfold samples_per_class, total_samples.
  change (IZR 200 / 2) with (IZR 200 / IZR 2).
  rewrite int_quotient by lia. reflexivity.
Qed.

Lemma circle_points_value : int (snr * IZR npoints) = 100%Z.
Proof.
  unfold int, snr, npoints.
  destruct (Rle_dec 0 (0.25 * 400)) as [_|Hn]; [|exfalso; apply Hn; lra].
  apply Zfloor_eq. lra.
Qed.

(** C10.  The data set of the notebook: [datas] holds [total_samples]
    point clouds of [npoints] points each; the first
    [samples_per_class] are pure noise, the last [samples_per_class]
    are [int(snr*npoints)] points of a noisy circle followed by
    [npoints - int(snr*npoints)] points of noise; and [labels[i]] is
    [1] exactly when [i >= samples_per_class], and [0] otherwise. *)
Theorem dataset_invariant (RS : RandomState) (w : world) :
  exists datas labels w',
    dataset w = (Ok (datas, labels), w') /\
    length datas = Z.to_nat total_samples /\
    (forall d, In d datas -> has_shape d (Z.to_nat npoints) 2) /\
    (forall i, (i < Z.to_nat samples_per_class)%nat ->
               pure_noise npoints noise_scale (nth i datas [])) /\
    (forall i, (Z.to_nat total_samples - Z.to_nat samples_per_class <= i
                < Z.to_nat total_samples)%nat ->
               noise_with_circle npoints circle_noise_level snr noise_scale
                                 circle_scale (nth i datas [])) /\
    length labels = Z.to_nat total_samples /\
    (forall i, (i < Z.to_nat total_samples)%nat ->
               (nth i labels 0 = 1 <-> (Z.to_nat samples_per_class <= i)%nat) /\
               (nth i labels 0 = 0 <-> (i < Z.to_nat samples_per_class)%nat)).
Proof.
  pose proof circle_points_value as Hnc.
  destruct (dataset_cell_spec total_samples npoints circle_noise_level snr
              noise_scale circle_scale) with (w := w)
    as ([datas labels] & w' & E & _ & Hlen & Hshape & Hnoise & Hcircle & Hlab & Hval).
  { unfold total_samples. lia. }
  { rewrite Hnc. unfold npoints. lia. }
  exists datas, labels, w'. rewrite samples_per_class_value.
  unfold total_samples in *. simpl fst in *. simpl snd in *.
  change (Z.to_nat (200 / 2)) with 100%nat in *.
  change (Z.to_nat 200) with 200%nat in *.
  change (Z.to_nat 100) with 100%nat in *.
  split; [exact E|]. split; [exact Hlen|].
  split; [apply Forall_forall; exact Hshape|].
  split; [exact Hnoise|].
  split; [intros i Hi; apply Hcircle; lia|].
  split; [exact Hlab|].
  intros i Hi. rewrite (Hval i Hi).
  destruct (Nat.leb_spec 100 i); split; split; intros; try lia; try lra.
Qed.

(** ** Loops and the record of calls *)

Section Loops.
Import Py Np.
Context {RS : RandomState}.

Lemma add_calls_nil w : add_calls w [] = w.
Proof. destruct w. unfold add_calls. simpl. rewrite app_nil_r. reflexivity. Qed.

Lemma add_calls_app w cs cs' :
  add_calls (add_calls w cs) cs' = add_calls w (cs ++ cs').
Proof. unfold add_calls. simpl. rewrite app_assoc. reflexivity. Qed.

Lemma record_call_add w c o : record_call w c o = add_calls w [(c, o)].
Proof. reflexivity. Qed.

Lemma quiet_ret {A : Type} (a : A) : quiet (ret a).
Proof. intros w. apply same_disk_refl. Qed.

Lemma quiet_raise {A : Type} e : quiet (raise e : M A).
Proof. intros w. apply same_disk_refl. Qed.

Lemma quiet_lift {A : Type} (r : result A) : quiet (lift r).
Proof. intros w. apply same_disk_refl. Qed.

Lemma quiet_bind {A B : Type} (m : M A) (k : A -> M B) :
  quiet m -> (forall a, quiet (k a)) -> quiet (bind m k).
Proof.
  intros Hm Hk w. unfold bind. specialize (Hm w).
  destruct (m w) as [[a|e] w1]; simpl in *; [|exact Hm].
  eapply same_disk_trans; [exact Hm | apply Hk].
Qed.

Lemma quiet_for_each {A S : Type} (l : list A) (body : A -> S -> M S) :
  (forall a s, quiet (body a s)) -> forall s, quiet (for_each l body s).
Proof.
  intros Hb. induction l as [|a l IH]; intros s; simpl.
  - apply quiet_ret.
  - apply quiet_bind; [apply Hb | exact IH].
Qed.

Lemma quiet_draw_normal : quiet draw_normal.
Proof.
  intros w. unfold draw_normal. destruct (next_normal (rng w)).
  repeat split.
Qed.

Lemma quiet_draw_below n : quiet (draw_below n).
Proof.
  intros w. unfold draw_below. destruct (next_below n (rng w)).
  repeat split.
Qed.

Lemma quiet_draws draw n : quiet draw -> quiet (draws draw n).
Proof.
  intros Hd. induction n as [|n IH]; simpl; [apply quiet_ret|].
  apply quiet_bind; [exact Hd|]. intros x.
  apply quiet_bind; [exact IH|]. intros xs. apply quiet_ret.
Qed.

Lemma quiet_randn1 n : quiet (random_randn1 n).
Proof.
  unfold random_randn1. apply quiet_bind; [apply quiet_lift|].
  intros k. apply quiet_draws, quiet_draw_normal.
Qed.

Lemma quiet_randint n : quiet (random_randint n).
Proof.
  unfold random_randint. destruct (n <=? 0)%Z; [apply quiet_raise|].
  apply quiet_bind; [apply quiet_draw_below|]. intros k. apply quiet_ret.
Qed.

(** A loop whose body returns without touching the state. *)
Lemma for_each_pure {A S : Type} (l : list A) (body : A -> S -> M S)
      (f : A -> S -> S) w :
  (forall a s, In a l -> body a s w = (Ok (f a s), w)) ->
  forall s, for_each l body s w = (Ok (fold_left (fun s a => f a s) l s), w).
Proof.
  induction l as [|a l IH]; intros Hb s; simpl; [reflexivity|].
  rewrite (bind_ok _ _ _ _ _ (Hb a s (or_introl eq_refl))).
  apply IH. intros a' s' Hin. apply Hb. right. exact Hin.
Qed.

Lemma fold_left_snoc {A B : Type} (g : A -> B) (l : list A) (acc : list B) :
  fold_left (fun s a => s ++ [g a]) l acc = acc ++ map g l.
Proof.
  revert acc. induction l as [|a l IH]; intros acc; simpl.
  - rewrite app_nil_r. reflexivity.
  - rewrite IH, <- app_assoc. reflexivity.
Qed.

End Loops.

(** ** The barcode loader *)

Section Loader.
Import Py Np Vectorizing.
Context {RS : RandomState}.

Lemma barcodes_loop l : forall acc w,
  for_each l (fun j barcodes =>
                bind (genfromtxt (fileName j))
                     (fun file => ret (barcodes ++ [file]))) acc w =
  (match snd (read_all (csv_files w) l) with
   | Ok files => Ok (acc ++ files)
   | Raise e => Raise e
   end,
   add_calls w (fst (read_all (csv_files w) l))).
Proof.
  induction l as [|j l IH]; intros acc w; simpl.
  - rewrite app_nil_r, add_calls_nil. reflexivity.
  - destruct (csv_files w (fileName j)) as [a|e] eqn:E.
    + assert (E1 : bind (genfromtxt (fileName j))
                        (fun file => ret (acc ++ [file])) w =
                   (Ok (acc ++ [a]),
                    record_call w (np_genfromtxt_call (fileName j)) Returned)).
      { erewrite bind_ok; [reflexivity|]. unfold genfromtxt. rewrite E. reflexivity. }
      rewrite (bind_ok _ _ _ _ _ E1), IH.
      rewrite record_call_add. simpl csv_files.
      destruct (read_all (csv_files w) l) as [cs r]. simpl.
      rewrite add_calls_app. simpl.
      destruct r; [rewrite <- app_assoc|]; reflexivity.
    + assert (E1 : bind (genfromtxt (fileName j))
                        (fun file => ret (acc ++ [file])) w =
                   (Raise e,
                    record_call w (np_genfromtxt_call (fileName j)) (Raised e))).
      { erewrite bind_raise; [reflexivity|]. unfold genfromtxt. rewrite E. reflexivity. }
      rewrite (bind_raise _ _ _ _ _ E1). reflexivity.
Qed.

Lemma barcodes_run w :
  barcodes w =
  (snd (read_all (csv_files w) (range 6)),
   add_calls w (fst (read_all (csv_files w) (range 6)))).
Proof.
  unfold barcodes. rewrite barcodes_loop.
  destruct (snd (read_all (csv_files w) (range 6))); reflexivity.
Qed.

(** When every file is there, all of them are read, each once. *)
Lemma read_all_ok disk (files : Z -> ndarray) l :
  (forall j, In j l -> disk (fileName j) = Ok (files j)) ->
  read_all disk l =
  (map (fun j => (np_genfromtxt_call (fileName j), Returned)) l,
   Ok (map files l)).
Proof.
  induction l as [|j l IH]; intros H; simpl; [reflexivity|].
  rewrite (H j (or_introl eq_refl)), IH; [reflexivity|].
  intros j' Hj'. apply H. right. exact Hj'.
Qed.

(** The calls made are the calls for an initial part of the list, and
    a call that raised ends the reading with its exception. *)
Lemma read_all_log disk l :
  (exists rest,
      map (fun j => np_genfromtxt_call (fileName j)) l =
      map fst (fst (read_all disk l)) ++ rest) /\
  (forall c e, In (c, Raised e) (fst (read_all disk l)) ->
               snd (read_all disk l) = Raise e).
Proof.
  induction l as [|j l [(rest & Hrest) IH]]; simpl.
  - split; [exists []; reflexivity | intros c e []].
  - destruct (disk (fileName j)) as [a|e0].
    + destruct (read_all disk l) as [cs r]. simpl in *. split.
      * exists rest. rewrite Hrest. reflexivity.
      * intros c e [H|H]; [discriminate|].
        rewrite (IH c e H). reflexivity.
    + simpl. split.
      * exists (map (fun j => np_genfromtxt_call (fileName j)) l). reflexivity.
      * intros c e [H|[]]. injection H as _ ->. reflexivity.
Qed.

Lemma fileNames :
  map fileName (range 6) =
  [ "data/50biased_0.csv"; "data/50biased_1.csv"; "data/50biased_2.csv";
    "data/50biased_3.csv"; "data/50biased_4.csv"; "data/50biased_5.csv" ]%string.
Proof. reflexivity. Qed.

Lemma fileNames_NoDup :
  NoDup (map (fun j => np_genfromtxt_call (fileName j)) (range 6)).
Proof.
  rewrite <- (map_map fileName np_genfromtxt_call), fileNames.
  repeat constructor; simpl; intuition discriminate.
Qed.

End Loader.

Section LoaderRows.
Import Py Np Vectorizing.
Context {RS : RandomState}.

Lemma in_range n k : In k (range n) <-> (0 <= k < n)%Z.
Proof.
  unfold range, range2. rewrite in_map_iff. split.
  - intros (i & <- & Hi). apply in_seq in Hi. lia.
  - intros Hk. exists (Z.to_nat k). split; [lia|]. apply in_seq. lia.
Qed.

Lemma in_range2 a b k : In k (range2 a b) <-> (a <= k < b)%Z.
Proof.
  unfold range2. rewrite in_map_iff. split.
  - intros (i & <- & Hi). apply in_seq in Hi. lia.
  - intros Hk. exists (Z.to_nat (k - a)). split; [lia|]. apply in_seq. lia.
Qed.

Lemma nth_error_map_range {A : Type} (g : Z -> A) n k :
  (0 <= k < n)%Z -> nth_error (map g (range n)) (Z.to_nat k) = Some (g k).
Proof.
  intros Hk. unfold range, range2. rewrite map_map.
  rewrite nth_error_map, nth_error_seq.
  destruct (Nat.ltb_spec (Z.to_nat k) (Z.to_nat (n - 0))) as [_|H]; [|lia].
  simpl. f_equal. f_equal. lia.
Qed.

Lemma barcodes_of_rows_ok (files : Z -> list (list R)) rows w :
  (forall j k, In j rows -> (0 <= k < 6)%Z ->
               (Z.to_nat j < length (files k))%nat) ->
  barcodes_of_rows (map (fun k => Arr2 (files k)) (range 6)) rows w =
  (Ok (map (fun j => map (bar_of files j) (range 6)) rows), w).
Proof.
  intros Hrows. unfold barcodes_of_rows.
  rewrite (for_each_pure rows _
             (fun j out => out ++ [map (bar_of files j) (range 6)])).
  - rewrite fold_left_snoc. reflexivity.
  - intros j out Hj.
    erewrite bind_ok; [reflexivity|].
    rewrite (for_each_pure (range 6) _
               (fun k barcode => barcode ++ [bar_of files j k])).
    + rewrite fold_left_snoc. reflexivity.
    + intros k barcode Hk. apply in_range in Hk.
      erewrite bind_lift_ok;
        [|unfold getitem; rewrite nth_error_map_range by exact Hk; reflexivity].
      erewrite bind_lift_ok; [reflexivity|].
      unfold row_slice.
      rewrite (nth_error_nth' (files k) [] (Hrows j k Hj Hk)). reflexivity.
Qed.

Lemma bar_of_pair files j k :
  (3 <= length (nth (Z.to_nat j) (files k) []))%nat ->
  bar_of files j k = [entry (files k) (Z.to_nat j) 1;
                      entry (files k) (Z.to_nat j) 2].
Proof.
  unfold bar_of, entry.
  destruct (nth (Z.to_nat j) (files k) []) as [|a [|b [|c t]]]; simpl;
    try lia. reflexivity.
Qed.

Lemma nth_map_range2 {A : Type} (F : Z -> A) a b i d :
  (i < Z.to_nat (b - a))%nat ->
  nth i (map F (range2 a b)) d = F (a + Z.of_nat i)%Z.
Proof.
  intros Hi. unfold range2. rewrite map_map.
  rewrite (nth_indep _ d (F (a + Z.of_nat 0)%Z))
    by (rewrite length_map, length_seq; exact Hi).
  rewrite (map_nth (fun i => F (a + Z.of_nat i)%Z)).
  rewrite seq_nth by exact Hi. reflexivity.
Qed.

(** The run of the loader on a disk that holds the six tables. *)
Lemma load_barcodes_run (files : Z -> list (list R)) w :
  (forall k, (0 <= k < 6)%Z ->
             csv_files w (fileName k) = Ok (Arr2 (files k)) /\
             (431 <= length (files k))%nat) ->
  load_barcodes w =
  (Ok (map (fun j => map (bar_of files j) (range 6)) (range2 1 243),
       map (fun j => map (bar_of files j) (range 6)) (range2 243 431)),
   add_calls w (map (fun j => (np_genfromtxt_call (fileName j), Returned))
                    (range 6))).
Proof.
  intros Hfiles. unfold load_barcodes.
  assert (E : barcodes w =
              (Ok (map (fun k => Arr2 (files k)) (range 6)),
               add_calls w (map (fun j => (np_genfromtxt_call (fileName j), Returned))
                                (range 6)))).
  { rewrite barcodes_run.
    rewrite (read_all_ok _ (fun k => Arr2 (files k))); [reflexivity|].
    intros j Hj. apply in_range in Hj. apply (Hfiles j Hj). }
  rewrite (bind_ok _ _ _ _ _ E).
  erewrite bind_ok;
    [|unfold dem_barcodes; apply barcodes_of_rows_ok;
      intros j k Hj Hk; apply in_range2 in Hj;
      destruct (Hfiles k Hk) as [_ Hlen]; lia].
  erewrite bind_ok;
    [|unfold rep_barcodes; apply barcodes_of_rows_ok;
      intros j k Hj Hk; apply in_range2 in Hj;
      destruct (Hfiles k Hk) as [_ Hlen]; lia].
  reflexivity.
Qed.

End LoaderRows.

(** C5.  On a disk that holds the six tables, each with at least 431
    rows of at least three columns, the loader reads exactly the six
    files [data/50biased_0.csv] to [data/50biased_5.csv], once each and
    in this order, and builds 242 democrat-biased barcodes from rows 1
    to 242 and 188 republican-biased barcodes from rows 243 to 430;
    each barcode is the six pairs (column 1, column 2) of its row in
    the six files, in file order. *)
Theorem load_barcodes_layout (RS : RandomState) (w : world)
        (files : Z -> list (list R)) :
  (forall k, (0 <= k < 6)%Z ->
             csv_files w (fileName k) = Ok (Arr2 (files k)) /\
             (431 <= length (files k))%nat /\
             Forall (fun row => (3 <= length row)%nat) (files k)) ->
  exists dem rep w',
    load_barcodes w = (Ok (dem, rep), w') /\
    calls w' = calls w ++
               map (fun name => (np_genfromtxt_call name, Returned))
                   [ "data/50biased_0.csv"; "data/50biased_1.csv";
                     "data/50biased_2.csv"; "data/50biased_3.csv";
                     "data/50biased_4.csv"; "data/50biased_5.csv" ]%string /\
    length dem = 242%nat /\
    length rep = 188%nat /\
    (forall i, (i < 242)%nat ->
               nth i dem [] =
               map (fun k => [entry (files k) (1 + i) 1;
                              entry (files k) (1 + i) 2]) (range 6)) /\
    (forall i, (i < 188)%nat ->
               nth i rep [] =
               map (fun k => [entry (files k) (243 + i) 1;
                              entry (files k) (243 + i) 2]) (range 6)).
Proof.
  intros Hfiles.
  assert (Hrun := load_barcodes_run files w
                    (fun k Hk => conj (proj1 (Hfiles k Hk))
                                      (proj1 (proj2 (Hfiles k Hk))))).
  assert (Hbar : forall j k, (0 <= j < 431)%Z -> (0 <= k < 6)%Z ->
                 bar_of files j k = [entry (files k) (Z.to_nat j) 1;
                                     entry (files k) (Z.to_nat j) 2]).
  { intros j k Hj Hk. apply bar_of_pair.
    destruct (Hfiles k Hk) as (_ & Hlen & Hcols).
    rewrite Forall_forall in Hcols. apply Hcols, nth_In. lia. }
  eexists _, _, _. split; [exact Hrun|].
  split; [reflexivity|].
  split; [rewrite length_map, length_range2; reflexivity|].
  split; [rewrite length_map, length_range2; reflexivity|].
  split.
  - intros i Hi.
    rewrite nth_map_range2 by (change (Z.to_nat (243 - 1)) with 242%nat; exact Hi).
    apply map_ext_in. intros k Hk. apply in_range in Hk.
    rewrite Hbar by lia. repeat f_equal; lia.
  - intros i Hi.
    rewrite nth_map_range2 by (change (Z.to_nat (431 - 243)) with 188%nat; exact Hi).
    apply map_ext_in. intros k Hk. apply in_range in Hk.
    rewrite Hbar by lia. repeat f_equal; lia.
Qed.

Lemma load_barcodes_layout_witness :
  (forall k, (0 <= k < 6)%Z ->
             csv_files Demo.full_disk (fileName k) = Ok (Arr2 Demo.csv_table) /\
             (431 <= length Demo.csv_table)%nat /\
             Forall (fun row => (3 <= length row)%nat) Demo.csv_table) /\
  exists dem rep w',
    load_barcodes Demo.full_disk = (Ok (dem, rep), w') /\
    calls w' = calls Demo.full_disk ++
               map (fun name => (np_genfromtxt_call name, Returned))
                   [ "data/50biased_0.csv"; "data/50biased_1.csv";
                     "data/50biased_2.csv"; "data/50biased_3.csv";
                     "data/50biased_4.csv"; "data/50biased_5.csv" ]%string /\
    length dem = 242%nat /\
    length rep = 188%nat /\
    (forall i, (i < 242)%nat ->
               nth i dem [] =
               map (fun k => [entry Demo.csv_table (1 + i) 1;
                              entry Demo.csv_table (1 + i) 2]) (range 6)) /\
    (forall i, (i < 188)%nat ->
               nth i rep [] =
               map (fun k => [entry Demo.csv_table (243 + i) 1;
                              entry Demo.csv_table (243 + i) 2]) (range 6)).
Proof.
  assert (H : forall k, (0 <= k < 6)%Z ->
             csv_files Demo.full_disk (fileName k) = Ok (Arr2 Demo.csv_table) /\
             (431 <= length Demo.csv_table)%nat /\
             Forall (fun row => (3 <= length row)%nat) Demo.csv_table).
  { intros k _. split; [reflexivity|]. unfold Demo.csv_table. split.
    - rewrite repeat_length. lia.
    - apply Forall_forall. intros row Hrow. apply repeat_spec in Hrow.
      subst row. simpl. lia. }
  split; [exact H|].
  exact (load_barcodes_layout Demo.counter Demo.full_disk
           (fun _ => Demo.csv_table) H).
Defined.

(** ** Reading a run backwards *)

Section Inversion.
Import Py Np.
Context {RS : RandomState}.

Lemma bind_inv_ok {A B : Type} (m : M A) (k : A -> M B) w b w' :
  bind m k w = (Ok b, w') ->
  exists a w1, m w = (Ok a, w1) /\ k a w1 = (Ok b, w').
Proof.
  unfold bind. destruct (m w) as [[a|e] w1]; intros H; [|discriminate].
  exists a, w1. split; [reflexivity | exact H].
Qed.

Lemma lift_inv_ok {A : Type} (r : result A) w a w' :
  lift r w = (Ok a, w') -> r = Ok a /\ w' = w.
Proof. unfold lift. intros H. injection H as -> ->. split; reflexivity. Qed.

Lemma ret_inv_ok {A : Type} (x : A) w a w' :
  ret x w = (Ok a, w') -> a = x /\ w' = w.
Proof. unfold ret. intros H. injection H as -> ->. split; reflexivity. Qed.

Lemma returns_inv {A : Type} (m : M A) (P : A -> Prop) w a w' :
  returns m P -> m w = (Ok a, w') -> P a /\ same_disk w w'.
Proof.
  intros H E. destruct (H w) as (a0 & w0 & E0 & D & Pa).
  rewrite E in E0. injection E0 as -> ->. split; assumption.
Qed.

Lemma randn1_inv n w l w' :
  random_randn1 n w = (Ok l, w') ->
  (0 <= n)%Z /\ length l = Z.to_nat n /\ same_disk w w'.
Proof.
  intros H. destruct (Z.ltb_spec n 0) as [Hneg|Hpos].
  - unfold random_randn1, size_arg in H.
    destruct (Z.ltb_spec n 0); [discriminate | lia].
  - split; [exact Hpos|]. apply (returns_inv _ _ _ _ _ (returns_randn1 n Hpos) H).
Qed.

Lemma returns_randint n :
  (0 < n)%Z -> returns (random_randint n) (fun c => (0 <= c < n)%Z).
Proof.
  intros Hn. unfold random_randint.
  destruct (Z.leb_spec n 0); [lia|].
  eapply returns_bind; [apply (returns_draw_below (Z.to_nat n)); lia|].
  intros k Hk. apply returns_ret. cbv beta in Hk. lia.
Qed.

Lemma randint_inv n w c w' :
  random_randint n w = (Ok c, w') -> (0 <= c < n)%Z /\ same_disk w w'.
Proof.
  intros H. destruct (Z.leb_spec n 0) as [Hneg|Hpos].
  - unfold random_randint in H.
    destruct (Z.leb_spec n 0); [discriminate | lia].
  - apply (returns_inv _ _ _ _ _ (returns_randint n Hpos) H).
Qed.

End Inversion.

Tactic Notation "bind_inv" hyp(H) "as" ident(a) ident(w) ident(E) :=
  apply bind_inv_ok in H; destruct H as (a & w & E & H).

Tactic Notation "lift_inv" hyp(H) "as" ident(a) ident(E) :=
  let w := fresh "w" in
  let Hw := fresh "Hw" in
  apply bind_inv_ok in H; destruct H as (a & w & E & H);
  apply lift_inv_ok in E; destruct E as [E Hw]; subst w.

(** ** Padding with random points *)

Section Padding.
Import Py Np Takens.
Context {RS : RandomState}.

Lemma padded_length n V out :
  padded n V out -> length out = (length V + Z.to_nat n)%nat.
Proof.
  intros (front & back & -> & _ & Hsum). rewrite !length_app. lia.
Qed.

Lemma returns_padrand V n kr :
  (0 < n)%Z -> returns (padrand V n kr) (padded n V).
Proof.
  intros Hn. unfold padrand.
  eapply returns_bind; [apply (returns_randint n Hn)|]. intros cut Hcut.
  cbv beta in Hcut.
  eapply returns_bind; [apply (returns_randn1 cut); lia|]. intros rand1 H1.
  eapply returns_bind; [apply (returns_randn1 (n - cut)); lia|]. intros rand2 H2.
  apply returns_ret.
  exists (map (fun x => x * kr) rand1), (map (fun x => x * kr) rand2).
  split; [reflexivity|]. rewrite !length_map. cbv beta in *. lia.
Qed.

Lemma padrand_inv V n kr w out w' :
  padrand V n kr w = (Ok out, w') ->
  (0 < n)%Z /\ padded n V out /\ same_disk w w'.
Proof.
  intros H.
  assert (Hn : (0 < n)%Z).
  { unfold padrand in H. bind_inv H as cut w1 E. apply randint_inv in E.
    destruct E as [E _]. lia. }
  split; [exact Hn|].
  apply (returns_inv _ _ _ _ _ (returns_padrand V n kr Hn) H).
Qed.

Lemma quiet_padrand V n kr : quiet (padrand V n kr).
Proof.
  unfold padrand. apply quiet_bind; [apply quiet_randint|]. intros cut.
  apply quiet_bind; [apply quiet_randn1|]. intros r1.
  apply quiet_bind; [apply quiet_randn1|]. intros r2. apply quiet_ret.
Qed.

End Padding.

(** ** The loops of [make_gravitational_waves] *)

Section Waves.
Import Py Np Takens.
Context {RS : RandomState}.

Lemma for_each_seq_inv {St : Type} (body : Z -> St -> M St)
    (Inv : nat -> St -> Prop) k : forall a s0 w s w',
  Inv a s0 ->
  (forall i s1 w1 s2 w2, (a <= i < a + k)%nat -> Inv i s1 ->
      body (Z.of_nat i) s1 w1 = (Ok s2, w2) -> Inv (S i) s2) ->
  for_each (map (fun i => (0 + Z.of_nat i)%Z) (seq a k)) body s0 w = (Ok s, w') ->
  Inv (a + k)%nat s.
Proof.
  induction k as [|k IH]; intros a s0 w s w' H0 Hstep Hrun; simpl in Hrun.
  - apply ret_inv_ok in Hrun. destruct Hrun as [-> _].
    rewrite Nat.add_0_r. exact H0.
  - bind_inv Hrun as s1 w1 E.
    replace (a + S k)%nat with (S a + k)%nat by lia.
    apply (IH (S a) s1 w1 s w'); [|intros; eapply Hstep; eauto; lia | exact Hrun].
    apply (Hstep a s0 w s1 w1); [lia | exact H0 | exact E].
Qed.

Lemma for_each_range_inv {St : Type} (n : Z) (body : Z -> St -> M St)
    (Inv : nat -> St -> Prop) s0 w s w' :
  Inv 0%nat s0 ->
  (forall i s1 w1 s2 w2, (i < Z.to_nat n)%nat -> Inv i s1 ->
      body (Z.of_nat i) s1 w1 = (Ok s2, w2) -> Inv (S i) s2) ->
  for_each (range n) body s0 w = (Ok s, w') ->
  Inv (Z.to_nat n) s.
Proof.
  intros H0 Hstep Hrun. unfold range, range2 in Hrun.
  rewrite Z.sub_0_r in Hrun.
  apply (for_each_seq_inv body Inv (Z.to_nat n) 0%nat s0 w s w' H0);
    [|exact Hrun].
  intros i s1 w1 s2 w2 Hi. apply Hstep. lia.
Qed.

Lemma for_each_seq_returns {St : Type} (body : Z -> St -> M St)
    (Inv : nat -> St -> Prop) k : forall a s0,
  Inv a s0 ->
  (forall i s1, (a <= i < a + k)%nat -> Inv i s1 ->
                returns (body (Z.of_nat i) s1) (Inv (S i))) ->
  returns (for_each (map (fun i => (0 + Z.of_nat i)%Z) (seq a k)) body s0)
          (Inv (a + k)%nat).
Proof.
  induction k as [|k IH]; intros a s0 H0 Hstep; simpl.
  - apply returns_ret. rewrite Nat.add_0_r. exact H0.
  - eapply returns_bind; [apply (Hstep a s0); [lia | exact H0]|].
    intros s1 H1. replace (a + S k)%nat with (S a + k)%nat by lia.
    apply IH; [exact H1|]. intros i s2 Hi. apply Hstep. lia.
Qed.

Lemma for_each_range_returns {St : Type} (n : Z) (body : Z -> St -> M St)
    (Inv : nat -> St -> Prop) s0 :
  Inv 0%nat s0 ->
  (forall i s1, (i < Z.to_nat n)%nat -> Inv i s1 ->
                returns (body (Z.of_nat i) s1) (Inv (S i))) ->
  returns (for_each (range n) body s0) (Inv (Z.to_nat n)).
Proof.
  intros H0 Hstep. unfold range, range2. rewrite Z.sub_0_r.
  apply (for_each_seq_returns body Inv (Z.to_nat n) 0%nat s0 H0).
  intros i s1 Hi. apply Hstep. lia.
Qed.

Lemma mod_inv a b i : mod_ a b = Ok i -> b <> 0%Z /\ i = (a mod b)%Z.
Proof.
  unfold mod_. destruct (Z.eqb_spec b 0) as [Heq|Hne];
    intros H; [discriminate|].
  injection H as <-. split; [assumption | reflexivity].
Qed.

Lemma getitem_inv {A : Type} (l : list A) i a :
  getitem l i = Ok a -> nth_error l i = Some a.
Proof.
  unfold getitem. destruct (nth_error l i); intros H; [|discriminate].
  injection H as ->. reflexivity.
Qed.

Lemma nth_error_map_inv {A B : Type} (f : A -> B) l i y :
  nth_error (map f l) i = Some y ->
  exists x, nth_error l i = Some x /\ y = f x.
Proof.
  rewrite nth_error_map. destruct (nth_error l i) as [x|]; intros H;
    [|discriminate].
  injection H as <-. exists x. split; reflexivity.
Qed.

(** One round of the first loop. *)
Lemma coeff_step_inv Rcoef n_snr_values i ncoeff Rcoeflist w st w' :
  coeff_step Rcoef n_snr_values (Z.of_nat i) (ncoeff, Rcoeflist) w = (Ok st, w') ->
  coeffs_ok Rcoef n_snr_values i ncoeff ->
  coeffs_ok Rcoef n_snr_values (S i) (fst st).
Proof.
  intros H [Hlen Hval]. unfold coeff_step in H.
  lift_inv H as idx E1. apply mod_inv in E1. destruct E1 as [Hn ->].
  lift_inv H as rc E2. apply getitem_inv in E2.
  lift_inv H as idx' E3. lift_inv H as rc' E4.
  apply ret_inv_ok in H. destruct H as [-> _]. simpl. split.
  - rewrite length_app. simpl. lia.
  - intros i' Hi'. destruct (Nat.eq_dec i' i) as [->|Hne].
    + exists rc. split; [exact E2|].
      rewrite app_nth2 by lia. rewrite Hlen, Nat.sub_diag. reflexivity.
    + destruct (Hval i') as (r & Hr & Hnth); [lia|].
      exists r. split; [exact Hr|]. rewrite app_nth1 by lia. exact Hnth.
Qed.

Lemma setitem_inv {A : Type} (l : list A) i v l' :
  setitem l i v = Ok l' ->
  (i < length l)%nat /\ l' = firstn i l ++ v :: skipn (S i) l.
Proof.
  unfold setitem. destruct (Nat.ltb_spec i (length l)) as [Hlt|Hge];
    intros H; [|discriminate].
  injection H as <-. split; [assumption | reflexivity].
Qed.

Lemma setitem_ok {A : Type} (l : list A) i v :
  (i < length l)%nat -> setitem l i v = Ok (firstn i l ++ v :: skipn (S i) l).
Proof.
  intros H. unfold setitem. destruct (Nat.ltb_spec i (length l)); [reflexivity | lia].
Qed.

Lemma length_set {A : Type} (l : list A) i v :
  (i < length l)%nat -> length (firstn i l ++ v :: skipn (S i) l) = length l.
Proof.
  intros H. rewrite length_app, length_firstn. cbn [length].
  rewrite length_skipn. lia.
Qed.

Lemma nth_set_same {A : Type} (l : list A) i v d :
  (i < length l)%nat -> nth i (firstn i l ++ v :: skipn (S i) l) d = v.
Proof.
  intros H. rewrite app_nth2 by (rewrite length_firstn; lia).
  rewrite length_firstn, Nat.min_l by lia. rewrite Nat.sub_diag. reflexivity.
Qed.

Lemma nth_set_before {A : Type} (l : list A) i j v d :
  (j < i)%nat -> (i < length l)%nat ->
  nth j (firstn i l ++ v :: skipn (S i) l) d = nth j l d.
Proof.
  intros Hj Hi. rewrite app_nth1 by (rewrite length_firstn; lia).
  rewrite nth_firstn. destruct (Nat.ltb_spec j i); [reflexivity | lia].
Qed.

(** One round of the main loop. *)
Lemma signal_step_inv gw Rcoef Norig N ds n_snr_values L ncoeff i st w st' w' :
  signal_step gw Norig (Z.of_nat (length gw)) N ds ncoeff (Z.of_nat i) st w
  = (Ok st', w') ->
  coeffs_ok Rcoef n_snr_values L ncoeff -> (i < L)%nat ->
  signals_ok gw Rcoef Norig N ds n_snr_values L i st ->
  signals_ok gw Rcoef Norig N ds n_snr_values L (S i) st'.
Proof.
  intros H [Hclen Hcval] HiL Hinv.
  destruct st as [[[noisy gws] k] labels].
  destruct Hinv as (Hn & Hg & Hl & Hall).
  unfold signal_step in H.
  lift_inv H as idx E1. apply mod_inv in E1. destruct E1 as [HNdat ->].
  lift_inv H as row E2. apply getitem_inv, nth_error_map_inv in E2.
  destruct E2 as (record & Hrec & ->).
  lift_inv H as indices E3. lift_inv H as signal E4.
  bind_inv H as z w1 E5. clear E5.
  lift_inv H as c E7. apply getitem_inv in E7. rewrite Nat2Z.id in E7.
  bind_inv H as xi w2 E6. apply randn1_inv in E6. destruct E6 as (_ & Hxi & _).
  lift_inv H as labels' E8. rewrite Nat2Z.id in E8.
  apply setitem_inv in E8. destruct E8 as [Hil ->].
  destruct (Hcval i HiL) as (rc & Hrc & Hc).
  assert (Hceq : c = / 10 ^ 19 * (1 / rc)).
  { rewrite <- Hc. symmetry. apply nth_error_nth. exact E7. }
  assert (Hdown : downsampled (data record) Norig ds signal)
    by (exists indices; split; assumption).
  assert (Hstep : forall rawsig k',
             ((if Rlt_dec z 0 then 1 else 0) = 1 /\
              exists sum, add1 signal (scale1 c xi) = Ok sum /\
                          padded Npad sum rawsig) \/
             ((if Rlt_dec z 0 then 1 else 0) = 0 /\
              padded Npad (scale1 c xi) rawsig) ->
             signals_ok gw Rcoef Norig N ds n_snr_values L (S i)
               (noisy ++ [rawsig], gws ++ [signal], k',
                firstn i labels ++
                IZR (if Rlt_dec z 0 then 1 else 0) :: skipn (S i) labels)).
  { intros rawsig k' Hcase. unfold signals_ok.
    split; [rewrite length_app; simpl; lia|].
    split; [rewrite length_app; simpl; lia|].
    split; [rewrite length_set by exact Hil; exact Hl|].
    intros i' Hi'. destruct (Nat.eq_dec i' i) as [->|Hne].
    - rewrite app_nth2, Hn, Nat.sub_diag by lia.
      rewrite app_nth2, Hg, Nat.sub_diag by lia.
      rewrite nth_set_same by exact Hil. simpl nth.
      exists record, rc, xi. rewrite <- Hceq.
      split; [exact Hrec|]. split; [exact Hrc|]. split; [exact Hdown|].
      split; [exact Hxi|].
      destruct (Rlt_dec z 0); destruct Hcase as [[Hlab Hc1]|[Hlab Hc0]];
        try (exfalso; lra); [left | right]; split; auto.
    - rewrite app_nth1 by lia. rewrite app_nth1 by lia.
      rewrite nth_set_before by lia. apply Hall. lia. }
  destruct (Rlt_dec z 0) as [Hz|Hz]; simpl in H.
  - lift_inv H as sum E9. lift_inv H as kr E10.
    apply getitem_inv in E10. rewrite Nat2Z.id in E10.
    assert (kr = c) by congruence. subst kr.
    bind_inv H as rawsig w3 E11. apply padrand_inv in E11.
    destruct E11 as (_ & Hpad & _).
    apply ret_inv_ok in H. destruct H as [-> _].
    apply Hstep. left. split; [reflexivity|]. exists sum. split; assumption.
  - lift_inv H as kr E10.
    apply getitem_inv in E10. rewrite Nat2Z.id in E10.
    assert (kr = c) by congruence. subst kr.
    bind_inv H as rawsig w3 E11. apply padrand_inv in E11.
    destruct E11 as (_ & Hpad & _).
    apply ret_inv_ok in H. destruct H as [-> _].
    apply Hstep. right. split; [reflexivity | assumption].
Qed.

End Waves.

(** ** [make_gravitational_waves], read backwards and run forwards *)

Section WavesRuns.
Import Py Np Takens.
Context {RS : RandomState}.

Lemma zeros_inv n l : zeros n = Ok l -> (0 <= n)%Z /\ l = repeat 0 (Z.to_nat n).
Proof.
  unfold zeros, size_arg. destruct (Z.ltb_spec n 0) as [Hlt|Hge];
    intros H; [discriminate|].
  injection H as <-. split; [assumption | reflexivity].
Qed.

Lemma true_div_inv a b q : true_div a b = Ok q -> b <> 0%Z /\ q = IZR a / IZR b.
Proof.
  unfold true_div. destruct (Z.eqb_spec b 0) as [Heq|Hne];
    intros H; [discriminate|].
  injection H as <-. split; [assumption | reflexivity].
Qed.

(** Every run that returns has kept labels and signals consistent. *)
Lemma make_gravitational_waves_inv path n_signals ds r_min r_max n_snr_values
    w noisy gws labels w' :
  make_gravitational_waves path n_signals ds r_min r_max n_snr_values w
  = (Ok (noisy, gws, labels), w') ->
  exists gw Rcoef first,
    npy_files w (path ++ "/" ++ "gravitational_wave_signals.npy")%string = Ok gw /\
    linspace r_min r_max n_snr_values = Ok Rcoef /\
    nth_error gw 0 = Some first /\
    (0 <= n_signals)%Z /\
    signals_ok gw Rcoef (Z.of_nat (length (data first)))
               (int (IZR (Z.of_nat (length (data first))) / IZR ds))
               ds n_snr_values (Z.to_nat n_signals) (Z.to_nat n_signals)
               (noisy, gws, 0%Z, labels).
Proof.
  intros H. unfold make_gravitational_waves in H.
  lift_inv H as Rcoef E1.
  bind_inv H as gw w1 E2. unfold load in E2. injection E2 as E2 Hw1.
  lift_inv H as first E3. apply getitem_inv, nth_error_map_inv in E3.
  destruct E3 as (rec0 & Hrec0 & ->).
  lift_inv H as q E4. apply true_div_inv in E4. destruct E4 as [Hds ->].
  bind_inv H as coeffs w2 E5.
  lift_inv H as labels0 E6. apply zeros_inv in E6. destruct E6 as [Hn ->].
  bind_inv H as st w3 E7.
  destruct st as [[[noisy' gws'] k'] labels'].
  apply ret_inv_ok in H. destruct H as [H _]. injection H as ? ? ?. subst.
  exists gw, Rcoef, rec0.
  split; [exact E2|]. split; [exact E1|]. split; [exact Hrec0|].
  split; [exact Hn|].
  assert (Hcoef : coeffs_ok Rcoef n_snr_values (Z.to_nat n_signals) (fst coeffs)).
  { apply (for_each_range_inv n_signals _
             (fun m st => coeffs_ok Rcoef n_snr_values m (fst st))
             _ _ _ _) with (3 := E5).
    - split; [reflexivity | intros i Hi; lia].
    - intros i [nc rl] wa st2 wb Hi Hinv Hstep.
      apply (coeff_step_inv _ _ _ _ _ _ _ _ Hstep Hinv). }
  rewrite length_map in E7.
  assert (Hsig : signals_ok gw Rcoef (Z.of_nat (length (data rec0)))
                   (int (IZR (Z.of_nat (length (data rec0))) / IZR ds))
                   ds n_snr_values (Z.to_nat n_signals) (Z.to_nat n_signals)
                   (noisy', gws', k', labels')).
  { apply (for_each_range_inv n_signals _
             (signals_ok gw Rcoef (Z.of_nat (length (data rec0)))
                (int (IZR (Z.of_nat (length (data rec0))) / IZR ds))
                ds n_snr_values (Z.to_nat n_signals))
             _ _ _ _) with (3 := E7).
    - unfold signals_ok. repeat split; try reflexivity.
      + apply repeat_length.
      + intros i Hi. lia.
    - intros i st1 wa st2 wb Hi Hinv Hstep.
      apply (signal_step_inv _ _ _ _ _ _ _ _ _ _ _ _ _ Hstep Hcoef Hi Hinv). }
  exact Hsig.
Qed.

Lemma linspace_ok a b n :
  (0 <= n)%Z ->
  exists l, linspace a b n = Ok l /\ length l = Z.to_nat n.
Proof.
  intros Hn. unfold linspace. rewrite size_arg_ok by exact Hn.
  eexists. split; [reflexivity|]. rewrite length_map, length_seq. reflexivity.
Qed.

Lemma mod_ok a b : b <> 0%Z -> mod_ a b = Ok (a mod b)%Z.
Proof. intros H. unfold mod_. destruct (Z.eqb_spec b 0); [contradiction | reflexivity]. Qed.

Lemma getitem_ok {A : Type} (l : list A) i d :
  (i < length l)%nat -> getitem l i = Ok (nth i l d).
Proof.
  intros H. unfold getitem. rewrite (nth_error_nth' l d H). reflexivity.
Qed.

Lemma take_ok row indices :
  Forall (fun i => (Z.to_nat i < length row)%nat) indices ->
  exists s, take row indices = Ok s /\ length s = length indices.
Proof.
  induction 1 as [|i rest Hi _ (s & Es & Hs)].
  - exists []. split; reflexivity.
  - exists (nth (Z.to_nat i) row 0 :: s). simpl.
    rewrite (getitem_ok row _ 0 Hi), Es. split; [reflexivity | simpl; congruence].
Qed.

(** Taking every [ds]-th point of a row of [Norig] points, when [ds]
    divides [Norig]. *)
Lemma downsample_ok row (Norig : nat) ds :
  length row = Norig -> (0 < ds)%Z -> (ds | Z.of_nat Norig)%Z ->
  exists indices signal,
    range3 0 (Z.of_nat Norig) ds = Ok indices /\
    take row indices = Ok signal /\
    length signal = Z.to_nat (Z.of_nat Norig / ds).
Proof.
  intros Hrow Hds [q Hq]. unfold range3.
  destruct (Z.eqb_spec ds 0) as [|_]; [lia|].
  destruct (Z.ltb_spec 0 ds) as [_|]; [|lia].
  assert (Hcount : ((Z.of_nat Norig - 0 + ds - 1) / ds = Z.of_nat Norig / ds)%Z).
  { rewrite Hq. rewrite Z.div_mul by lia.
    replace (q * ds - 0 + ds - 1)%Z with ((ds - 1) + q * ds)%Z by lia.
    rewrite Z.div_add by lia. rewrite Z.div_small by lia. lia. }
  rewrite Hcount.
  destruct (take_ok row (map (fun i => (0 + Z.of_nat i * ds)%Z)
                             (seq 0 (Z.to_nat (Z.of_nat Norig / ds)))))
    as (signal & Es & Hs).
  { apply Forall_forall. intros x Hx. apply in_map_iff in Hx.
    destruct Hx as (i & <- & Hi). apply in_seq in Hi.
    rewrite Hq, Z.div_mul in Hi by lia.
    assert (0 <= q)%Z by nia.
    rewrite Hrow. nia. }
  eexists _, signal. split; [reflexivity|]. split; [exact Es|].
  rewrite Hs, length_map, length_seq. reflexivity.
Qed.

Lemma coeff_step_returns n_snr_values Rcoef i st :
  (0 < n_snr_values)%Z -> length Rcoef = Z.to_nat n_snr_values ->
  length (fst st) = i ->
  returns (coeff_step Rcoef n_snr_values (Z.of_nat i) st)
          (fun st' => length (fst st') = S i).
Proof.
  intros Hsnr HR Hlen. destruct st as [ncoeff Rcoeflist]. simpl in Hlen.
  assert (Hidx : (Z.to_nat (Z.of_nat i mod n_snr_values) < length Rcoef)%nat).
  { pose proof (Z.mod_pos_bound (Z.of_nat i) n_snr_values Hsnr). lia. }
  unfold coeff_step.
  eapply returns_bind; [apply returns_lift_eq, mod_ok; lia|]. intros idx ->.
  eapply returns_bind; [apply returns_lift_eq, (getitem_ok _ _ 0), Hidx|].
  intros rc ->.
  eapply returns_bind; [apply returns_lift_eq, mod_ok; lia|]. intros idx' ->.
  eapply returns_bind; [apply returns_lift_eq, (getitem_ok _ _ 0), Hidx|].
  intros rc' ->. apply returns_ret. simpl. rewrite length_app. simpl. lia.
Qed.

Section Forward.
Variable gw : list gw_record.
Variable Norig : nat.
Variable ds : Z.
Variable L : nat.
Hypothesis gw_nonempty : gw <> [].
Hypothesis gw_rows : Forall (fun r => length (data r) = Norig) gw.
Hypothesis ds_pos : (0 < ds)%Z.
Hypothesis ds_divides : (ds | Z.of_nat Norig)%Z.

Local Abbreviation N := (Z.of_nat Norig / ds)%Z.
Local Abbreviation len := (Z.to_nat N + 500)%nat.

Lemma N_nonneg : (0 <= N)%Z.
Proof. apply Z.div_pos; lia. Qed.

Lemma signal_step_returns ncoeff i st :
  length ncoeff = L -> (i < L)%nat ->
  lengths_ok L len i st ->
  returns (signal_step gw (Z.of_nat Norig) (Z.of_nat (length gw)) N ds
                       ncoeff (Z.of_nat i) st)
          (lengths_ok L len (S i)).
Proof.
  intros Hnc Hi Hinv. destruct st as [[[noisy gws] k] labels].
  destruct Hinv as (Hn & Hg & Hl & Hall).
  assert (Hgw : (0 < length gw)%nat) by (destruct gw; [congruence | simpl; lia]).
  assert (Hidx : (Z.to_nat (Z.of_nat i mod Z.of_nat (length gw)) < length gw)%nat).
  { pose proof (Z.mod_pos_bound (Z.of_nat i) (Z.of_nat (length gw))). lia. }
  unfold signal_step.
  eapply returns_bind; [apply returns_lift_eq, mod_ok; lia|]. intros idx ->.
  eapply returns_bind;
    [apply returns_lift_eq, (getitem_ok _ _ []); rewrite length_map; exact Hidx|].
  intros row ->.
  assert (Hrow : length (nth (Z.to_nat (Z.of_nat i mod Z.of_nat (length gw)))
                             (map data gw) []) = Norig).
  { rewrite (nth_indep _ [] (data (nth 0 gw {| data := []; signal_present := 0 |})))
      by (rewrite length_map; exact Hidx).
    rewrite map_nth. rewrite Forall_forall in gw_rows.
    apply gw_rows, nth_In. exact Hidx. }
  destruct (downsample_ok _ Norig ds Hrow ds_pos ds_divides)
    as (indices & signal & Eidx & Esig & Hsig).
  eapply returns_bind; [apply (returns_lift_eq _ _ Eidx)|]. intros indices' ->.
  eapply returns_bind; [apply (returns_lift_eq _ _ Esig)|]. intros signal' ->.
  eapply returns_bind; [apply returns_draw_normal|]. intros z _.
  eapply returns_bind;
    [apply returns_lift_eq, (getitem_ok _ _ 0); rewrite Nat2Z.id, Hnc; exact Hi|].
  intros c ->.
  eapply returns_bind; [apply (returns_randn1 N N_nonneg)|]. intros xi Hxi.
  cbv beta in Hxi.
  eapply returns_bind;
    [apply returns_lift_eq, setitem_ok; rewrite Nat2Z.id, Hl; exact Hi|].
  intros labels' ->. rewrite !Nat2Z.id.
  assert (Hlab : forall v, length (firstn i labels ++ v :: skipn (S i) labels) = L)
    by (intros v; rewrite length_set by lia; exact Hl).
  assert (Hnoise : length (scale1 (nth i ncoeff 0) xi) = Z.to_nat N)
    by (unfold scale1; rewrite length_map; exact Hxi).
  assert (Hnext : forall V rawsig k' v,
             length V = Z.to_nat N -> padded Npad V rawsig ->
             lengths_ok L len (S i)
               (noisy ++ [rawsig], gws ++ [signal], k',
                firstn i labels ++ v :: skipn (S i) labels)).
  { intros V rawsig k' v HV Hpad. unfold lengths_ok.
    split; [rewrite length_app; simpl; lia|].
    split; [rewrite length_app; simpl; lia|].
    split; [apply Hlab|].
    apply Forall_app. split; [exact Hall|]. constructor; [|constructor].
    rewrite (padded_length _ _ _ Hpad), HV. unfold Npad. lia. }
  destruct (Rlt_dec z 0) as [Hz|Hz]; simpl.
  - destruct (add1_same_length signal (scale1 (nth i ncoeff 0) xi))
      as (sum & Esum & Hsum); [congruence|].
    eapply returns_bind; [apply (returns_lift_eq _ _ Esum)|]. intros sum' ->.
    eapply returns_bind;
      [apply returns_lift_eq, (getitem_ok _ _ 0); rewrite Hnc; exact Hi|].
    intros kr ->.
    eapply returns_bind; [apply returns_padrand; unfold Npad; lia|].
    intros rawsig Hpad. apply returns_ret.
    apply (Hnext sum); [congruence | exact Hpad].
  - eapply returns_bind;
      [apply returns_lift_eq, (getitem_ok _ _ 0); rewrite Hnc; exact Hi|].
    intros kr ->.
    eapply returns_bind; [apply returns_padrand; unfold Npad; lia|].
    intros rawsig Hpad. apply returns_ret.
    apply (Hnext (scale1 (nth i ncoeff 0) xi)); assumption.
Qed.

End Forward.

(** On a disk that holds the signals, the function returns. *)
Lemma make_gravitational_waves_returns path n_signals ds r_min r_max
    n_snr_values w gw (Norig : nat) :
  npy_files w (path ++ "/" ++ "gravitational_wave_signals.npy")%string = Ok gw ->
  gw <> [] ->
  Forall (fun r => length (data r) = Norig) gw ->
  (0 < ds)%Z -> (ds | Z.of_nat Norig)%Z ->
  (0 <= n_signals)%Z -> (0 < n_snr_values)%Z ->
  exists noisy gws labels w',
    make_gravitational_waves path n_signals ds r_min r_max n_snr_values w
    = (Ok (noisy, gws, labels), w') /\
    calls w' = calls w ++
               [(np_load_call (path ++ "/" ++ "gravitational_wave_signals.npy")%string,
                 Returned)] /\
    lengths_ok (Z.to_nat n_signals)
               (Z.to_nat (Z.of_nat Norig / ds) + 500)
               (Z.to_nat n_signals) (noisy, gws, 0%Z, labels).
Proof.
  intros Hload Hgw Hrows Hds Hdiv Hn Hsnr.
  unfold make_gravitational_waves.
  destruct (linspace_ok r_min r_max n_snr_values) as (Rcoef & E1 & HR); [lia|].
  rewrite (bind_lift_ok _ _ _ _ E1).
  set (file := (path ++ "/" ++ "gravitational_wave_signals.npy")%string) in *.
  set (w1 := record_call w (np_load_call file) Returned).
  assert (E2 : load file w = (Ok gw, w1))
    by (unfold load; rewrite Hload; reflexivity).
  rewrite (bind_ok _ _ _ _ _ E2).
  destruct gw as [|rec0 rest] eqn:Egw; [congruence|]. rewrite <- Egw in *.
  assert (Hfirst : getitem (map data gw) 0 = Ok (data rec0))
    by (rewrite Egw; reflexivity).
  rewrite (bind_lift_ok _ _ _ _ Hfirst).
  assert (Hlen0 : length (data rec0) = Norig).
  { rewrite Forall_forall in Hrows. apply Hrows. rewrite Egw. left. reflexivity. }
  rewrite Hlen0.
  assert (Hdivok : true_div (Z.of_nat Norig) ds = Ok (IZR (Z.of_nat Norig) / IZR ds)).
  { unfold true_div. destruct (Z.eqb_spec ds 0); [lia | reflexivity]. }
  rewrite (bind_lift_ok _ _ _ _ Hdivok).
  rewrite int_quotient by lia.
  destruct (for_each_range_returns n_signals (coeff_step Rcoef n_snr_values)
              (fun m st => length (fst st) = m) ([], []) eq_refl
              (fun i st _ Hi => coeff_step_returns n_snr_values Rcoef i st Hsnr HR Hi)
              w1)
    as (coeffs & w2 & E3 & D3 & Hcoef).
  rewrite (bind_ok _ _ _ _ _ E3).
  rewrite (bind_lift_ok _ _ _ _ (zeros_ok n_signals Hn)).
  rewrite length_map.
  destruct (for_each_range_returns n_signals
              (signal_step gw (Z.of_nat Norig) (Z.of_nat (length gw))
                           (Z.of_nat Norig / ds) ds (fst coeffs))
              (lengths_ok (Z.to_nat n_signals)
                          (Z.to_nat (Z.of_nat Norig / ds) + 500))
              ([], [], 0%Z, repeat 0 (Z.to_nat n_signals)))
    with (w := w2) as (st & w3 & E4 & D4 & Hinv).
  { unfold lengths_ok. repeat split; try reflexivity.
    - apply repeat_length.
    - constructor. }
  { intros i st Hi Hst.
    apply (signal_step_returns gw Norig ds (Z.to_nat n_signals) Hgw Hrows Hds Hdiv
             (fst coeffs) i st Hcoef Hi Hst). }
  rewrite (bind_ok _ _ _ _ _ E4).
  destruct st as [[[noisy gws] k] labels].
  exists noisy, gws, labels, w3. split; [reflexivity|]. split.
  - destruct D3 as (_ & _ & C3). destruct D4 as (_ & _ & C4).
    rewrite C4, C3. reflexivity.
  - exact Hinv.
Qed.

End WavesRuns.

(** ** Exceptions of the readers *)

Section NoRecovery.
Import Py Np Vectorizing Takens.
Context {RS : RandomState}.

Lemma calls_since_app w w' cs :
  calls w' = calls w ++ cs -> calls_since w w' = cs.
Proof.
  intros H. unfold calls_since. rewrite H, skipn_app, skipn_all, Nat.sub_diag.
  reflexivity.
Qed.

Lemma quiet_coeff_step Rcoef n_snr_values j st :
  quiet (coeff_step Rcoef n_snr_values j st).
Proof.
  destruct st as [ncoeff Rcoeflist]. unfold coeff_step.
  repeat (apply quiet_bind; [apply quiet_lift | intros ?]). apply quiet_ret.
Qed.

Lemma quiet_signal_step gw Norig Ndat N ds ncoeff j st :
  quiet (signal_step gw Norig Ndat N ds ncoeff j st).
Proof.
  destruct st as [[[noisy gws] k] labels]. unfold signal_step.
  repeat (apply quiet_bind; [apply quiet_lift | intros ?]).
  apply quiet_bind; [apply quiet_draw_normal | intros z].
  apply quiet_bind; [apply quiet_lift | intros c].
  apply quiet_bind; [apply quiet_randn1 | intros xi].
  repeat (apply quiet_bind; [apply quiet_lift | intros ?]).
  destruct (Rlt_dec z 0); simpl;
    repeat (apply quiet_bind; [apply quiet_lift | intros ?]);
    (apply quiet_bind; [apply quiet_padrand | intros ?]); apply quiet_ret.
Qed.

(** What [make_gravitational_waves] does with the readers: nothing
    when [linspace] raises, one call to [np.load] otherwise, and the
    exception of that call is the exception of the function. *)
Lemma make_gravitational_waves_calls path n_signals ds r_min r_max
    n_snr_values w :
  let file := (path ++ "/" ++ "gravitational_wave_signals.npy")%string in
  let run := make_gravitational_waves path n_signals ds r_min r_max
                                      n_snr_values w in
  calls (snd run) = calls w \/
  calls (snd run) = calls w ++ [(np_load_call file, Returned)] \/
  exists e, fst run = Raise e /\
            calls (snd run) = calls w ++ [(np_load_call file, Raised e)].
Proof.
  intros file run. unfold run, make_gravitational_waves. fold file.
  destruct (linspace r_min r_max n_snr_values) as [Rcoef|e0].
  2:{ left. reflexivity. }
  rewrite (bind_lift_ok _ _ _ _ eq_refl).
  destruct (npy_files w file) as [gw|e] eqn:Efile.
  - right. left.
    assert (E : load file w = (Ok gw, record_call w (np_load_call file) Returned))
      by (unfold load; rewrite Efile; reflexivity).
    rewrite (bind_ok _ _ _ _ _ E).
    match goal with
    | |- calls (snd (?m ?w1)) = _ =>
        assert (Hq : quiet m); [|destruct (Hq w1) as (_ & _ & ->); reflexivity]
    end.
    apply quiet_bind; [apply quiet_lift | intros first].
    apply quiet_bind; [apply quiet_lift | intros q].
    apply quiet_bind;
      [apply quiet_for_each; intros; apply quiet_coeff_step | intros coeffs].
    apply quiet_bind; [apply quiet_lift | intros labels].
    apply quiet_bind;
      [apply quiet_for_each; intros; apply quiet_signal_step | intros st].
    destruct st as [[[noisy gws] k] labels']. apply quiet_ret.
  - right. right. exists e.
    assert (E : load file w = (Raise e, record_call w (np_load_call file) (Raised e)))
      by (unfold load; rewrite Efile; reflexivity).
    rewrite (bind_raise _ _ _ _ _ E). split; reflexivity.
Qed.

Lemma quiet_barcodes_of_rows files rows : quiet (barcodes_of_rows files rows).
Proof.
  unfold barcodes_of_rows. apply quiet_for_each. intros j out.
  apply quiet_bind; [|intros; apply quiet_ret].
  apply quiet_for_each. intros k barcode.
  repeat (apply quiet_bind; [apply quiet_lift | intros ?]). apply quiet_ret.
Qed.

(** What the loader does with the readers. *)
Lemma load_barcodes_calls w :
  calls (snd (load_barcodes w)) =
  calls w ++ fst (read_all (csv_files w) (range 6)) /\
  forall e, snd (read_all (csv_files w) (range 6)) = Raise e ->
            fst (load_barcodes w) = Raise e.
Proof.
  unfold load_barcodes.
  destruct (snd (read_all (csv_files w) (range 6))) as [files|e] eqn:Eread.
  - assert (E : barcodes w =
                (Ok files, add_calls w (fst (read_all (csv_files w) (range 6)))))
      by (rewrite barcodes_run, Eread; reflexivity).
    rewrite (bind_ok _ _ _ _ _ E). split; [|intros e He; discriminate].
    match goal with
    | |- calls (snd (?m ?w1)) = _ =>
        assert (Hq : quiet m); [|destruct (Hq w1) as (_ & _ & ->); reflexivity]
    end.
    apply quiet_bind; [apply quiet_barcodes_of_rows | intros dem].
    apply quiet_bind; [apply quiet_barcodes_of_rows | intros rep].
    apply quiet_ret.
  - assert (E : barcodes w =
                (Raise e, add_calls w (fst (read_all (csv_files w) (range 6)))))
      by (rewrite barcodes_run, Eread; reflexivity).
    rewrite (bind_raise _ _ _ _ _ E). split; [reflexivity|].
    intros e' He'. injection He' as ->. reflexivity.
Qed.

End NoRecovery.

(** ** The loader, read backwards *)

Section LoaderCounts.
Import Py Np Vectorizing.
Context {RS : RandomState}.

Lemma for_each_list_inv {A St : Type} (body : A -> St -> M St)
      (Inv : nat -> St -> Prop) (l : list A) : forall n s0 w s w',
  Inv n s0 ->
  (forall i a s1 w1 s2 w2, In a l -> Inv i s1 ->
      body a s1 w1 = (Ok s2, w2) -> Inv (S i) s2) ->
  for_each l body s0 w = (Ok s, w') ->
  Inv (n + length l)%nat s.
Proof.
  induction l as [|a l IH]; intros n s0 w s w' H0 Hstep Hrun; simpl in Hrun.
  - apply ret_inv_ok in Hrun. destruct Hrun as [-> _].
    simpl. rewrite Nat.add_0_r. exact H0.
  - bind_inv Hrun as s1 w1 E. simpl.
    replace (n + S (length l))%nat with (S n + length l)%nat by lia.
    apply (IH (S n) s1 w1 s w'); [| |exact Hrun].
    + apply (Hstep n a s0 w s1 w1); [left; reflexivity | exact H0 | exact E].
    + intros i a' s2 w2 s3 w3 Hin. apply Hstep. right. exact Hin.
Qed.

Lemma read_all_ok_inv disk l files :
  snd (read_all disk l) = Ok files ->
  fst (read_all disk l) =
  map (fun j => (np_genfromtxt_call (fileName j), Returned)) l /\
  length files = length l.
Proof.
  revert files. induction l as [|j l IH]; intros files; simpl.
  - intros H. injection H as <-. split; reflexivity.
  - destruct (disk (fileName j)) as [a|e]; [|discriminate].
    destruct (read_all disk l) as [cs [rest|e]]; simpl in *; [|discriminate].
    intros H. injection H as <-.
    destruct (IH rest eq_refl) as [-> Hlen]. split; [reflexivity|].
    simpl. congruence.
Qed.

Lemma barcodes_of_rows_inv files rows w out w' :
  barcodes_of_rows files rows w = (Ok out, w') ->
  length out = length rows /\ Forall (fun b => length b = 6%nat) out.
Proof.
  intros H. unfold barcodes_of_rows in H.
  apply (for_each_list_inv _
           (fun n out => length out = n /\ Forall (fun b => length b = 6%nat) out)
           rows 0%nat) in H; [exact H | split; [reflexivity | constructor] |].
  intros i j out1 w1 out2 w2 _ [Hlen Hall] Hstep.
  bind_inv Hstep as barcode w3 E.
  apply ret_inv_ok in Hstep. destruct Hstep as [-> _].
  apply (for_each_list_inv _ (fun n (b : list array1) => length b = n)
           (range 6) 0%nat) in E; [|reflexivity|].
  - split; [rewrite length_app; simpl; unfold array2, array1 in *; lia|].
    apply Forall_app. split; [exact Hall|]. constructor; [exact E | constructor].
  - intros i' k b1 w4 b2 w5 _ Hb Hk.
    lift_inv Hk as file E1. lift_inv Hk as bar E2.
    apply ret_inv_ok in Hk. destruct Hk as [-> _].
    rewrite length_app. simpl. unfold array2, array1 in *. lia.
Qed.

(** Whenever the loader returns, it has read the six files and built
    242 and 188 barcodes of six bars each. *)
Lemma load_barcodes_counts w dem rep w' :
  load_barcodes w = (Ok (dem, rep), w') ->
  calls w' = calls w ++
             map (fun j => (np_genfromtxt_call (fileName j), Returned)) (range 6) /\
  length dem = 242%nat /\ length rep = 188%nat /\
  Forall (fun b => length b = 6%nat) dem /\
  Forall (fun b => length b = 6%nat) rep.
Proof.
  intros H.
  assert (Hcalls : calls w' = calls w ++ fst (read_all (csv_files w) (range 6)))
    by (rewrite <- (proj1 (load_barcodes_calls w)), H; reflexivity).
  unfold load_barcodes in H.
  bind_inv H as files w1 E1. rewrite barcodes_run in E1.
  assert (Eread : snd (read_all (csv_files w) (range 6)) = Ok files)
    by exact (f_equal fst E1).
  destruct (read_all_ok_inv _ _ _ Eread) as [Hlog _].
  bind_inv H as dem' w2 E2. bind_inv H as rep' w3 E3.
  apply ret_inv_ok in H. destruct H as [H _]. injection H as <- <-.
  apply barcodes_of_rows_inv in E2. apply barcodes_of_rows_inv in E3.
  rewrite length_range2 in E2, E3.
  split; [rewrite Hcalls, Hlog; reflexivity|].
  repeat split; try apply E2; try apply E3.
Qed.

End LoaderCounts.

(** ** The main loop of [make_gravitational_waves], state by state *)

Section Traces.
Import Py Np Takens.
Context {RS : RandomState}.

Lemma coeff_step_world Rcoef n_snr_values j st w r w' :
  coeff_step Rcoef n_snr_values j st w = (r, w') -> w' = w.
Proof.
  destruct st as [ncoeff Rcoeflist]. unfold coeff_step, bind, lift, ret.
  destruct (mod_ j n_snr_values) as [i|e]; [|intros H; injection H; auto].
  destruct (getitem Rcoef (Z.to_nat i)) as [c|e]; intros H; injection H; auto.
Qed.

Lemma coeff_loop_world Rcoef n_snr_values l : forall st w r w',
  for_each l (coeff_step Rcoef n_snr_values) st w = (r, w') -> w' = w.
Proof.
  induction l as [|j l IH]; intros st w r w' H; simpl in H.
  - unfold ret in H. injection H; auto.
  - unfold bind in H.
    destruct (coeff_step Rcoef n_snr_values j st w) as [[st1|e] w1] eqn:E;
      apply coeff_step_world in E; subst w1.
    + exact (IH _ _ _ _ H).
    + injection H; auto.
Qed.

Lemma for_each_seq_trace {St : Type} (body : Z -> St -> M St)
    (Inv : nat -> St -> list world -> Prop) k : forall a s0 w s w' ws,
  Inv a s0 (ws ++ [w]) ->
  (forall i s1 w1 s2 w2 ws1, (a <= i < a + k)%nat ->
      Inv i s1 (ws1 ++ [w1]) ->
      body (Z.of_nat i) s1 w1 = (Ok s2, w2) ->
      Inv (S i) s2 ((ws1 ++ [w1]) ++ [w2])) ->
  for_each (map (fun i => (0 + Z.of_nat i)%Z) (seq a k)) body s0 w = (Ok s, w') ->
  exists ws', Inv (a + k)%nat s (ws' ++ [w']).
Proof.
  induction k as [|k IH]; intros a s0 w s w' ws H0 Hstep Hrun; simpl in Hrun.
  - apply ret_inv_ok in Hrun. destruct Hrun as [-> ->].
    exists ws. rewrite Nat.add_0_r. exact H0.
  - bind_inv Hrun as s1 w1 E.
    replace (a + S k)%nat with (S a + k)%nat by lia.
    apply (IH (S a) s1 w1 s w' (ws ++ [w])); [| |exact Hrun].
    + apply (Hstep a s0 w s1 w1 ws); [lia | exact H0 | exact E].
    + intros i s2 w2 s3 w3 ws1 Hi. apply Hstep. lia.
Qed.

Lemma padrand_trace V n kr w out w' :
  padrand V n kr w = (Ok out, w') -> random_padded V n kr w out w'.
Proof.
  intros H. unfold padrand in H.
  bind_inv H as cut w1 E1. bind_inv H as rand1 w2 E2.
  bind_inv H as rand2 w3 E3. apply ret_inv_ok in H. destruct H as [-> ->].
  exists cut, rand1, rand2, w1, w2. repeat split; assumption.
Qed.

(** One round of the main loop, with the states before and after. *)
Lemma signal_step_trace gw Rcoef Norig N ds n_snr_values L ncoeff i
    noisy gws k labels w st' w' :
  signal_step gw Norig (Z.of_nat (length gw)) N ds ncoeff (Z.of_nat i)
              (noisy, gws, k, labels) w = (Ok st', w') ->
  coeffs_ok Rcoef n_snr_values L ncoeff -> (i < L)%nat ->
  exists rawsig signal label k',
    st' = (noisy ++ [rawsig], gws ++ [signal], k',
           firstn i labels ++ label :: skipn (S i) labels) /\
    (i < length labels)%nat /\
    (label = 0 \/ label = 1) /\
    sample_run gw Rcoef Norig N ds n_snr_values (Z.of_nat i) w
               rawsig signal label w'.
Proof.
  intros H [Hclen Hcval] HiL. unfold signal_step in H.
  lift_inv H as idx E1. apply mod_inv in E1. destruct E1 as [HNdat ->].
  lift_inv H as row E2. apply getitem_inv, nth_error_map_inv in E2.
  destruct E2 as (record & Hrec & ->).
  lift_inv H as indices E3. lift_inv H as signal E4.
  bind_inv H as z w1 E5.
  lift_inv H as c E7. apply getitem_inv in E7. rewrite Nat2Z.id in E7.
  bind_inv H as xi w2 E6.
  lift_inv H as labels' E8. rewrite Nat2Z.id in E8.
  apply setitem_inv in E8. destruct E8 as [Hil ->].
  destruct (Hcval i HiL) as (rc & Hrc & Hc).
  assert (Hceq : c = / 10 ^ 19 * (1 / rc)).
  { rewrite <- Hc. symmetry. apply nth_error_nth. exact E7. }
  assert (Hdown : downsampled (data record) Norig ds signal)
    by (exists indices; split; assumption).
  destruct (Rlt_dec z 0) as [Hz|Hz]; simpl in H.
  - lift_inv H as sum E9. lift_inv H as kr E10.
    apply getitem_inv in E10. rewrite Nat2Z.id in E10.
    assert (kr = c) by congruence. subst kr.
    bind_inv H as rawsig w3 E11. apply padrand_trace in E11.
    apply ret_inv_ok in H. destruct H as [-> ->].
    exists rawsig, signal, 1, (if (k =? 0)%Z then 1%Z else k).
    split; [reflexivity|]. split; [exact Hil|]. split; [right; reflexivity|].
    exists record, rc, z, xi, w1, w2. rewrite <- Hceq.
    repeat (split; [assumption|]).
    left. split; [exact Hz|]. split; [reflexivity|].
    exists sum. split; assumption.
  - lift_inv H as kr E10.
    apply getitem_inv in E10. rewrite Nat2Z.id in E10.
    assert (kr = c) by congruence. subst kr.
    bind_inv H as rawsig w3 E11. apply padrand_trace in E11.
    apply ret_inv_ok in H. destruct H as [-> ->].
    exists rawsig, signal, 0, k.
    split; [reflexivity|]. split; [exact Hil|]. split; [left; reflexivity|].
    exists record, rc, z, xi, w1, w2. rewrite <- Hceq.
    repeat (split; [assumption|]).
    right. split; [exact Hz|]. split; [reflexivity | assumption].
Qed.

Lemma trace_step gw Rcoef Norig N ds n_snr_values L ncoeff w0 i st w st' w' ws :
  coeffs_ok Rcoef n_snr_values L ncoeff -> (i < L)%nat ->
  trace_ok gw Rcoef Norig N ds n_snr_values L w0 i st (ws ++ [w]) ->
  signal_step gw Norig (Z.of_nat (length gw)) N ds ncoeff (Z.of_nat i) st w
  = (Ok st', w') ->
  trace_ok gw Rcoef Norig N ds n_snr_values L w0 (S i) st'
           ((ws ++ [w]) ++ [w']).
Proof.
  intros Hcoef HiL Hinv Hstep. destruct st as [[[noisy gws] k] labels].
  destruct Hinv as (Hn & Hg & Hl & Hws & Hw0 & Hall).
  destruct (signal_step_trace _ _ _ _ _ _ _ _ _ _ _ _ _ _ _ _ Hstep Hcoef HiL)
    as (rawsig & signal & label & k' & -> & Hil & Hbit & Hrun).
  assert (Hlen : length ws = i)
    by (rewrite length_app in Hws; simpl in Hws; lia).
  unfold trace_ok.
  split; [rewrite length_app; simpl; lia|].
  split; [rewrite length_app; simpl; lia|].
  split; [rewrite length_set by exact Hil; exact Hl|].
  split; [rewrite length_app; simpl; lia|].
  split; [rewrite nth_error_app1 by (rewrite Hws; lia); exact Hw0|].
  intros j Hj. destruct (Nat.eq_dec j i) as [->|Hne].
  - rewrite nth_set_same by exact Hil.
    rewrite app_nth2, Hn, Nat.sub_diag by lia.
    rewrite app_nth2, Hg, Nat.sub_diag by lia. simpl nth.
    split; [exact Hbit|]. exists w, w'.
    split; [|split; [|exact Hrun]].
    + rewrite nth_error_app1 by (rewrite Hws; lia).
      rewrite nth_error_app2 by lia.
      rewrite Hlen, Nat.sub_diag. reflexivity.
    + rewrite nth_error_app2 by (rewrite Hws; lia).
      rewrite Hws, Nat.sub_diag. reflexivity.
  - assert (Hlt : (j < i)%nat) by lia.
    destruct (Hall j Hlt) as (Hb & wj & wj' & Hwj & Hwj' & Hs).
    rewrite nth_set_before by lia.
    rewrite app_nth1 by lia. rewrite app_nth1 by lia.
    split; [exact Hb|]. exists wj, wj'.
    split; [|split; [|exact Hs]].
    + rewrite nth_error_app1 by (rewrite Hws; lia). exact Hwj.
    + rewrite nth_error_app1 by (rewrite Hws; lia). exact Hwj'.
Qed.

(** Whenever the function returns: the states of the main loop, from
    the state after the call to [np.load] to the final state. *)
Lemma make_gravitational_waves_trace path n_signals ds r_min r_max n_snr_values
    w noisy gws labels w' :
  make_gravitational_waves path n_signals ds r_min r_max n_snr_values w
  = (Ok (noisy, gws, labels), w') ->
  exists gw Rcoef first ws,
    npy_files w (path ++ "/" ++ "gravitational_wave_signals.npy")%string = Ok gw /\
    linspace r_min r_max n_snr_values = Ok Rcoef /\
    nth_error gw 0 = Some first /\
    trace_ok gw Rcoef (Z.of_nat (length (data first)))
             (int (IZR (Z.of_nat (length (data first))) / IZR ds))
             ds n_snr_values (Z.to_nat n_signals)
             (record_call w
                (np_load_call (path ++ "/" ++ "gravitational_wave_signals.npy")%string)
                Returned)
             (Z.to_nat n_signals) (noisy, gws, 0%Z, labels) (ws ++ [w']).
Proof.
  intros H. unfold make_gravitational_waves in H.
  lift_inv H as Rcoef E1.
  bind_inv H as gw w1 E2. unfold load in E2. injection E2 as E2 Hw1.
  rewrite E2 in Hw1. simpl in Hw1.
  lift_inv H as first E3. apply getitem_inv, nth_error_map_inv in E3.
  destruct E3 as (rec0 & Hrec0 & ->).
  lift_inv H as q E4. apply true_div_inv in E4. destruct E4 as [Hds ->].
  bind_inv H as coeffs w2 E5.
  pose proof (coeff_loop_world _ _ _ _ _ _ _ E5) as Hw2. subst w2.
  lift_inv H as labels0 E6. apply zeros_inv in E6. destruct E6 as [Hn ->].
  bind_inv H as st w3 E7.
  destruct st as [[[noisy' gws'] k'] labels'].
  apply ret_inv_ok in H. destruct H as [H Hw3]. injection H as ? ? ?. subst.
  exists gw, Rcoef, rec0.
  assert (Hcoef : coeffs_ok Rcoef n_snr_values (Z.to_nat n_signals) (fst coeffs)).
  { apply (for_each_range_inv n_signals _
             (fun m st => coeffs_ok Rcoef n_snr_values m (fst st))
             _ _ _ _) with (3 := E5).
    - split; [reflexivity | intros i Hi; lia].
    - intros i [nc rl] wa st2 wb Hi Hinv Hstep.
      apply (coeff_step_inv _ _ _ _ _ _ _ _ Hstep Hinv). }
  rewrite length_map in E7. unfold range, range2 in E7.
  rewrite Z.sub_0_r in E7.
  set (w1 := record_call w _ Returned) in *.
  set (Inv := trace_ok gw Rcoef (Z.of_nat (length (data rec0)))
                (int (IZR (Z.of_nat (length (data rec0))) / IZR ds))
                ds n_snr_values (Z.to_nat n_signals) w1).
  assert (Hinit : Inv 0%nat ([], [], 0%Z, repeat 0 (Z.to_nat n_signals))
                      ([] ++ [w1])).
  { unfold Inv, trace_ok. repeat split; try reflexivity.
    - apply repeat_length.
    - lia.
    - lia. }
  assert (Hround : forall i s1 wa s2 wb ws1,
             (0 <= i < 0 + Z.to_nat n_signals)%nat ->
             Inv i s1 (ws1 ++ [wa]) ->
             signal_step gw (Z.of_nat (length (data rec0)))
                         (Z.of_nat (length gw))
                         (int (IZR (Z.of_nat (length (data rec0))) / IZR ds))
                         ds (fst coeffs) (Z.of_nat i) s1 wa = (Ok s2, wb) ->
             Inv (S i) s2 ((ws1 ++ [wa]) ++ [wb])).
  { intros i s1 wa s2 wb ws1 Hi Hinv Hstep.
    assert (HiL : (i < Z.to_nat n_signals)%nat) by lia.
    apply (trace_step _ _ _ _ _ _ _ _ _ _ _ _ _ _ _ Hcoef HiL Hinv Hstep). }
  destruct (for_each_seq_trace _ Inv _ _ _ _ _ _ _ Hinit Hround E7)
    as (ws & Hws).
  exists ws. repeat (split; [assumption|]). exact Hws.
Qed.

End Traces.

(** ** Main results for the helper functions *)

Import Takens.

(** C6.  Neither helper recovers or retries.  In every run of
    [make_gravitational_waves] and in every run of the barcode loader,
    if a call to a reader ([np.load], [np.genfromtxt]) raised the
    exception [e], then the helper ends by raising this same [e], and
    that call was made exactly once. *)
Theorem helpers_do_not_recover (RS : RandomState) :
  (forall path n_signals ds r_min r_max n_snr_values w c e,
      In (c, Raised e)
         (calls_since w (snd (make_gravitational_waves
                                path n_signals ds r_min r_max n_snr_values w))) ->
      fst (make_gravitational_waves path n_signals ds r_min r_max n_snr_values w)
      = Raise e /\
      count_occ call_eq_dec
                (map fst (calls_since w (snd (make_gravitational_waves
                            path n_signals ds r_min r_max n_snr_values w))))
                c = 1%nat) /\
  (forall w c e,
      In (c, Raised e) (calls_since w (snd (load_barcodes w))) ->
      fst (load_barcodes w) = Raise e /\
      count_occ call_eq_dec
                (map fst (calls_since w (snd (load_barcodes w)))) c = 1%nat).
Proof.
  split.
  - intros path n_signals ds r_min r_max n_snr_values w c e Hin.
    destruct (make_gravitational_waves_calls path n_signals ds r_min r_max
                                             n_snr_values w)
      as [Hc|[Hc|(e' & Hr & Hc)]].
    + rewrite (calls_since_app w _ []) in Hin by (rewrite app_nil_r; exact Hc).
      destruct Hin.
    + rewrite (calls_since_app w _ _ Hc) in Hin.
      destruct Hin as [Hin|[]]. discriminate.
    + rewrite (calls_since_app w _ _ Hc) in *.
      destruct Hin as [Hin|[]]. injection Hin as <- <-.
      split; [exact Hr|].
      apply NoDup_count_occ'; [|left; reflexivity].
      constructor; [intros [] | constructor].
  - intros w c e Hin.
    destruct (load_barcodes_calls w) as [Hc Hr].
    rewrite (calls_since_app w _ _ Hc) in *.
    destruct (read_all_log (csv_files w) (range 6)) as [(rest & Hpre) Hraise].
    split; [apply Hr, (Hraise c e Hin)|].
    apply NoDup_count_occ'.
    + apply (NoDup_app_remove_r _ rest). rewrite <- Hpre. apply fileNames_NoDup.
    + apply (in_map fst) in Hin. exact Hin.
Qed.

Lemma helpers_do_not_recover_witness :
  (In (np_load_call "data/gravitational_wave_signals.npy", Raised FileNotFoundError)
      (calls_since Demo.empty_disk
         (snd (make_gravitational_waves "data" 30 2 0.075 0.65 10
                                        Demo.empty_disk))) /\
   fst (make_gravitational_waves "data" 30 2 0.075 0.65 10 Demo.empty_disk)
   = Raise FileNotFoundError /\
   count_occ call_eq_dec
             (map fst (calls_since Demo.empty_disk
                (snd (make_gravitational_waves "data" 30 2 0.075 0.65 10
                                               Demo.empty_disk))))
             (np_load_call "data/gravitational_wave_signals.npy") = 1%nat) /\
  (In (np_genfromtxt_call "data/50biased_0.csv", Raised FileNotFoundError)
      (calls_since Demo.empty_disk (snd (load_barcodes Demo.empty_disk))) /\
   fst (load_barcodes Demo.empty_disk) = Raise FileNotFoundError /\
   count_occ call_eq_dec
             (map fst (calls_since Demo.empty_disk
                                   (snd (load_barcodes Demo.empty_disk))))
             (np_genfromtxt_call "data/50biased_0.csv") = 1%nat).
Proof.
  assert (H1 : In (np_load_call "data/gravitational_wave_signals.npy",
                   Raised FileNotFoundError)
                  (calls_since Demo.empty_disk
                     (snd (make_gravitational_waves "data" 30 2 0.075 0.65 10
                                                    Demo.empty_disk))))
    by (left; reflexivity).
  assert (H2 : In (np_genfromtxt_call "data/50biased_0.csv",
                   Raised FileNotFoundError)
                  (calls_since Demo.empty_disk
                               (snd (load_barcodes Demo.empty_disk))))
    by (left; reflexivity).
  split; (split; [assumption|]).
  - exact (proj1 (helpers_do_not_recover Demo.counter)
                 "data"%string 30%Z 2%Z 0.075 0.65 10%Z Demo.empty_disk _ _ H1).
  - exact (proj2 (helpers_do_not_recover Demo.counter) Demo.empty_disk _ _ H2).
Defined.

(** C8.  For [0 < r_min <= r_max], so that no noise coefficient
    divides by zero: whenever [make_gravitational_waves] returns, its
    main loop has gone through the states [ws], from the state right
    after the call to [np.load] to the final state, and for every
    [j < n_signals] round [j] is the step [sample_run] from state [j]
    to state [j + 1]: [labels[j]] is [0] or [1], and it is [1] exactly
    when the normal draw of the round is negative; [gw_signals[j]] is
    the stored signal number [j mod Ndat], downsampled, whatever the
    label; the noise term is the next [N] normal draws times
    [10^-19 / Rcoef[j mod n_snr_values]]; and [noisy_signals[j]] is the
    random-padded sum of the signal and the noise term when
    [labels[j] = 1], and the random-padded noise term alone when
    [labels[j] = 0]. *)
Theorem gravitational_waves_consistent (RS : RandomState) (w w' : world)
        (path : string) (n_signals ds : Z) (r_min r_max : R) (n_snr_values : Z)
        (noisy_signals gw_signals : list array1) (labels : array1) :
  0 < r_min -> r_min <= r_max ->
  make_gravitational_waves path n_signals ds r_min r_max n_snr_values w
  = (Ok (noisy_signals, gw_signals, labels), w') ->
  exists (gw : list gw_record) (Rcoef : array1) (first : gw_record)
         (ws : list world),
    npy_files w (path ++ "/" ++ "gravitational_wave_signals.npy")%string = Ok gw /\
    linspace r_min r_max n_snr_values = Ok Rcoef /\
    nth_error gw 0 = Some first /\
    length noisy_signals = Z.to_nat n_signals /\
    length gw_signals = Z.to_nat n_signals /\
    length labels = Z.to_nat n_signals /\
    length ws = S (Z.to_nat n_signals) /\
    nth_error ws 0 =
    Some (record_call w
            (np_load_call (path ++ "/" ++ "gravitational_wave_signals.npy")%string)
            Returned) /\
    nth_error ws (Z.to_nat n_signals) = Some w' /\
    forall j, (j < Z.to_nat n_signals)%nat ->
      (nth j labels 0 = 0 \/ nth j labels 0 = 1) /\
      exists wj wj',
        nth_error ws j = Some wj /\
        nth_error ws (S j) = Some wj' /\
        sample_run gw Rcoef (Z.of_nat (length (data first)))
                   (int (IZR (Z.of_nat (length (data first))) / IZR ds))
                   ds n_snr_values (Z.of_nat j) wj
                   (nth j noisy_signals []) (nth j gw_signals [])
                   (nth j labels 0) wj'.
Proof.
  intros _ _ H.
  destruct (make_gravitational_waves_trace _ _ _ _ _ _ _ _ _ _ _ H)
    as (gw & Rcoef & first & ws & Hfile & Hlin & Hfirst & Htrace).
  destruct Htrace as (Hn & Hg & Hl & Hws & Hw0 & Hall).
  exists gw, Rcoef, first, (ws ++ [w']).
  repeat (split; [assumption|]).
  split; [|exact Hall].
  rewrite length_app in Hws. simpl in Hws.
  rewrite nth_error_app2 by lia.
  replace (Z.to_nat n_signals - length ws)%nat with 0%nat by lia.
  reflexivity.
Qed.

(** C9.  On a disk that holds at least one signal, all stored signals
    having [Norig] points, with a positive [downsample_factor] that
    divides [Norig]: [make_gravitational_waves] returns, both lists
    have [n_signals] elements, and every noisy signal has
    [Norig / downsample_factor + 500] points.  [padrand(V, n, kr)]
    returns [V] with [n] more points, split between front and back at
    a cut below [n], so a vector of length [len(V) + n]. *)
Theorem gravitational_waves_lengths (RS : RandomState) (w : world)
        (path : string) (n_signals ds : Z) (r_min r_max : R) (n_snr_values : Z)
        (gw : list gw_record) (Norig : nat) :
  npy_files w (path ++ "/" ++ "gravitational_wave_signals.npy")%string = Ok gw ->
  gw <> [] ->
  Forall (fun r => length (data r) = Norig) gw ->
  (0 < ds)%Z -> (ds | Z.of_nat Norig)%Z ->
  (0 <= n_signals)%Z -> (0 < n_snr_values)%Z ->
  (exists noisy_signals gw_signals labels w',
      make_gravitational_waves path n_signals ds r_min r_max n_snr_values w
      = (Ok (noisy_signals, gw_signals, labels), w') /\
      length noisy_signals = Z.to_nat n_signals /\
      length gw_signals = Z.to_nat n_signals /\
      Forall (fun s => Z.of_nat (length s) = (Z.of_nat Norig / ds + 500)%Z)
             noisy_signals) /\
  (forall V n kr w0,
      (0 < n)%Z ->
      exists out w0',
        padrand V n kr w0 = (Ok out, w0') /\
        padded n V out /\
        length out = (length V + Z.to_nat n)%nat).
Proof.
  intros Hload Hgw Hrows Hds Hdiv Hn Hsnr. split.
  - destruct (make_gravitational_waves_returns path n_signals ds r_min r_max
                n_snr_values w gw Norig Hload Hgw Hrows Hds Hdiv Hn Hsnr)
      as (noisy & gws & labels & w' & E & _ & Hlen1 & Hlen2 & _ & Hall).
    exists noisy, gws, labels, w'. repeat (split; [assumption|]).
    eapply Forall_impl; [|exact Hall]. intros s Hs. cbv beta in Hs.
    rewrite Hs. assert (0 <= Z.of_nat Norig / ds)%Z by (apply Z.div_pos; lia).
    lia.
  - intros V n kr w0 Hpos.
    destruct (returns_padrand V n kr Hpos w0) as (out & w0' & E & _ & Hpad).
    exists out, w0'. split; [exact E|]. split; [exact Hpad|].
    apply padded_length, Hpad.
Qed.

Lemma full_disk_ready :
  npy_files Demo.full_disk ("data" ++ "/" ++ "gravitational_wave_signals.npy")%string
  = Ok Demo.signals /\
  Demo.signals <> [] /\
  Forall (fun r => length (data r) = 4%nat) Demo.signals /\
  (0 < 2)%Z /\ (2 | Z.of_nat 4)%Z /\ (0 <= 3)%Z /\ (0 < 1)%Z.
Proof.
  split; [reflexivity|]. split; [discriminate|].
  split; [repeat constructor|].
  split; [lia|]. split; [exists 2%Z; reflexivity|]. split; lia.
Defined.

Lemma gravitational_waves_lengths_witness :
  (npy_files Demo.full_disk
             ("data" ++ "/" ++ "gravitational_wave_signals.npy")%string
   = Ok Demo.signals /\
   Demo.signals <> [] /\
   Forall (fun r => length (data r) = 4%nat) Demo.signals /\
   (0 < 2)%Z /\ (2 | Z.of_nat 4)%Z /\ (0 <= 3)%Z /\ (0 < 1)%Z) /\
  (exists noisy_signals gw_signals labels w',
      make_gravitational_waves "data" 3 2 0.65 0.65 1 Demo.full_disk
      = (Ok (noisy_signals, gw_signals, labels), w') /\
      length noisy_signals = Z.to_nat 3 /\
      length gw_signals = Z.to_nat 3 /\
      Forall (fun s => Z.of_nat (length s) = (Z.of_nat 4 / 2 + 500)%Z)
             noisy_signals) /\
  (forall V n kr (w0 : @world Demo.counter),
      (0 < n)%Z ->
      exists out w0',
        padrand V n kr w0 = (Ok out, w0') /\
        padded n V out /\
        length out = (length V + Z.to_nat n)%nat).
Proof.
  split; [exact full_disk_ready|].
  destruct full_disk_ready as (H1 & H2 & H3 & H4 & H5 & H6 & H7).
  exact (gravitational_waves_lengths Demo.counter Demo.full_disk "data"%string
           3%Z 2%Z 0.65 0.65 1%Z Demo.signals 4%nat H1 H2 H3 H4 H5 H6 H7).
Defined.

Lemma gravitational_waves_consistent_witness :
  exists noisy_signals gw_signals labels w',
    make_gravitational_waves "data" 3 2 0.65 0.65 1 Demo.full_disk
    = (Ok (noisy_signals, gw_signals, labels), w') /\
    length labels = 3%nat /\
    nth 0 labels 0 = 1.
Proof.
  destruct full_disk_ready as (H1 & H2 & H3 & H4 & H5 & H6 & H7).
  destruct (make_gravitational_waves_returns "data"%string 3%Z 2%Z 0.65 0.65 1%Z
              Demo.full_disk Demo.signals 4%nat H1 H2 H3 H4 H5 H6 H7)
    as (noisy & gws & labels & w' & E & _).
  exists noisy, gws, labels, w'. split; [exact E|].
  destruct (gravitational_waves_consistent Demo.counter Demo.full_disk w'
              "data"%string 3%Z 2%Z 0.65 0.65 1%Z noisy gws labels
              ltac:(lra) ltac:(lra) E)
    as (gw & Rcoef & first & ws & _ & _ & _ & _ & _ & Hlab & _ & Hw0 & _ & Hall).
  split; [exact Hlab|].
  destruct (Hall 0%nat ltac:(simpl; lia))
    as (_ & wj & wj' & Hwj & _ & Hrun).
  rewrite Hw0 in Hwj. injection Hwj as <-.
  destruct Hrun as (rec & r & z & xi & w1 & w2 & _ & _ & _ & Ez & _ & Hcase).
  injection Ez as <- _.
  destruct Hcase as [(_ & Hone & _)|(Hz & _)]; [exact Hone|].
  exfalso. apply Hz. simpl. lra.
Defined.

(** ** Persistence images *)

Section Images.
Import Np Persim.

Lemma length_flatten a n m : has_shape a n m -> length (flatten a) = (n * m)%nat.
Proof.
  intros [Hn Hm]. subst n. unfold flatten.
  induction Hm as [|row a Hrow _ IH]; simpl; [reflexivity|].
  rewrite length_app, IH, Hrow. reflexivity.
Qed.

Lemma length_grid lo hi n : length (grid lo hi n) = n.
Proof. unfold grid. rewrite length_map, length_seq. reflexivity. Qed.

Lemma has_shape_rev {A : Type} (a : list (list A)) n m :
  has_shape a n m -> has_shape (rev a) n m.
Proof.
  intros [Hn Hm]. split; [rewrite length_rev; exact Hn | apply Forall_rev, Hm].
Qed.

Lemma has_shape_image norm_cdf pim minBD maxBD landscape :
  has_shape (image norm_cdf pim minBD maxBD landscape)
            (snd (pixels pim)) (fst (pixels pim)).
Proof.
  unfold image. apply has_shape_rev.
  set (img := map _ (grid minBD maxBD (fst (pixels pim)))).
  pose proof (has_shape_transpose (snd (pixels pim)) img) as H.
  replace (length img) with (fst (pixels pim)) in H
    by (unfold img; rewrite length_map, length_grid; reflexivity).
  exact H.
Qed.

Lemma transform_shapes norm_cdf pim diagrams :
  length (transform norm_cdf pim diagrams) = length diagrams /\
  Forall (fun img => has_shape img (snd (pixels pim)) (fst (pixels pim)))
         (transform norm_cdf pim diagrams).
Proof.
  unfold transform. split.
  - rewrite !length_map. reflexivity.
  - rewrite Forall_map. apply Forall_forall. intros l _. apply has_shape_image.
Qed.

End Images.

Import Persim.

(** C7.  Every persistence image has the resolution given at
    construction, for every non-empty collection of diagrams (the
    description the model follows says nothing about an empty one):
    with [pixels = (20, 20)] there is one image for each diagram, each
    a 20 by 20 grid, and [imgs_array] has one row for each diagram,
    row [i] being the flattening of image [i], a vector of 400
    numbers; with [pixels = [30, 30]] each image is a 30 by 30 grid
    and each row of [imgs_array] the flattening of its image, a vector
    of 900 numbers. *)
Theorem persistence_images_resolution
        (norm_cdf : R -> R -> R -> R) (spread : R) (diagrams : list array2) :
  diagrams <> [] ->
  let imgs20 := transform norm_cdf {| pixels := (20, 20)%nat; spread := spread |}
                          diagrams in
  let imgs30 := transform norm_cdf {| pixels := (30, 30)%nat; spread := spread |}
                          diagrams in
  length imgs20 = length diagrams /\
  length (imgs_array imgs20) = length diagrams /\
  (forall i, (i < length diagrams)%nat ->
             has_shape (nth i imgs20 []) 20 20 /\
             nth i (imgs_array imgs20) [] = flatten (nth i imgs20 []) /\
             length (nth i (imgs_array imgs20) []) = 400%nat) /\
  length imgs30 = length diagrams /\
  length (imgs_array imgs30) = length diagrams /\
  (forall i, (i < length diagrams)%nat ->
             has_shape (nth i imgs30 []) 30 30 /\
             nth i (imgs_array imgs30) [] = flatten (nth i imgs30 []) /\
             length (nth i (imgs_array imgs30) []) = 900%nat).
Proof.
  intros _ imgs20 imgs30.
  destruct (transform_shapes norm_cdf {| pixels := (20, 20)%nat; spread := spread |}
                             diagrams) as [L20 S20].
  destruct (transform_shapes norm_cdf {| pixels := (30, 30)%nat; spread := spread |}
                             diagrams) as [L30 S30].
  simpl in S20, S30. fold imgs20 in L20, S20. fold imgs30 in L30, S30.
  assert (Hrow : forall imgs i, nth i (imgs_array imgs) [] = flatten (nth i imgs []))
    by (intros imgs i; exact (map_nth flatten imgs [] i)).
  rewrite Forall_nth in S20, S30.
  split; [exact L20|].
  split; [unfold imgs_array; rewrite length_map; exact L20|].
  split.
  { intros i Hi. rewrite <- L20 in Hi. pose proof (S20 i [] Hi) as Himg.
    split; [exact Himg|]. split; [apply Hrow|].
    rewrite Hrow. apply (length_flatten _ 20 20 Himg). }
  split; [exact L30|].
  split; [unfold imgs_array; rewrite length_map; exact L30|].
  intros i Hi. rewrite <- L30 in Hi. pose proof (S30 i [] Hi) as Himg.
  split; [exact Himg|]. split; [apply Hrow|].
  rewrite Hrow. apply (length_flatten _ 30 30 Himg).
Qed.

Lemma persistence_images_resolution_witness :
  length (imgs_array (transform (fun _ _ _ => 0)
                                {| pixels := (20, 20)%nat; spread := 1 |}
                                [[[0; 1]]])) = 1%nat /\
  length (nth 0 (imgs_array (transform (fun _ _ _ => 0)
                                       {| pixels := (20, 20)%nat; spread := 1 |}
                                       [[[0; 1]]])) []) = 400%nat /\
  length (nth 0 (imgs_array (transform (fun _ _ _ => 0)
                                       {| pixels := (30, 30)%nat; spread := 1 |}
                                       [[[0; 1]]])) []) = 900%nat.
Proof.
  destruct (persistence_images_resolution (fun _ _ _ => 0) 1 [[[0; 1]]]
              ltac:(discriminate))
    as (_ & H20 & Hrow20 & _ & _ & Hrow30).
  split; [exact H20|]. split.
  - apply (Hrow20 0%nat). simpl. lia.
  - apply (Hrow30 0%nat). simpl. lia.
Defined.

(* ================================================================== *)
(** * Part III: more about the code *)
(* ================================================================== *)

(** ** Where the generated points lie *)

Section Entries.
Import Py Np Np2.
Context {RS : RandomState}.

Lemma returns_draws_all draw n (P : R -> Prop) :
  returns draw P ->
  returns (draws draw n) (fun l => length l = n /\ Forall P l).
Proof.
  intros Hd. induction n as [|n IH]; simpl.
  - apply returns_ret. split; [reflexivity | constructor].
  - eapply returns_bind; [exact Hd|]. intros x Hx.
    eapply returns_bind; [exact IH|]. intros xs [Hlen Hxs].
    apply returns_ret. split; [simpl; congruence | constructor; assumption].
Qed.

Lemma returns_draws2_all draw n m (P : R -> Prop) :
  returns draw P ->
  returns (draws2 draw n m)
          (fun a => has_shape a n m /\ Forall (Forall P) a).
Proof.
  intros Hd. induction n as [|n IH]; simpl.
  - apply returns_ret. repeat split; constructor.
  - eapply returns_bind; [apply (returns_draws_all draw m P Hd)|].
    intros r [Hr Pr].
    eapply returns_bind; [exact IH|]. intros rs [[Hlen Hrows] Prs].
    apply returns_ret. repeat split.
    + simpl. congruence.
    + constructor; assumption.
    + constructor; assumption.
Qed.

Lemma size_arg_inv n k : size_arg n = Ok k -> (0 <= n)%Z /\ k = Z.to_nat n.
Proof.
  unfold size_arg. destruct (Z.ltb_spec n 0) as [Hneg|Hpos]; [discriminate|].
  intros E. injection E as <-. split; [assumption | reflexivity].
Qed.

Lemma random2_inv n m w a w' :
  random_random2 n m w = (Ok a, w') ->
  (0 <= n)%Z /\ (0 <= m)%Z /\ has_shape a (Z.to_nat n) (Z.to_nat m) /\
  Forall (Forall (fun u => 0 <= u < 1)) a /\ same_disk w w'.
Proof.
  intros H. unfold random_random2 in H.
  lift_inv H as k Ek. lift_inv H as l El.
  apply size_arg_inv in Ek, El. destruct Ek as [Hn ->], El as [Hm ->].
  destruct (returns_inv _ _ _ _ _
              (returns_draws2_all draw_uniform (Z.to_nat n) (Z.to_nat m) _
                                  returns_draw_uniform) H) as [[Hs Hu] Hd].
  repeat split; try assumption; apply Hs || apply Hd.
Qed.

Lemma randn2_inv n m w a w' :
  random_randn2 n m w = (Ok a, w') ->
  (0 <= n)%Z /\ (0 <= m)%Z /\ has_shape a (Z.to_nat n) (Z.to_nat m) /\
  same_disk w w'.
Proof.
  intros H. pose proof H as H'. unfold random_randn2 in H.
  lift_inv H as k Ek. lift_inv H as l El.
  apply size_arg_inv in Ek, El. destruct Ek as [Hn _], El as [Hm _].
  destruct (returns_inv _ _ _ _ _ (returns_randn2 n m Hn Hm) H') as [Hs Hd].
  repeat split; try assumption; apply Hs || apply Hd.
Qed.

Lemma Forall2_scale2 c a (P Q : R -> Prop) :
  (forall x, P x -> Q (c * x)) ->
  Forall (Forall P) a -> Forall (Forall Q) (scale2 c a).
Proof.
  intros HPQ Ha. unfold scale2, scale1. rewrite Forall_map.
  eapply Forall_impl; [|exact Ha]. intros row Hrow. rewrite Forall_map.
  eapply Forall_impl; [|exact Hrow]. exact HPQ.
Qed.

End Entries.

Section Sphere.
Import Py Np Np2 Vectorizing.
Context {RS : RandomState}.

Local Abbreviation sumsq v := (fold_right Rplus 0 (map (fun x => x * x) v)).

Lemma sumsq_nonneg v : 0 <= sumsq v.
Proof.
  induction v as [|x v IH]; simpl; [lra|]. nra.
Qed.

Lemma sumsq_scale k v : sumsq (map (Rmult k) v) = k * k * sumsq v.
Proof.
  induction v as [|x v IH]; simpl; [ring|]. rewrite IH. ring.
Qed.

Lemma sumsq_ge v x : In x v -> x * x <= sumsq v.
Proof.
  induction v as [|x0 v IH]; intros H; [destruct H|]. simpl.
  pose proof (sumsq_nonneg v) as Hv.
  destruct H as [->|H]; [nra|]. specialize (IH H). nra.
Qed.

Lemma norm_nonneg v : 0 <= norm v.
Proof. unfold norm. apply sqrt_pos. Qed.

Lemma norm_sqr v : norm v * norm v = sumsq v.
Proof. unfold norm. apply sqrt_sqrt, sumsq_nonneg. Qed.

(** An entry of a point is at most the norm of the point. *)
Lemma entry_le_norm v x : In x v -> - norm v <= x <= norm v.
Proof.
  intros H. pose proof (sumsq_ge v x H) as Hx.
  rewrite <- norm_sqr in Hx. pose proof (norm_nonneg v) as Hn. nra.
Qed.

Lemma nth_div_row row v j :
  (j < length row)%nat -> (j < length v)%nat ->
  nth j (map (fun xy => fst xy / snd xy) (combine row v)) 0 =
  nth j row 0 / nth j v 0.
Proof.
  revert j v. induction row as [|a row IH]; intros [|j] [|b v] Hr Hv;
    simpl in *; try lia; [reflexivity|]. apply IH; lia.
Qed.

Lemma column_div_rows vec v j n :
  Forall (fun row => length row = n) vec -> length v = n -> (j < n)%nat ->
  column (div_rows vec v) j = map (fun x => / nth j v 0 * x) (column vec j).
Proof.
  intros Hrows Hv Hj. unfold column, div_rows. rewrite !map_map.
  apply map_ext_in. intros row Hrow.
  rewrite Forall_forall in Hrows. specialize (Hrows row Hrow).
  rewrite nth_div_row by lia. unfold Rdiv. ring.
Qed.

Lemma nth_transpose ncols a j :
  (j < ncols)%nat -> nth j (transpose ncols a) [] = column a j.
Proof.
  intros Hj. unfold transpose.
  rewrite (nth_indep _ [] (column a 0)) by (rewrite length_map, length_seq; lia).
  rewrite map_nth, seq_nth by lia. reflexivity.
Qed.

Lemma nth_scale2 c a j : nth j (scale2 c a) [] = scale1 c (nth j a []).
Proof. exact (map_nth (scale1 c) a [] j). Qed.

(** The point number [j] that [sample_spherical] builds from the
    normal draws [vec]. *)
Lemma sample_point vec scale n j :
  Forall (fun row => length row = n) vec -> (j < n)%nat ->
  nth j (scale2 scale (transpose n (div_rows vec (norm_axis0 n vec)))) [] =
  map (Rmult (scale * / norm (column vec j))) (column vec j).
Proof.
  intros Hrows Hj. rewrite nth_scale2, nth_transpose by exact Hj.
  rewrite (column_div_rows vec _ j n Hrows (length_norm_axis0 n vec) Hj).
  unfold scale1. rewrite map_map.
  replace (nth j (norm_axis0 n vec) 0) with (norm (column vec j)).
  - apply map_ext. intros x. ring.
  - unfold norm_axis0.
    rewrite (nth_indep _ 0 ((fun j => norm (column vec j)) 0%nat))
      by (rewrite length_map, length_seq; lia).
    rewrite (map_nth (fun j => norm (column vec j))), seq_nth by lia.
    reflexivity.
Qed.

End Sphere.

Section Boxes.
Import Py Np Np2 Vectorizing.
Context {RS : RandomState}.

Lemma norm_pos v : norm v <> 0 -> 0 < norm v.
Proof. pose proof (norm_nonneg v). lra. Qed.

(** A column of draws that are not zero is not the zero vector. *)
Lemma norm_nonzero v :
  v <> [] -> Forall (fun x => x <> 0) v -> norm v <> 0.
Proof.
  intros Hv Hall Hnorm. destruct v as [|x v]; [congruence|].
  inversion Hall as [|? ? Hx _]; subst.
  pose proof (sumsq_ge (x :: v) x (or_introl eq_refl)) as H.
  rewrite <- norm_sqr, Hnorm in H. nra.
Qed.

Lemma add1_entries (P Q T : R -> Prop) a b c :
  (forall x y, P x -> Q y -> T (x + y)) ->
  add1 a b = Ok c -> Forall P a -> Forall Q b -> Forall T c.
Proof.
  intros HT H Ha Hb. unfold add1 in H.
  destruct (Nat.eqb _ _).
  - injection H as <-. apply Forall_map. apply Forall_forall.
    intros [x y] Hxy. simpl.
    rewrite Forall_forall in Ha, Hb.
    apply HT; [apply Ha; exact (in_combine_l _ _ _ _ Hxy)
              |apply Hb; exact (in_combine_r _ _ _ _ Hxy)].
  - destruct a as [|x [|x' a]].
    + destruct b as [|y [|y' b]]; try discriminate.
      injection H as <-. constructor.
    + injection H as <-. rewrite Forall_map.
      inversion Ha as [|? ? Px _]; subst.
      eapply Forall_impl; [|exact Hb]. intros y Qy. apply HT; assumption.
    + destruct b as [|y [|y' b]]; try discriminate.
      injection H as <-.
      change (Forall T (map (fun z => z + y) (x :: x' :: a))).
      rewrite Forall_map.
      inversion Hb as [|? ? Qy _]; subst.
      eapply Forall_impl; [|exact Ha]. intros z Pz. apply HT; assumption.
Qed.

Lemma add_rows_entries (P Q T : R -> Prop) a : forall b c,
  (forall x y, P x -> Q y -> T (x + y)) ->
  add_rows a b = Ok c ->
  Forall (Forall P) a -> Forall (Forall Q) b -> Forall (Forall T) c.
Proof.
  induction a as [|r a IH]; intros b c HT H Ha Hb; simpl in H.
  - injection H as <-. constructor.
  - destruct b as [|s b]; [injection H as <-; constructor|].
    destruct (add1 r s) as [rs|e] eqn:Ers; [|discriminate].
    destruct (add_rows a b) as [t|e] eqn:Et; [|discriminate].
    injection H as <-.
    inversion Ha; inversion Hb; subst. constructor.
    + eapply add1_entries; eassumption.
    + eapply IH; eassumption.
Qed.

Lemma Forall_repeat {A : Type} (P : A -> Prop) x n :
  P x -> Forall P (repeat x n).
Proof. intros H. induction n; simpl; constructor; assumption. Qed.

Lemma add2_entries (P Q T : R -> Prop) a b c :
  (forall x y, P x -> Q y -> T (x + y)) ->
  add2 a b = Ok c ->
  Forall (Forall P) a -> Forall (Forall Q) b -> Forall (Forall T) c.
Proof.
  intros HT H Ha Hb. unfold add2 in H.
  destruct (Nat.eqb _ _).
  - eapply add_rows_entries; eassumption.
  - destruct a as [|r [|r' a]].
    + destruct b as [|s [|s' b]]; try discriminate.
      simpl in H. injection H as <-. constructor.
    + eapply add_rows_entries; [exact HT | exact H | | exact Hb].
      apply Forall_repeat. inversion Ha; assumption.
    + destruct b as [|s [|s' b]]; try discriminate.
      eapply add_rows_entries; [exact HT | exact H | exact Ha |].
      apply Forall_repeat. inversion Hb; assumption.
Qed.

End Boxes.

(** ** Main results: where the generated points lie *)

Import Py Np Np2 Vectorizing.



Section Windows.
Import Py Np Np2 Vectorizing.
Context {RS : RandomState}.

(** The generator never draws the normal value [0]. *)
Hypothesis never_zero : forall g, fst (next_normal g) <> 0.

Lemma returns_draw_nonzero : returns draw_normal (fun x => x <> 0).
Proof.
  intros w. unfold draw_normal. pose proof (never_zero (rng w)) as Hx.
  destruct (next_normal (rng w)) as [x g].
  exists x, (set_rng w g). repeat split. exact Hx.
Qed.

Lemma randn2_nonzero n m w a w' :
  random_randn2 n m w = (Ok a, w') -> Forall (Forall (fun x => x <> 0)) a.
Proof.
  intros H. unfold random_randn2 in H.
  lift_inv H as k Ek. lift_inv H as l El.
  apply (returns_inv _ _ _ _ _
           (returns_draws2_all draw_normal k l _ returns_draw_nonzero) H).
Qed.

Lemma sample_spherical_entries w npoints scale ndim a w' :
  0 <= scale ->
  sample_spherical npoints scale ndim w = (Ok a, w') ->
  Forall (Forall (fun x => - scale <= x <= scale)) a.
Proof.
  intros Hs H. unfold sample_spherical in H. bind_inv H as vec w1 E.
  apply ret_inv_ok in H. destruct H as [-> _].
  destruct (randn2_inv _ _ _ _ _ E) as (_ & _ & [_ Hrows] & _).
  pose proof (randn2_nonzero _ _ _ _ _ E) as Hnz.
  set (n := Z.to_nat npoints) in *.
  apply Forall_nth. intros j d Hj.
  assert (Hjn : (j < n)%nat).
  { unfold scale2, transpose in Hj.
    rewrite !length_map, length_seq in Hj. exact Hj. }
  rewrite (nth_indep _ d []) by exact Hj.
  rewrite sample_point by assumption.
  rewrite Forall_map, Forall_forall. intros x Hx.
  set (col := column vec j) in *.
  assert (Hcol : Forall (fun x => x <> 0) col).
  { unfold col, column. rewrite Forall_map.
    rewrite Forall_forall in Hnz, Hrows. apply Forall_forall.
    intros row Hrow. specialize (Hnz row Hrow). rewrite Forall_forall in Hnz.
    apply Hnz, nth_In. rewrite (Hrows row Hrow). exact Hjn. }
  assert (Hc : norm col <> 0).
  { apply norm_nonzero; [|exact Hcol]. intros Hnil. rewrite Hnil in Hx.
    destruct Hx. }
  pose proof (norm_pos col Hc) as Hpos.
  pose proof (entry_le_norm col x Hx) as Hle.
  pose proof (Rinv_0_lt_compat _ Hpos) as Hinv.
  pose proof (Rinv_r _ Hc) as Hone.
  assert (Ht : -1 <= / norm col * x <= 1) by (split; nra).
  replace (scale * / norm col * x) with (scale * (/ norm col * x)) by ring.
  split; nra.
Qed.

Lemma noise_entries w N scale ndim a w' :
  0 < scale ->
  noise N scale ndim w = (Ok a, w') ->
  Forall (Forall (fun x => 0 <= x < scale)) a.
Proof.
  intros Hs H. unfold noise in H. bind_inv H as rnd w1 E.
  apply ret_inv_ok in H. destruct H as [-> _].
  destruct (random2_inv _ _ _ _ _ E) as (_ & _ & _ & Hu & _).
  eapply Forall2_scale2; [|exact Hu]. intros x Hx. cbv beta in *.
  destruct Hx as [Hx0 Hx1]. split; nra.
Qed.

Lemma noisy_sphere_entries w npoints scale noiseLevel offset ndim a w' :
  0 <= scale -> 0 <= noiseLevel ->
  noisy_sphere npoints scale noiseLevel offset ndim w = (Ok a, w') ->
  Forall (Forall (fun x => offset - scale <= x
                           <= offset + scale + scale * noiseLevel)) a.
Proof.
  intros Hs Hl H. unfold noisy_sphere in H.
  bind_inv H as sphere w1 E1. bind_inv H as rnd w2 E2.
  lift_inv H as sum E3. lift_inv H as one E4. lift_inv H as out E5.
  apply ret_inv_ok in H. destruct H as [-> _].
  pose proof (sample_spherical_entries _ _ _ _ _ _ Hs E1) as Hsphere.
  destruct (random2_inv _ _ _ _ _ E2) as (_ & _ & _ & Hu & _).
  assert (Hrnd : Forall (Forall (fun x => 0 <= x <= scale * noiseLevel))
                        (scale2 (scale * noiseLevel) rnd)).
  { assert (Hc : 0 <= scale * noiseLevel) by nra.
    revert Hc. generalize (scale * noiseLevel). intros c Hc.
    eapply Forall2_scale2; [|exact Hu]. intros x Hx. cbv beta in *.
    destruct Hx as [Hx0 Hx1]. split; nra. }
  assert (Hsum : Forall (Forall (fun x => - scale <= x
                                          <= scale + scale * noiseLevel)) sum).
  { eapply add2_entries; [|exact E3|exact Hsphere|exact Hrnd].
    intros x y Hx Hy. cbv beta in *. lra. }
  unfold ones in E4. destruct (size_arg ndim) as [k|e]; [|discriminate].
  injection E4 as <-.
  unfold add2_1 in E5.
  eapply (add2_entries _ (fun x => x = offset)); [|exact E5|exact Hsum|].
  - intros x y Hx Hy. cbv beta in *. lra.
  - constructor; [|constructor]. unfold scale1. rewrite Forall_map.
    apply Forall_repeat. ring.
Qed.

Lemma comprehension_inv {A B : Type} (l : list A) (f : A -> M B)
      (P : B -> Prop) :
  (forall a w b w', f a w = (Ok b, w') -> P b) ->
  forall w bs w', comprehension l f w = (Ok bs, w') -> Forall P bs.
Proof.
  intros Hf. induction l as [|a l IH]; intros w bs w' H; simpl in H.
  - apply ret_inv_ok in H. destruct H as [-> _]. constructor.
  - bind_inv H as b w1 E. bind_inv H as bs' w2 E'.
    apply ret_inv_ok in H. destruct H as [-> _].
    constructor; [exact (Hf _ _ _ _ E) | exact (IH _ _ _ E')].
Qed.

Lemma concatenate2_inv a b c : concatenate2 a b = Ok c -> c = a ++ b.
Proof.
  unfold concatenate2. destruct a as [|r a], b as [|s b];
    try (intros H; injection H as <-; reflexivity).
  destruct (Nat.eqb _ _); [|discriminate].
  intros H; injection H as <-; reflexivity.
Qed.

Lemma dataset_cell_entries w total_samples npoints cnl snr ns cs datas labels w' :
  0 < ns -> 0 <= cs -> 0 <= cnl -> cs * (1 + cnl) <= 0.4 * ns ->
  dataset_cell total_samples npoints cnl snr ns cs w = (Ok (datas, labels), w') ->
  Forall (Forall (Forall (fun x => 0 <= x < ns))) datas.
Proof.
  intros Hns Hcs Hcnl Hfit H. unfold dataset_cell in H.
  bind_inv H as just_noise w1 E1. bind_inv H as with_circle w2 E2.
  lift_inv H as zs E3. apply ret_inv_ok in H. destruct H as [H _].
  injection H as -> _. simpl. apply Forall_app. split.
  - refine (comprehension_inv _ _ _ _ _ _ _ E1).
    intros _ w0 d w0' Hd. exact (noise_entries _ _ _ _ _ _ Hns Hd).
  - refine (comprehension_inv _ _ _ _ _ _ _ E2).
    intros _ w0 d w0' Hd.
    bind_inv Hd as u w3 Eu. bind_inv Hd as circle w4 Ec.
    bind_inv Hd as rest w5 Er. apply lift_inv_ok in Hd. destruct Hd as [Hd _].
    apply concatenate2_inv in Hd. subst d.
    destruct (returns_inv _ _ _ _ _ returns_draw_uniform Eu) as [Hu _].
    cbv beta in Hu.
    apply Forall_app. split; [|exact (noise_entries _ _ _ _ _ _ Hns Er)].
    pose proof (noisy_sphere_entries _ _ _ _ _ _ _ _ Hcs Hcnl Ec) as Hbox.
    eapply Forall_impl; [|exact Hbox]. intros row Hrow.
    eapply Forall_impl; [|exact Hrow]. intros x Hx. cbv beta in Hx.
    split; nra.
Qed.

End Windows.

Section DatasetEdges.
Import Py Np Np2 Vectorizing.
Context {RS : RandomState}.

Lemma int_IZR z : int (IZR z) = z.
Proof.
  unfold int. destruct (Rle_dec 0 (IZR z)); [apply ZfloorZ|].
  apply Zceil_eq. lra.
Qed.

Lemma comprehension_cons_raise {A B : Type} (a : A) t (f : A -> M B) w e w1 :
  f a w = (Raise e, w1) -> comprehension (a :: t) f w = (Raise e, w1).
Proof. intros H. simpl. apply bind_raise. exact H. Qed.

Lemma range_cons n : (0 < n)%Z -> exists t, range n = 0%Z :: t.
Proof.
  intros Hn. unfold range, range2.
  destruct (Z.to_nat (n - 0)) as [|k] eqn:E; [lia|].
  eexists. simpl. reflexivity.
Qed.

Lemma noise_negative N scale ndim w :
  (N < 0)%Z -> noise N scale ndim w = (Raise ValueError, w).
Proof.
  intros HN. unfold noise, random_random2, size_arg.
  destruct (Z.ltb_spec N 0); [reflexivity | lia].
Qed.

Lemma dataset_cell_raises w total_samples npoints cnl snr ns cs :
  (2 <= total_samples)%Z ->
  (npoints < int (snr * IZR npoints))%Z ->
  fst (dataset_cell total_samples npoints cnl snr ns cs w) = Raise ValueError.
Proof.
  intros Htotal Hsnr. unfold dataset_cell.
  change (IZR total_samples / 2) with (IZR total_samples / IZR 2).
  rewrite int_quotient by lia.
  destruct (range_cons (total_samples / 2)) as (t & Et).
  { apply Z.div_str_pos. lia. }
  destruct (Z.ltb_spec npoints 0) as [Hneg|Hpos].
  - rewrite Et.
    rewrite (bind_raise _ _ _ _ _
               (comprehension_cons_raise 0%Z t _ w _ _
                  (noise_negative npoints ns 2 w Hneg))).
    reflexivity.
  - destruct (returns_comprehension (range (total_samples / 2))
                (fun _ => noise npoints ns 2) _
                (fun _ => returns_noise npoints ns 2 Hpos) w)
      as (just_noise & w1 & E1 & _).
    rewrite (bind_ok _ _ _ _ _ E1). rewrite Et.
    destruct (returns_draw_uniform w1) as (u & w2 & Eu & _).
    destruct (returns_noisy_sphere (int (snr * IZR npoints)) cs cnl
                ((0.2 * u + 0.4) * ns) 2 ltac:(lia) ltac:(lia) w2)
      as (circle & w3 & Ec & _).
    erewrite bind_raise; [reflexivity|].
    apply comprehension_cons_raise.
    unfold random_random0. rewrite (bind_ok _ _ _ _ _ Eu).
    rewrite (bind_ok _ _ _ _ _ Ec).
    apply bind_raise. apply noise_negative. lia.
Qed.

Lemma counter_never_zero :
  forall g : @rng_state Demo.counter, fst (@next_normal Demo.counter g) <> 0.
Proof. intros g. simpl. destruct (Nat.even g); lra. Qed.

End DatasetEdges.



(** X5.  When [snr * npoints] is a whole number [k] between [0] and
    [npoints] (as for the notebook's [0.25 * 400]), the data set cell
    returns; it has one label for each of [total_samples] but two
    samples for each of [int(total_samples/2)], so the numbers of
    samples and of labels agree exactly when [total_samples] is
    even. *)
Theorem dataset_cell_counts (RS : RandomState) (w : world)
        (total_samples npoints k : Z)
        (circle_noise_level snr noise_scale circle_scale : R) :
  (0 <= total_samples)%Z ->
  snr * IZR npoints = IZR k ->
  (0 <= k <= npoints)%Z ->
  exists datas labels w',
    dataset_cell total_samples npoints circle_noise_level snr noise_scale
                 circle_scale w = (Ok (datas, labels), w') /\
    length datas = (2 * Z.to_nat (total_samples / 2))%nat /\
    length labels = Z.to_nat total_samples /\
    (length datas = length labels <-> Z.even total_samples = true).
Proof.
  intros Htotal Hk Hsnr.
  assert (Hint : (0 <= int (snr * IZR npoints) <= npoints)%Z)
    by (rewrite Hk, int_IZR; exact Hsnr).
  destruct (dataset_cell_spec total_samples npoints circle_noise_level snr
              noise_scale circle_scale Htotal Hint w)
    as ([datas labels] & w' & E & _ & Hlen & _ & _ & _ & Hlab & _).
  simpl in Hlen, Hlab. exists datas, labels, w'.
  split; [exact E|]. split; [exact Hlen|]. split; [exact Hlab|].
  unfold array1, array2 in *. rewrite Hlen, Hlab.
  pose proof (Zmod_even total_samples) as Hmod.
  destruct (Z.even total_samples); split; intros H;
    try discriminate; try reflexivity;
    zify; Z.div_mod_to_equations; lia.
Qed.

Lemma dataset_cell_counts_witness :
  exists datas labels w',
    dataset_cell 5 4 0.4 0.25 150 30 Demo.full_disk = (Ok (datas, labels), w') /\
    length datas = 4%nat /\ length labels = 5%nat.
Proof.
  destruct (dataset_cell_counts Demo.counter Demo.full_disk 5 4 1 0.4 0.25 150 30)
    as (datas & labels & w' & E & Hd & Hl & _).
  { lia. }
  { lra. }
  { lia. }
  exists datas, labels, w'. split; [exact E|]. split; [exact Hd | exact Hl].
Defined.

(** X6.  When the number of circle points [int(snr*npoints)] exceeds
    [npoints], the data set cell raises [ValueError] (the rest of the
    sample would have a negative number of points). *)
Theorem dataset_cell_snr_too_large (RS : RandomState) (w : world)
        (total_samples npoints : Z)
        (circle_noise_level snr noise_scale circle_scale : R) :
  (2 <= total_samples)%Z ->
  (npoints < int (snr * IZR npoints))%Z ->
  fst (dataset_cell total_samples npoints circle_noise_level snr noise_scale
                    circle_scale w) = Raise ValueError.
Proof. apply dataset_cell_raises. Qed.

Lemma dataset_cell_snr_too_large_witness :
  fst (dataset_cell 200 400 0.4 2 150 30 Demo.full_disk) = Raise ValueError.
Proof.
  apply (dataset_cell_snr_too_large Demo.counter); [lia|].
  replace (2 * IZR 400) with (IZR 800) by lra. rewrite int_IZR. lia.
Defined.

(** ** Indices, labels and shapes in the cells around the generators *)

Section Indices.
Import Py Np Np2.

Lemma index_nonneg {A : Type} (l : list A) (i : Z) d :
  (0 <= i < Z.of_nat (length l))%Z -> index l i = Ok (nth (Z.to_nat i) l d).
Proof.
  intros Hi. unfold index. destruct (Z.ltb_spec i 0); [lia|].
  apply getitem_ok. lia.
Qed.

Lemma index_from_end {A : Type} (l : list A) (i : Z) d :
  (0 < i <= Z.of_nat (length l))%Z ->
  index l (- i) = Ok (nth (length l - Z.to_nat i) l d).
Proof.
  intros Hi. unfold index. destruct (Z.ltb_spec (- i) 0); [|lia].
  destruct (Z.ltb_spec (- i + Z.of_nat (length l)) 0); [lia|].
  replace (Z.to_nat (- i + Z.of_nat (length l)))
    with (length l - Z.to_nat i)%nat by lia.
  apply getitem_ok. lia.
Qed.

Lemma map_result_ok {A B : Type} (f : A -> result B) (g : A -> B) l :
  (forall a, In a l -> f a = Ok (g a)) -> map_result f l = Ok (map g l).
Proof.
  induction l as [|a l IH]; intros H; simpl; [reflexivity|].
  rewrite (H a (or_introl eq_refl)), IH; [reflexivity|].
  intros a' Ha'. apply H. right. exact Ha'.
Qed.

Lemma chunks_concat a : forall n m,
  has_shape a n m -> chunks n m (concat a) = a.
Proof.
  induction a as [|row a IH]; intros n m [Hlen Hrows]; simpl in Hlen; subst n.
  - reflexivity.
  - inversion Hrows as [|? ? Hrow Hrest]; subst. simpl.
    rewrite firstn_app, Nat.sub_diag, firstn_all, firstn_O, app_nil_r.
    rewrite skipn_app, Nat.sub_diag, skipn_all, skipn_O. simpl.
    f_equal. apply IH. split; [reflexivity | exact Hrest].
Qed.

End Indices.

Import Vectorizing2 Takens Takens2.

(** X7.  The cells that plot one diagram of each class show
    [items[random_sample]] and [items[-random_sample]] for a draw
    [random_sample] below 50.  For a list of at least 50 items the
    cell returns; the right-hand diagram is the one at position
    [len(items) - random_sample] when the draw is positive, and when
    the draw is [0] it is [items[0]], the diagram already shown on
    the left. *)
Theorem plotted_pair_positions (RS : RandomState) (w : world) (A : Type)
        (items : list A) (d : A) :
  (50 <= length items)%nat ->
  exists random_sample left right w',
    plotted_pair items w = (Ok (left, right), w') /\
    (random_sample < 50)%nat /\
    left = nth random_sample items d /\
    (random_sample = 0%nat -> right = left) /\
    ((0 < random_sample)%nat ->
     right = nth (length items - random_sample) items d).
Proof.
  intros Hlen. unfold plotted_pair.
  destruct (returns_randint 50 ltac:(lia) w) as (c & w' & E & _ & Hc).
  cbv beta in Hc. exists (Z.to_nat c).
  rewrite (bind_ok _ _ _ _ _ E).
  rewrite (bind_lift_ok _ _ _ _ (index_nonneg items c d ltac:(lia))).
  destruct (Z.eq_dec c 0) as [->|Hpos].
  - rewrite (bind_lift_ok _ _ _ _ (index_nonneg items (- 0) d ltac:(lia))).
    eexists _, _, w'. split; [reflexivity|]. simpl.
    repeat split; try lia.
  - rewrite (bind_lift_ok _ _ _ _ (index_from_end items c d ltac:(lia))).
    eexists _, _, w'. split; [reflexivity|].
    repeat split; try lia.
Qed.

Lemma plotted_pair_positions_witness :
  exists random_sample left right w',
    plotted_pair (seq 0 50) Demo.full_disk = (Ok (left, right), w') /\
    (random_sample < 50)%nat /\
    left = nth random_sample (seq 0 50) 0%nat /\
    (random_sample = 0%nat -> right = left).
Proof.
  destruct (plotted_pair_positions Demo.counter Demo.full_disk nat (seq 0 50)
                                   0%nat)
    as (r & left & right & w' & E & Hr & Hl & H0 & _).
  { rewrite length_seq. lia. }
  exists r, left, right, w'. repeat split; assumption.
Defined.

(** X8.  The labels of the plans: when the loader returns,
    [all_barcodes] and [y] have 430 entries each; the first 242
    entries are the barcodes of [dem_barcodes] and have label [0], the
    other 188 are those of [rep_barcodes] and have label [1]. *)
Theorem plan_labels (RS : RandomState) (w : world)
        (dem rep : list array2) (w' : world) :
  load_barcodes w = (Ok (dem, rep), w') ->
  length (all_barcodes dem rep) = 430%nat /\
  length (y dem rep) = 430%nat /\
  forall i, (i < 430)%nat ->
            ((i < 242)%nat ->
             nth i (y dem rep) 0%Z = 0%Z /\
             nth i (all_barcodes dem rep) [] = nth i dem []) /\
            ((242 <= i)%nat ->
             nth i (y dem rep) 0%Z = 1%Z /\
             nth i (all_barcodes dem rep) [] = nth (i - 242) rep []).
Proof.
  intros H.
  destruct (load_barcodes_counts _ _ _ _ H) as (_ & Hdem & Hrep & _).
  unfold all_barcodes, y. rewrite !length_app, !repeat_length, Hdem, Hrep.
  split; [reflexivity|]. split; [reflexivity|].
  intros i Hi. split; intros Hcase.
  - rewrite !app_nth1 by (rewrite ?repeat_length; lia).
    split; [apply nth_repeat | reflexivity].
  - rewrite !app_nth2 by (rewrite ?repeat_length; lia).
    rewrite repeat_length, Hdem. split; [|reflexivity].
    rewrite (nth_indep _ 0%Z 1%Z) by (rewrite repeat_length; lia).
    apply nth_repeat.
Qed.

Lemma plan_labels_witness :
  exists dem rep w',
    load_barcodes Demo.full_disk = (Ok (dem, rep), w') /\
    length (y dem rep) = 430%nat /\
    nth 241 (y dem rep) 0%Z = 0%Z /\ nth 242 (y dem rep) 0%Z = 1%Z.
Proof.
  pose proof (load_barcodes_run (RS := Demo.counter)
                (fun _ => Demo.csv_table) Demo.full_disk) as E.
  eexists _, _, _. split.
  - apply E. intros k Hk. split; [reflexivity|].
    unfold Demo.csv_table. rewrite repeat_length. lia.
  - destruct (plan_labels Demo.counter Demo.full_disk _ _ _
                (E ltac:(intros k Hk; split;
                         [reflexivity
                         |unfold Demo.csv_table; rewrite repeat_length; lia])))
      as (_ & Hy & Hi).
    split; [exact Hy|]. split.
    + apply (Hi 241%nat); lia.
    + apply (Hi 242%nat); lia.
Defined.

(** X9.  Flattening an image and reshaping the vector back to the
    shape of the image returns the image; reshaping it to a shape
    with another number of entries raises [ValueError]. *)
Theorem reshape_flatten (img : array2) (n m : nat) :
  has_shape img n m ->
  reshape [flatten img] n m = Ok img /\
  forall n' m', (n' * m' <> n * m)%nat ->
                reshape [flatten img] n' m' = Raise ValueError.
Proof.
  intros Himg. unfold reshape.
  assert (E : flatten [flatten img] = concat img).
  { unfold flatten. simpl. apply app_nil_r. }
  rewrite E. pose proof (length_flatten img n m Himg) as Hlen.
  unfold flatten in Hlen. rewrite Hlen. split.
  - rewrite Nat.eqb_refl. f_equal. apply chunks_concat. exact Himg.
  - intros n' m' Hne. destruct (Nat.eqb_spec (n * m) (n' * m')); [lia|].
    reflexivity.
Qed.

Lemma reshape_flatten_witness :
  reshape [flatten [[1; 2; 3]; [4; 5; 6]]] 2 3 = Ok [[1; 2; 3]; [4; 5; 6]] /\
  reshape [flatten [[1; 2; 3]; [4; 5; 6]]] 2 2 = Raise ValueError.
Proof.
  destruct (reshape_flatten [[1; 2; 3]; [4; 5; 6]] 2 3) as [Hok Hbad].
  { split; [reflexivity | repeat constructor]. }
  split; [exact Hok | apply Hbad; lia].
Defined.

(** ** The cells of the Takens notebook *)

Section Positions.
Import Py Np Np2.

Local Abbreviation less := (fun a b : R => if Rlt_dec a b then true else false).
Local Abbreviation more := (fun a b : R => if Rlt_dec b a then true else false).

(** What the scan for the smallest entry returns: the position [pos]
    of the best entry so far when no entry of [l] is smaller, and
    otherwise the first position of the smallest entry of [l]. *)
Lemma arg_from_less l : forall i best pos,
  let p := arg_from less l i best pos in
  (p = pos /\ forall x, In x l -> best <= x) \/
  (exists k, p = (i + k)%nat /\ (k < length l)%nat /\
             nth k l 0 < best /\
             (forall x, In x l -> nth k l 0 <= x) /\
             (forall j, (j < k)%nat -> nth k l 0 < nth j l 0)).
Proof.
  induction l as [|x l IH]; intros i best pos; simpl.
  - left. split; [reflexivity | intros x []].
  - destruct (Rlt_dec x best) as [Hlt|Hge].
    + right. destruct (IH (S i) x i) as [[Hp Hall]|(k & Hp & Hk & Hv & Hmin & Hfirst)].
      * exists 0%nat. simpl. rewrite Hp.
        repeat split; try lia; try lra.
        intros x' [<-|Hx']; [lra | apply Hall; exact Hx'].
      * exists (S k). simpl. rewrite Hp.
        repeat split; try lia; try lra.
        -- intros x' [<-|Hx']; [lra | apply Hmin; exact Hx'].
        -- intros [|j] Hj; [exact Hv | apply Hfirst; lia].
    + destruct (IH (S i) best pos) as [[Hp Hall]|(k & Hp & Hk & Hv & Hmin & Hfirst)].
      * left. split; [exact Hp|].
        intros x' [<-|Hx']; [lra | apply Hall; exact Hx'].
      * right. exists (S k). simpl. rewrite Hp.
        repeat split; try lia; try lra.
        -- intros x' [<-|Hx']; [lra | apply Hmin; exact Hx'].
        -- intros [|j] Hj; [lra | apply Hfirst; lia].
Qed.

Lemma arg_from_more l : forall i best pos,
  arg_from more l i best pos = arg_from less (map Ropp l) i (- best) pos.
Proof.
  induction l as [|x l IH]; intros i best pos; simpl; [reflexivity|].
  destruct (Rlt_dec best x), (Rlt_dec (- x) (- best)); try lra; apply IH.
Qed.

(** [np.argmin]: the position returned is inside the array, no entry
    is smaller than the one there, and every entry before it is
    larger. *)
Lemma argmin_spec l :
  l <> [] ->
  exists p, argmin l = Ok p /\ (p < length l)%nat /\
            (forall x, In x l -> nth p l 0 <= x) /\
            (forall j, (j < p)%nat -> nth p l 0 < nth j l 0).
Proof.
  intros Hl. destruct l as [|x l]; [congruence|]. unfold argmin.
  eexists. split; [reflexivity|].
  destruct (arg_from_less l 1 x 0) as [[Hp Hall]|(k & Hp & Hk & Hv & Hmin & Hfirst)];
    cbv zeta in Hp; rewrite Hp.
  - simpl. repeat split; try lia.
    intros x' [<-|Hx']; [lra | apply Hall; exact Hx'].
  - simpl. repeat split; try lia.
    + intros x' [<-|Hx']; [lra | apply Hmin; exact Hx'].
    + intros [|j] Hj; [exact Hv | apply Hfirst; lia].
Qed.

Lemma argmax_spec l :
  l <> [] ->
  exists p, argmax l = Ok p /\ (p < length l)%nat /\
            (forall x, In x l -> x <= nth p l 0) /\
            (forall j, (j < p)%nat -> nth j l 0 < nth p l 0).
Proof.
  intros Hl. destruct l as [|x l]; [congruence|].
  destruct (argmin_spec (map Ropp (x :: l))) as (p & E & Hp & Hmin & Hfirst);
    [discriminate|].
  exists p. rewrite length_map in Hp.
  assert (Hnth : forall j, nth j (map Ropp (x :: l)) 0 = - nth j (x :: l) 0).
  { intros j. rewrite <- (map_nth Ropp (x :: l) 0 j). f_equal. lra. }
  split.
  - unfold argmax. unfold argmin in E. simpl in E. rewrite arg_from_more.
    exact E.
  - split; [exact Hp|]. split.
    + intros x' Hx'. specialize (Hmin (- x') (in_map Ropp _ _ Hx')).
      rewrite Hnth in Hmin. lra.
    + intros j Hj. specialize (Hfirst j Hj). rewrite !Hnth in Hfirst. lra.
Qed.

End Positions.

(** X10.  For a subsampling factor of at least [1] the subsampling
    cell never reads outside [embedded_signal]: it returns
    [len(embedded_signal) // subsample_factor] points, and point [t]
    of the result is point [subsample_factor * t] of the embedding. *)
Theorem subsample_rows (embedded_signal : array2) (subsample_factor : Z) :
  (1 <= subsample_factor)%Z ->
  exists s,
    subsampled_embedded_signal embedded_signal subsample_factor = Ok s /\
    length s = Z.to_nat (Z.of_nat (length embedded_signal) / subsample_factor) /\
    forall t, (t < length s)%nat ->
              nth t s [] = nth (Z.to_nat subsample_factor * t) embedded_signal [].
Proof.
  intros Hf. unfold subsampled_embedded_signal, true_div.
  destruct (Z.eqb_spec subsample_factor 0) as [|_]; [lia|].
  rewrite int_quotient by lia.
  set (k := (Z.of_nat (length embedded_signal) / subsample_factor)%Z).
  assert (Hk : (subsample_factor * k <= Z.of_nat (length embedded_signal))%Z)
    by (apply Z.mul_div_le; lia).
  rewrite (map_result_ok _
             (fun t => nth (Z.to_nat (subsample_factor * t)) embedded_signal [])).
  2:{ intros t Ht. apply in_range in Ht. apply index_nonneg. nia. }
  eexists. split; [reflexivity|].
  rewrite length_map, length_range. split; [reflexivity|].
  intros t Ht. unfold range. rewrite nth_map_range2 by lia.
  f_equal. rewrite Z2Nat.inj_mul by lia. f_equal. lia.
Qed.

Lemma subsample_rows_witness :
  exists s,
    subsampled_embedded_signal [[1]; [2]; [3]; [4]; [5]; [6]; [7]] 3 = Ok s /\
    length s = 2%nat /\ nth 1 s [] = [4].
Proof.
  destruct (subsample_rows [[1]; [2]; [3]; [4]; [5]; [6]; [7]] 3 ltac:(lia))
    as (s & E & Hlen & Hnth).
  exists s. split; [exact E|]. split; [exact Hlen|].
  rewrite Hnth by (rewrite Hlen; simpl; lia). reflexivity.
Defined.

(** X11.  The noisy sine wave of the first cell: for [n_samples >= 0]
    and [noise_level >= 0] the cell returns [n_samples] values, each
    between [-1] and [1 + noise_level]. *)
Theorem signal_bounds (RS : RandomState) (w : world)
        (n_samples : Z) (noise_level frequency : R) :
  (0 <= n_samples)%Z -> 0 <= noise_level ->
  exists s w',
    signal n_samples noise_level frequency w = (Ok s, w') /\
    length s = Z.to_nat n_samples /\
    Forall (fun v => -1 <= v <= 1 + noise_level) s.
Proof.
  intros Hn Hl. unfold signal.
  destruct (linspace_ok 0 (2 * PI) n_samples Hn) as (domain & E & Hlen).
  rewrite (bind_lift_ok _ _ _ _ E).
  destruct (returns_comprehension domain
              (fun x => bind random_random0
                             (fun u => ret (sin (frequency * x) + noise_level * u)))
              (fun v => -1 <= v <= 1 + noise_level)) with (w := w)
    as (s & w' & Es & _ & Hs & Hall).
  { intros x. eapply returns_bind; [apply returns_draw_uniform|].
    intros u Hu. apply returns_ret. cbv beta in Hu.
    pose proof (SIN_bound (frequency * x)) as Hsin. split; nra. }
  exists s, w'. split; [exact Es|]. split; [congruence | exact Hall].
Qed.

Lemma signal_bounds_witness :
  exists s w',
    signal 1000 0.5 4 Demo.full_disk = (Ok s, w') /\
    length s = 1000%nat /\
    Forall (fun v => -1 <= v <= 1 + 0.5) s.
Proof.
  apply (signal_bounds Demo.counter Demo.full_disk 1000 0.5 4); [lia | lra].
Defined.

(** X12.  The cell that picks the series to plot, for labels that are
    [0] or [1]: [background_idx] is the first position with label
    [0] when there is one, and position [0] - a series with label
    [1] - when there is none; likewise [signal_idx] is the first
    position with label [1], or position [0] with label [0] when no
    sample has label [1]. *)
Theorem series_to_plot_positions
        (noisy_signals gw_signals : list array1) (labels : array1) :
  labels <> [] ->
  length noisy_signals = length labels ->
  length gw_signals = length labels ->
  Forall (fun v => v = 0 \/ v = 1) labels ->
  exists background_idx signal_idx ts_noise ts_background ts_signal,
    series_to_plot noisy_signals gw_signals labels =
    Ok (background_idx, signal_idx, ts_noise, ts_background, ts_signal) /\
    ts_noise = nth background_idx noisy_signals [] /\
    ts_background = nth signal_idx noisy_signals [] /\
    ts_signal = nth signal_idx gw_signals [] /\
    (In 0 labels ->
     nth background_idx labels 0 = 0 /\
     forall j, (j < background_idx)%nat -> nth j labels 0 = 1) /\
    (~ In 0 labels ->
     background_idx = 0%nat /\ nth background_idx labels 0 = 1) /\
    (In 1 labels ->
     nth signal_idx labels 0 = 1 /\
     forall j, (j < signal_idx)%nat -> nth j labels 0 = 0) /\
    (~ In 1 labels ->
     signal_idx = 0%nat /\ nth signal_idx labels 0 = 0).
Proof.
  intros Hne Hnoisy Hgw Hbits.
  destruct (argmin_spec labels Hne) as (bi & Ebi & Hbi & Hmin & Hfirst).
  destruct (argmax_spec labels Hne) as (si & Esi & Hsi & Hmax & Hlast).
  assert (Hbit : forall j, (j < length labels)%nat ->
                           nth j labels 0 = 0 \/ nth j labels 0 = 1).
  { intros j Hj. rewrite Forall_nth in Hbits. apply Hbits. exact Hj. }
  unfold series_to_plot. rewrite Ebi, Esi.
  rewrite (getitem_ok noisy_signals bi []) by lia.
  rewrite (getitem_ok noisy_signals si []) by lia.
  rewrite (getitem_ok gw_signals si []) by lia.
  eexists _, _, _, _, _. split; [reflexivity|].
  split; [reflexivity|]. split; [reflexivity|]. split; [reflexivity|].
  pose proof (Hbit bi Hbi) as Hb. pose proof (Hbit si Hsi) as Hs.
  split; [|split; [|split]].
  - intros H0. specialize (Hmin 0 H0). split; [lra|].
    intros j Hj. specialize (Hfirst j Hj).
    destruct (Hbit j ltac:(lia)); lra.
  - intros H0. assert (Hone : nth bi labels 0 = 1).
    { destruct Hb as [Hb|Hb]; [|exact Hb]. exfalso. apply H0.
      rewrite <- Hb. apply nth_In. exact Hbi. }
    split; [|exact Hone]. destruct bi as [|bi]; [reflexivity|]. exfalso.
    specialize (Hfirst 0%nat ltac:(lia)).
    destruct (Hbit 0%nat ltac:(lia)); lra.
  - intros H1. specialize (Hmax 1 H1). split; [lra|].
    intros j Hj. specialize (Hlast j Hj).
    destruct (Hbit j ltac:(lia)); lra.
  - intros H1. assert (Hzero : nth si labels 0 = 0).
    { destruct Hs as [Hs|Hs]; [exact Hs|]. exfalso. apply H1.
      rewrite <- Hs. apply nth_In. exact Hsi. }
    split; [|exact Hzero]. destruct si as [|si]; [reflexivity|]. exfalso.
    specialize (Hlast 0%nat ltac:(lia)).
    destruct (Hbit 0%nat ltac:(lia)); lra.
Qed.

Lemma series_to_plot_positions_witness :
  exists background_idx signal_idx ts_noise ts_background ts_signal,
    series_to_plot [[1]; [2]] [[3]; [4]] [1; 1] =
    Ok (background_idx, signal_idx, ts_noise, ts_background, ts_signal) /\
    background_idx = 0%nat /\ ts_noise = [1].
Proof.
  destruct (series_to_plot_positions [[1]; [2]] [[3]; [4]] [1; 1])
    as (bi & si & tn & tb & ts & E & Htn & _ & _ & _ & Hnone & _).
  { discriminate. }
  { reflexivity. }
  { reflexivity. }
  { repeat constructor; right; reflexivity. }
  exists bi, si, tn, tb, ts. split; [exact E|].
  destruct Hnone as [Hbi _].
  { intros [H|[H|[]]]; lra. }
  split; [exact Hbi|]. rewrite Htn, Hbi. reflexivity.
Defined.

(** ** Gravitational waves: the edges of the arguments *)

Section WaveEdges.
Import Py Np Takens.
Context {RS : RandomState}.

(** The steps of the function up to the first loop. *)
Lemma waves_prefix path n_signals ds r_min r_max n_snr_values w gw :
  (0 <= n_snr_values)%Z ->
  npy_files w (path ++ "/" ++ "gravitational_wave_signals.npy")%string = Ok gw ->
  exists Rcoef,
    length Rcoef = Z.to_nat n_snr_values /\
    make_gravitational_waves path n_signals ds r_min r_max n_snr_values w =
    bind (lift (getitem (map data gw) 0))
         (fun first =>
            let Norig := Z.of_nat (length first) in
            let Ndat := Z.of_nat (length (map signal_present gw)) in
            bind (lift (true_div Norig ds))
                 (fun q =>
                    let N := int q in
                    bind (for_each (range n_signals)
                                   (coeff_step Rcoef n_snr_values) ([], []))
                         (fun coeffs =>
                            let ncoeff := fst coeffs in
                            bind (lift (zeros n_signals))
                                 (fun labels =>
                                    bind (for_each (range n_signals)
                                            (signal_step gw Norig Ndat N ds ncoeff)
                                            ([], [], 0%Z, labels))
                                         (fun st =>
                                            let '(noisy_signals, gw_signals, _, labels) := st in
                                            ret (noisy_signals, gw_signals, labels))))))
         (record_call w
            (np_load_call (path ++ "/" ++ "gravitational_wave_signals.npy")%string)
            Returned).
Proof.
  intros Hsnr Hload.
  destruct (linspace_ok r_min r_max n_snr_values Hsnr) as (Rcoef & E1 & HR).
  exists Rcoef. split; [exact HR|].
  unfold make_gravitational_waves. rewrite (bind_lift_ok _ _ _ _ E1).
  set (file := (path ++ "/" ++ "gravitational_wave_signals.npy")%string) in *.
  assert (E2 : load file w =
               (Ok gw, record_call w (np_load_call file) Returned))
    by (unfold load; rewrite Hload; reflexivity).
  rewrite (bind_ok _ _ _ _ _ E2). reflexivity.
Qed.

Lemma for_each_cons_raise {A St : Type} (a : A) t (body : A -> St -> M St)
      s w e w1 :
  body a s w = (Raise e, w1) -> for_each (a :: t) body s w = (Raise e, w1).
Proof. intros H. simpl. apply bind_raise. exact H. Qed.

Lemma first_record (gw : list gw_record) first :
  nth_error gw 0 = Some first -> getitem (map data gw) 0 = Ok (data first).
Proof. destruct gw as [|r gw]; [discriminate|]. intros H. injection H as ->. reflexivity. Qed.

(** Downsampling a row by a factor that need not divide its length. *)
Lemma downsample_any row (Norig : nat) ds :
  length row = Norig -> (0 < ds)%Z ->
  exists indices signal,
    range3 0 (Z.of_nat Norig) ds = Ok indices /\
    take row indices = Ok signal /\
    length signal = Z.to_nat ((Z.of_nat Norig + ds - 1) / ds).
Proof.
  intros Hrow Hds. unfold range3.
  destruct (Z.eqb_spec ds 0) as [|_]; [lia|].
  destruct (Z.ltb_spec 0 ds) as [_|]; [|lia].
  replace (Z.of_nat Norig - 0 + ds - 1)%Z with (Z.of_nat Norig + ds - 1)%Z by lia.
  set (k := ((Z.of_nat Norig + ds - 1) / ds)%Z).
  assert (Hk : (ds * k <= Z.of_nat Norig + ds - 1)%Z)
    by (apply Z.mul_div_le; lia).
  destruct (take_ok row (map (fun i => (0 + Z.of_nat i * ds)%Z)
                             (seq 0 (Z.to_nat k))))
    as (signal & Es & Hs).
  { apply Forall_forall. intros x Hx. apply in_map_iff in Hx.
    destruct Hx as (i & <- & Hi). apply in_seq in Hi. rewrite Hrow. nia. }
  eexists _, signal. split; [reflexivity|]. split; [exact Es|].
  rewrite Hs, length_map, length_seq. reflexivity.
Qed.

Lemma add1_mismatch_raises a b :
  length a <> length b -> (2 <= length a)%nat -> (2 <= length b)%nat ->
  add1 a b = Raise ValueError.
Proof.
  intros Hne Ha Hb. unfold add1.
  destruct (Nat.eqb_spec (length a) (length b)); [contradiction|].
  destruct a as [|x [|x' a]]; simpl in Ha; try lia.
  destruct b as [|y [|y' b]]; simpl in Hb; try lia. reflexivity.
Qed.

(** The first round of the main loop when a signal is injected and
    the downsampled signal and the noise differ in length. *)
Lemma signal_step_mismatch gw first ds ncoeff labels w :
  nth_error gw 0 = Some first ->
  (0 < ds)%Z ->
  ~ (ds | Z.of_nat (length (data first)))%Z ->
  (2 <= Z.of_nat (length (data first)) / ds)%Z ->
  ncoeff <> [] -> labels <> [] ->
  fst (next_normal (rng w)) < 0 ->
  fst (signal_step gw (Z.of_nat (length (data first)))
                   (Z.of_nat (length (map signal_present gw)))
                   (Z.of_nat (length (data first)) / ds) ds ncoeff 0
                   ([], [], 0%Z, labels) w) = Raise ValueError.
Proof.
  intros Hfirst Hds Hndiv Hfloor Hnc Hlab Hz.
  set (Norig := length (data first)) in *.
  assert (Hgw : (0 < length gw)%nat)
    by (destruct gw; [discriminate | simpl; lia]).
  unfold signal_step. rewrite length_map.
  rewrite (bind_lift_ok _ _ _ _ (mod_ok 0 (Z.of_nat (length gw)) ltac:(lia))).
  rewrite Z.mod_0_l by lia. change (Z.to_nat 0) with 0%nat.
  rewrite (bind_lift_ok _ _ _ _ (first_record gw first Hfirst)).
  destruct (downsample_any (data first) Norig ds eq_refl Hds)
    as (indices & signal & Eidx & Esig & Hsig).
  rewrite (bind_lift_ok _ _ _ _ Eidx), (bind_lift_ok _ _ _ _ Esig).
  assert (Ez : exists z g, z < 0 /\ random_randn0 w = (Ok z, set_rng w g)).
  { unfold random_randn0, draw_normal.
    destruct (next_normal (rng w)) as [z g]. exists z, g.
    split; [exact Hz | reflexivity]. }
  destruct Ez as (z & g & Hneg & Ez). rewrite (bind_ok _ _ _ _ _ Ez).
  destruct (Rlt_dec z 0) as [_|Hge]; [|contradiction].
  rewrite (bind_lift_ok _ _ _ _ (getitem_ok ncoeff 0 0 ltac:(destruct ncoeff; [congruence | simpl; lia]))).
  assert (HN : (0 <= Z.of_nat Norig / ds)%Z) by lia.
  destruct (returns_randn1 _ HN (set_rng w g)) as (xi & w1 & Exi & _ & Hxi).
  cbv beta in Hxi. rewrite (bind_ok _ _ _ _ _ Exi).
  rewrite (bind_lift_ok _ _ _ _ (setitem_ok labels 0 (IZR 1) ltac:(destruct labels; [congruence | simpl; lia]))).
  change (1 =? 1)%Z with true. cbv iota.
  assert (Esum : add1 signal (scale1 (nth 0 ncoeff 0) xi) = Raise ValueError).
  { assert (Hceil : ((Z.of_nat Norig + ds - 1) / ds = Z.of_nat Norig / ds + 1)%Z).
    { assert (Hmod : (Z.of_nat Norig mod ds <> 0)%Z).
      { intros H0. apply Hndiv. apply Z.mod_divide; [lia | exact H0]. }
      pose proof (Z.mod_pos_bound (Z.of_nat Norig) ds Hds) as Hb.
      pose proof (Z.div_mod (Z.of_nat Norig) ds ltac:(lia)) as Hdm.
      symmetry. apply (Z.div_unique _ _ _ (Z.of_nat Norig mod ds - 1)); lia. }
    apply add1_mismatch_raises; unfold scale1; rewrite ?length_map; lia. }
  unfold bind at 1. unfold lift at 1. rewrite Esum. reflexivity.
Qed.

End WaveEdges.

Section WaveRuns.
Import Py Np Takens.
Context {RS : RandomState}.

Lemma true_div_ok a b : b <> 0%Z -> true_div a b = Ok (IZR a / IZR b).
Proof.
  intros H. unfold true_div. destruct (Z.eqb_spec b 0); [contradiction | reflexivity].
Qed.

Lemma waves_empty_file path n_signals ds r_min r_max n_snr_values w :
  (0 <= n_snr_values)%Z ->
  npy_files w (path ++ "/" ++ "gravitational_wave_signals.npy")%string = Ok [] ->
  make_gravitational_waves path n_signals ds r_min r_max n_snr_values w =
  (Raise IndexError,
   record_call w
     (np_load_call (path ++ "/" ++ "gravitational_wave_signals.npy")%string)
     Returned).
Proof.
  intros Hsnr Hload.
  destruct (waves_prefix path n_signals ds r_min r_max n_snr_values w []
              Hsnr Hload) as (Rcoef & _ & ->).
  reflexivity.
Qed.

Lemma waves_zero_factor path n_signals r_min r_max n_snr_values w gw :
  (0 <= n_snr_values)%Z ->
  npy_files w (path ++ "/" ++ "gravitational_wave_signals.npy")%string = Ok gw ->
  gw <> [] ->
  make_gravitational_waves path n_signals 0 r_min r_max n_snr_values w =
  (Raise ZeroDivisionError,
   record_call w
     (np_load_call (path ++ "/" ++ "gravitational_wave_signals.npy")%string)
     Returned).
Proof.
  intros Hsnr Hload Hgw.
  destruct (waves_prefix path n_signals 0 r_min r_max n_snr_values w gw
              Hsnr Hload) as (Rcoef & _ & ->).
  destruct gw as [|rec0 gw]; [congruence|]. reflexivity.
Qed.

Lemma waves_no_snr_values path n_signals ds r_min r_max w gw :
  npy_files w (path ++ "/" ++ "gravitational_wave_signals.npy")%string = Ok gw ->
  gw <> [] -> ds <> 0%Z -> (1 <= n_signals)%Z ->
  make_gravitational_waves path n_signals ds r_min r_max 0 w =
  (Raise ZeroDivisionError,
   record_call w
     (np_load_call (path ++ "/" ++ "gravitational_wave_signals.npy")%string)
     Returned).
Proof.
  intros Hload Hgw Hds Hn.
  destruct (waves_prefix path n_signals ds r_min r_max 0 w gw
              ltac:(lia) Hload) as (Rcoef & _ & ->).
  destruct gw as [|rec0 gw]; [congruence|].
  rewrite (bind_lift_ok _ _ _ _ (first_record (rec0 :: gw) rec0 eq_refl)).
  cbv beta zeta. rewrite (bind_lift_ok _ _ _ _ (true_div_ok _ ds Hds)).
  destruct (range_cons n_signals ltac:(lia)) as (t & ->).
  apply bind_raise. apply for_each_cons_raise. reflexivity.
Qed.

Lemma waves_no_samples path ds r_min r_max n_snr_values w gw :
  (0 <= n_snr_values)%Z ->
  npy_files w (path ++ "/" ++ "gravitational_wave_signals.npy")%string = Ok gw ->
  gw <> [] -> ds <> 0%Z ->
  make_gravitational_waves path 0 ds r_min r_max n_snr_values w =
  (Ok ([], [], []),
   record_call w
     (np_load_call (path ++ "/" ++ "gravitational_wave_signals.npy")%string)
     Returned).
Proof.
  intros Hsnr Hload Hgw Hds.
  destruct (waves_prefix path 0 ds r_min r_max n_snr_values w gw
              Hsnr Hload) as (Rcoef & _ & ->).
  destruct gw as [|rec0 gw]; [congruence|].
  rewrite (bind_lift_ok _ _ _ _ (first_record (rec0 :: gw) rec0 eq_refl)).
  cbv beta zeta. rewrite (bind_lift_ok _ _ _ _ (true_div_ok _ ds Hds)).
  reflexivity.
Qed.

Lemma downsampled_unique row Norig ds s s' :
  downsampled row Norig ds s -> downsampled row Norig ds s' -> s = s'.
Proof.
  intros (idx & E & T) (idx' & E' & T'). congruence.
Qed.

Lemma waves_signals_unique path n_signals ds w1 w2
      r_min1 r_max1 n_snr1 r_min2 r_max2 n_snr2
      noisy1 gws1 labels1 w1' noisy2 gws2 labels2 w2' :
  npy_files w1 (path ++ "/" ++ "gravitational_wave_signals.npy")%string =
  npy_files w2 (path ++ "/" ++ "gravitational_wave_signals.npy")%string ->
  make_gravitational_waves path n_signals ds r_min1 r_max1 n_snr1 w1 =
  (Ok (noisy1, gws1, labels1), w1') ->
  make_gravitational_waves path n_signals ds r_min2 r_max2 n_snr2 w2 =
  (Ok (noisy2, gws2, labels2), w2') ->
  gws1 = gws2.
Proof.
  intros Hfiles H1 H2.
  apply make_gravitational_waves_inv in H1, H2.
  destruct H1 as (gw & Rcoef1 & first & Hgw1 & _ & Hfirst1 & _ & Hok1).
  destruct H2 as (gw' & Rcoef2 & first' & Hgw2 & _ & Hfirst2 & _ & Hok2).
  rewrite Hfiles, Hgw2 in Hgw1. injection Hgw1 as <-.
  rewrite Hfirst2 in Hfirst1. injection Hfirst1 as <-.
  destruct Hok1 as (_ & Hlen1 & _ & Hs1). destruct Hok2 as (_ & Hlen2 & _ & Hs2).
  apply (nth_ext _ _ [] []); [exact (eq_trans Hlen1 (eq_sym Hlen2))|].
  intros i Hi. assert (Hi' : (i < Z.to_nat n_signals)%nat)
    by (rewrite <- Hlen1; exact Hi).
  clear Hi. rename Hi' into Hi.
  destruct (Hs1 i Hi) as (rec1 & _ & _ & Hrec1 & _ & Hd1 & _).
  destruct (Hs2 i Hi) as (rec2 & _ & _ & Hrec2 & _ & Hd2 & _).
  rewrite Hrec2 in Hrec1. injection Hrec1 as <-.
  exact (downsampled_unique _ _ _ _ _ Hd1 Hd2).
Qed.

Lemma waves_mismatch path n_signals ds r_min r_max n_snr_values w gw first :
  npy_files w (path ++ "/" ++ "gravitational_wave_signals.npy")%string = Ok gw ->
  nth_error gw 0 = Some first ->
  (0 < ds)%Z ->
  ~ (ds | Z.of_nat (length (data first)))%Z ->
  (2 <= Z.of_nat (length (data first)) / ds)%Z ->
  (1 <= n_signals)%Z -> (1 <= n_snr_values)%Z ->
  fst (next_normal (rng w)) < 0 ->
  fst (make_gravitational_waves path n_signals ds r_min r_max n_snr_values w)
  = Raise ValueError.
Proof.
  intros Hload Hfirst Hds Hndiv Hfloor Hn Hsnr Hz.
  destruct (waves_prefix path n_signals ds r_min r_max n_snr_values w gw
              ltac:(lia) Hload) as (Rcoef & HR & ->).
  set (w1 := record_call w _ Returned).
  rewrite (bind_lift_ok _ _ _ _ (first_record gw first Hfirst)).
  cbv beta zeta. rewrite (bind_lift_ok _ _ _ _ (true_div_ok _ ds ltac:(lia))).
  rewrite int_quotient by lia.
  destruct (for_each_range_returns n_signals (coeff_step Rcoef n_snr_values)
              (fun m st => length (fst st) = m) ([], []) eq_refl
              (fun i st _ Hi =>
                 coeff_step_returns n_snr_values Rcoef i st ltac:(lia) HR Hi)
              w1)
    as (coeffs & w2 & E3 & _ & Hcoef).
  pose proof (coeff_loop_world _ _ _ _ _ _ _ E3) as ->.
  rewrite (bind_ok _ _ _ _ _ E3).
  rewrite (bind_lift_ok _ _ _ _ (zeros_ok n_signals ltac:(lia))).
  destruct (range_cons n_signals ltac:(lia)) as (t & ->).
  pose proof (signal_step_mismatch gw first ds (fst coeffs)
                (repeat 0 (Z.to_nat n_signals)) w1 Hfirst Hds Hndiv Hfloor)
    as Hstep.
  destruct (signal_step gw (Z.of_nat (length (data first)))
                        (Z.of_nat (length (map signal_present gw)))
                        (Z.of_nat (length (data first)) / ds) ds (fst coeffs) 0
                        ([], [], 0%Z, repeat 0 (Z.to_nat n_signals)) w1)
    as [r w3] eqn:Estep.
  simpl fst in Hstep. rewrite Hstep in Estep.
  - rewrite (bind_raise _ _ _ _ _ (for_each_cons_raise _ _ _ _ _ _ _ Estep)).
    reflexivity.
  - intros Hnil. rewrite Hnil in Hcoef. simpl in Hcoef. lia.
  - destruct (Z.to_nat n_signals) eqn:En; [lia | discriminate].
  - exact Hz.
Qed.

End WaveRuns.

(** ** Main results: the edges of [make_gravitational_waves] *)

(** X13.  When the file of signals holds no record,
    [make_gravitational_waves] raises [IndexError] after its one call
    to [np.load], whatever the other arguments. *)
Theorem gravitational_waves_empty_file (RS : RandomState) (w : world)
        (path_to_data : string) (n_signals downsample_factor : Z)
        (r_min r_max : R) (n_snr_values : Z) :
  (0 <= n_snr_values)%Z ->
  npy_files w (path_to_data ++ "/" ++ "gravitational_wave_signals.npy")%string
  = Ok [] ->
  make_gravitational_waves path_to_data n_signals downsample_factor
                           r_min r_max n_snr_values w =
  (Raise IndexError,
   record_call w
     (np_load_call (path_to_data ++ "/" ++ "gravitational_wave_signals.npy")%string)
     Returned).
Proof. apply waves_empty_file. Qed.

Lemma gravitational_waves_empty_file_witness :
  fst (make_gravitational_waves "data" 3 2 0.65 0.65 1 Demo2.no_signals_disk)
  = Raise IndexError.
Proof.
  rewrite (gravitational_waves_empty_file Demo.counter Demo2.no_signals_disk
             "data"%string 3 2 0.65 0.65 1 ltac:(lia) eq_refl).
  reflexivity.
Defined.

(** X14.  With [downsample_factor = 0] the function raises
    [ZeroDivisionError] once it has read the signals, before it
    builds any sample - also when [n_signals] is [0]. *)
Theorem gravitational_waves_zero_factor (RS : RandomState) (w : world)
        (path_to_data : string) (n_signals : Z) (r_min r_max : R)
        (n_snr_values : Z) (gw : list gw_record) :
  (0 <= n_snr_values)%Z ->
  npy_files w (path_to_data ++ "/" ++ "gravitational_wave_signals.npy")%string
  = Ok gw ->
  gw <> [] ->
  make_gravitational_waves path_to_data n_signals 0 r_min r_max n_snr_values w =
  (Raise ZeroDivisionError,
   record_call w
     (np_load_call (path_to_data ++ "/" ++ "gravitational_wave_signals.npy")%string)
     Returned).
Proof. apply waves_zero_factor. Qed.

Lemma gravitational_waves_zero_factor_witness :
  fst (make_gravitational_waves "data" 0 0 0.65 0.65 1 Demo.full_disk)
  = Raise ZeroDivisionError.
Proof.
  rewrite (gravitational_waves_zero_factor Demo.counter Demo.full_disk
             "data"%string 0 0.65 0.65 1 Demo.signals ltac:(lia) eq_refl
             ltac:(discriminate)).
  reflexivity.
Defined.

(** X15.  With [n_snr_values = 0] and at least one sample asked for,
    the function raises [ZeroDivisionError] (from [j % n_snr_values])
    after it has read the signals. *)
Theorem gravitational_waves_no_snr_values (RS : RandomState) (w : world)
        (path_to_data : string) (n_signals downsample_factor : Z)
        (r_min r_max : R) (gw : list gw_record) :
  npy_files w (path_to_data ++ "/" ++ "gravitational_wave_signals.npy")%string
  = Ok gw ->
  gw <> [] -> downsample_factor <> 0%Z -> (1 <= n_signals)%Z ->
  make_gravitational_waves path_to_data n_signals downsample_factor
                           r_min r_max 0 w =
  (Raise ZeroDivisionError,
   record_call w
     (np_load_call (path_to_data ++ "/" ++ "gravitational_wave_signals.npy")%string)
     Returned).
Proof. apply waves_no_snr_values. Qed.

Lemma gravitational_waves_no_snr_values_witness :
  fst (make_gravitational_waves "data" 3 2 0.65 0.65 0 Demo.full_disk)
  = Raise ZeroDivisionError.
Proof.
  rewrite (gravitational_waves_no_snr_values Demo.counter Demo.full_disk
             "data"%string 3 2 0.65 0.65 Demo.signals eq_refl
             ltac:(discriminate) ltac:(lia) ltac:(lia)).
  reflexivity.
Defined.

(** X16.  With [n_signals = 0] the function still reads the file of
    signals, once, and returns three empty containers. *)
Theorem gravitational_waves_no_samples (RS : RandomState) (w : world)
        (path_to_data : string) (downsample_factor : Z)
        (r_min r_max : R) (n_snr_values : Z) (gw : list gw_record) :
  (0 <= n_snr_values)%Z ->
  npy_files w (path_to_data ++ "/" ++ "gravitational_wave_signals.npy")%string
  = Ok gw ->
  gw <> [] -> downsample_factor <> 0%Z ->
  make_gravitational_waves path_to_data 0 downsample_factor
                           r_min r_max n_snr_values w =
  (Ok ([], [], []),
   record_call w
     (np_load_call (path_to_data ++ "/" ++ "gravitational_wave_signals.npy")%string)
     Returned).
Proof. apply waves_no_samples. Qed.

Lemma gravitational_waves_no_samples_witness :
  fst (make_gravitational_waves "data" 0 2 0.65 0.65 1 Demo.full_disk)
  = Ok ([], [], []).
Proof.
  rewrite (gravitational_waves_no_samples Demo.counter Demo.full_disk
             "data"%string 2 0.65 0.65 1 Demo.signals ltac:(lia) eq_refl
             ltac:(discriminate) ltac:(lia)).
  reflexivity.
Defined.

(** X17.  The list [gw_signals] depends only on the file of signals,
    [n_signals] and [downsample_factor]: two runs that return, from
    states with the same file but any states of the generator and any
    noise coefficients, return the same [gw_signals]. *)
Theorem gravitational_waves_signals_fixed (RS : RandomState) (w1 w2 : world)
        (path_to_data : string) (n_signals downsample_factor : Z)
        (r_min1 r_max1 : R) (n_snr_values1 : Z)
        (r_min2 r_max2 : R) (n_snr_values2 : Z)
        (noisy1 gws1 : list array1) (labels1 : array1) (w1' : world)
        (noisy2 gws2 : list array1) (labels2 : array1) (w2' : world) :
  npy_files w1 (path_to_data ++ "/" ++ "gravitational_wave_signals.npy")%string =
  npy_files w2 (path_to_data ++ "/" ++ "gravitational_wave_signals.npy")%string ->
  make_gravitational_waves path_to_data n_signals downsample_factor
                           r_min1 r_max1 n_snr_values1 w1 =
  (Ok (noisy1, gws1, labels1), w1') ->
  make_gravitational_waves path_to_data n_signals downsample_factor
                           r_min2 r_max2 n_snr_values2 w2 =
  (Ok (noisy2, gws2, labels2), w2') ->
  gws1 = gws2.
Proof. apply waves_signals_unique. Qed.

Lemma gravitational_waves_signals_fixed_witness :
  exists noisy1 gws1 labels1 w1' noisy2 gws2 labels2 w2',
    make_gravitational_waves "data" 3 2 0.65 0.65 1 Demo.full_disk =
    (Ok (noisy1, gws1, labels1), w1') /\
    make_gravitational_waves "data" 3 2 0.5 0.75 2 Demo2.later_disk =
    (Ok (noisy2, gws2, labels2), w2') /\
    gws1 = gws2.
Proof.
  destruct full_disk_ready as (H1 & H2 & H3 & H4 & H5 & H6 & H7).
  destruct (make_gravitational_waves_returns "data"%string 3%Z 2%Z 0.65 0.65 1%Z
              Demo.full_disk Demo.signals 4%nat H1 H2 H3 H4 H5 H6 H7)
    as (noisy1 & gws1 & labels1 & w1' & E1 & _).
  destruct (make_gravitational_waves_returns "data"%string 3%Z 2%Z 0.5 0.75 2%Z
              Demo2.later_disk Demo.signals 4%nat eq_refl H2 H3 H4 H5 H6
              ltac:(lia))
    as (noisy2 & gws2 & labels2 & w2' & E2 & _).
  exists noisy1, gws1, labels1, w1', noisy2, gws2, labels2, w2'.
  split; [exact E1|]. split; [exact E2|].
  exact (gravitational_waves_signals_fixed Demo.counter Demo.full_disk
           Demo2.later_disk "data"%string 3 2 0.65 0.65 1 0.5 0.75 2
           noisy1 gws1 labels1 w1' noisy2 gws2 labels2 w2' eq_refl E1 E2).
Defined.

(** X18.  When [downsample_factor] does not divide the length of the
    stored signals and at least two points remain after downsampling,
    a run whose first sample gets a signal (its first normal draw is
    negative) raises [ValueError]: the downsampled signal has one
    point more than the noise it is added to. *)
Theorem gravitational_waves_length_mismatch (RS : RandomState) (w : world)
        (path_to_data : string) (n_signals downsample_factor : Z)
        (r_min r_max : R) (n_snr_values : Z)
        (gw : list gw_record) (first : gw_record) :
  npy_files w (path_to_data ++ "/" ++ "gravitational_wave_signals.npy")%string
  = Ok gw ->
  nth_error gw 0 = Some first ->
  (0 < downsample_factor)%Z ->
  ~ (downsample_factor | Z.of_nat (length (data first)))%Z ->
  (2 <= Z.of_nat (length (data first)) / downsample_factor)%Z ->
  (1 <= n_signals)%Z -> (1 <= n_snr_values)%Z ->
  fst (next_normal (rng w)) < 0 ->
  fst (make_gravitational_waves path_to_data n_signals downsample_factor
                                r_min r_max n_snr_values w)
  = Raise ValueError.
Proof. apply waves_mismatch. Qed.

Lemma gravitational_waves_length_mismatch_witness :
  fst (make_gravitational_waves "data" 3 2 0.65 0.65 1 Demo2.odd_disk)
  = Raise ValueError.
Proof.
  apply (gravitational_waves_length_mismatch Demo.counter Demo2.odd_disk
           "data"%string 3 2 0.65 0.65 1 Demo2.odd_signals
           {| data := [1; 2; 3; 4; 5]; signal_present := 1 |}).
  - reflexivity.
  - reflexivity.
  - lia.
  - intros [q Hq]. simpl in Hq. lia.
  - apply Z.leb_le. reflexivity.
  - lia.
  - lia.
  - simpl. lra.
Defined.

(** ** The loader of barcodes: files that are missing or too short *)

Section LoaderEdges.
Import Py Np Vectorizing.
Context {RS : RandomState}.

Lemma read_all_first_failure disk pre j post e :
  (forall i, In i pre -> exists a, disk (fileName i) = Ok a) ->
  disk (fileName j) = Raise e ->
  read_all disk (pre ++ j :: post) =
  (map (fun i => (np_genfromtxt_call (fileName i), Returned)) pre ++
   [(np_genfromtxt_call (fileName j), Raised e)],
   Raise e).
Proof.
  intros Hpre Hj. induction pre as [|i pre IH]; simpl.
  - rewrite Hj. reflexivity.
  - destruct (Hpre i (or_introl eq_refl)) as (a & ->).
    rewrite IH; [reflexivity|]. intros i' Hi'. apply Hpre. right. exact Hi'.
Qed.

Lemma range_6_split j :
  (0 <= j < 6)%Z -> range 6 = range j ++ j :: range2 (j + 1) 6.
Proof.
  intros Hj.
  assert (H : j = 0%Z \/ j = 1%Z \/ j = 2%Z \/ j = 3%Z \/ j = 4%Z \/ j = 5%Z)
    by lia.
  destruct H as [->|[->|[->|[->|[->| ->]]]]]; reflexivity.
Qed.

Lemma load_barcodes_stops w j e :
  (0 <= j < 6)%Z ->
  csv_files w (fileName j) = Raise e ->
  (forall i, (0 <= i < j)%Z -> exists a, csv_files w (fileName i) = Ok a) ->
  fst (load_barcodes w) = Raise e /\
  calls (snd (load_barcodes w)) =
  calls w ++
  map (fun i => (np_genfromtxt_call (fileName i), Returned)) (range j) ++
  [(np_genfromtxt_call (fileName j), Raised e)].
Proof.
  intros Hj He Hbefore.
  assert (Hread : read_all (csv_files w) (range 6) =
                  (map (fun i => (np_genfromtxt_call (fileName i), Returned))
                       (range j) ++
                   [(np_genfromtxt_call (fileName j), Raised e)], Raise e)).
  { rewrite (range_6_split j Hj). apply read_all_first_failure; [|exact He].
    intros i Hi. apply Hbefore. apply in_range in Hi. exact Hi. }
  destruct (load_barcodes_calls w) as [Hcalls Hraise].
  rewrite Hread in Hcalls, Hraise. split; [apply Hraise; reflexivity|].
  exact Hcalls.
Qed.

Lemma for_each_ok_all {A St : Type} (body : A -> St -> M St) (l : list A) :
  forall s w s' w',
    for_each l body s w = (Ok s', w') ->
    forall a, In a l -> exists s1 w1 s2 w2, body a s1 w1 = (Ok s2, w2).
Proof.
  induction l as [|a0 l IH]; intros s w s' w' H a Ha; [destruct Ha|].
  simpl in H. bind_inv H as s1 w1 E.
  destruct Ha as [<-|Ha]; [exists s, w, s1, w1; exact E|].
  exact (IH _ _ _ _ H a Ha).
Qed.

Lemma for_each_raise_some {A St : Type} (body : A -> St -> M St) (l : list A) :
  forall s w e w',
    for_each l body s w = (Raise e, w') ->
    exists a s1 w1 w2, In a l /\ body a s1 w1 = (Raise e, w2).
Proof.
  induction l as [|a0 l IH]; intros s w e w' H; simpl in H; [discriminate|].
  unfold bind in H. destruct (body a0 s w) as [[s1|e1] w1] eqn:E.
  - destruct (IH _ _ _ _ H) as (a & s2 & w2 & w3 & Ha & Hb).
    exists a, s2, w2, w3. split; [right; exact Ha | exact Hb].
  - injection H as -> ->. exists a0, s, w, w'. split; [left; reflexivity | exact E].
Qed.

(** The only exception of the cells that build the barcodes. *)
Lemma barcodes_of_rows_exn files rows w e w' :
  barcodes_of_rows files rows w = (Raise e, w') -> e = IndexError.
Proof.
  intros H. unfold barcodes_of_rows in H.
  apply for_each_raise_some in H.
  destruct H as (j & out & w1 & w2 & _ & H).
  unfold bind at 1 in H.
  match type of H with
  | match ?m with _ => _ end = _ => destruct m as [[barcode|e1] w3] eqn:E
  end; [discriminate|].
  injection H as -> ->.
  apply for_each_raise_some in E.
  destruct E as (k & b & w4 & w5 & _ & E).
  unfold bind, lift, ret, getitem in E.
  destruct (nth_error files (Z.to_nat k)) as [file|].
  - unfold row_slice in E. destruct file as [a|rows'].
    + injection E as <- _. reflexivity.
    + destruct (nth_error rows' (Z.to_nat j)); [discriminate|].
      injection E as <- _. reflexivity.
  - injection E as <- _. reflexivity.
Qed.

(** When the cell returns, every row it asks for is there in each of
    the six files. *)
Lemma barcodes_of_rows_reads files rows w out w' j k :
  barcodes_of_rows files rows w = (Ok out, w') ->
  In j rows -> (0 <= k < 6)%Z ->
  exists file bar,
    nth_error files (Z.to_nat k) = Some file /\ row_slice file j 1 3 = Ok bar.
Proof.
  intros H Hj Hk. unfold barcodes_of_rows in H.
  destruct (for_each_ok_all _ _ _ _ _ _ H j Hj) as (out1 & w1 & out2 & w2 & E).
  bind_inv E as barcode w3 E'.
  destruct (for_each_ok_all _ _ _ _ _ _ E' k (proj2 (in_range 6 k) Hk))
    as (b1 & w4 & b2 & w5 & Ek).
  lift_inv Ek as file E1. lift_inv Ek as bar E2.
  exists file, bar. split; [|exact E2].
  unfold getitem in E1. destruct (nth_error files (Z.to_nat k)); [|discriminate].
  injection E1 as ->. reflexivity.
Qed.

Lemma load_barcodes_short w (files : Z -> ndarray) k :
  (forall i, (0 <= i < 6)%Z -> csv_files w (fileName i) = Ok (files i)) ->
  (0 <= k < 6)%Z ->
  (forall rows, files k = Arr2 rows -> (length rows < 431)%nat) ->
  fst (load_barcodes w) = Raise IndexError /\
  calls (snd (load_barcodes w)) =
  calls w ++
  map (fun i => (np_genfromtxt_call (fileName i), Returned)) (range 6).
Proof.
  intros Hfiles Hk Hshort.
  assert (Hread : read_all (csv_files w) (range 6) =
                  (map (fun i => (np_genfromtxt_call (fileName i), Returned))
                       (range 6), Ok (map files (range 6)))).
  { apply read_all_ok. intros i Hi. apply Hfiles, in_range, Hi. }
  destruct (load_barcodes_calls w) as [Hcalls _].
  rewrite Hread in Hcalls. split; [|exact Hcalls].
  set (w1 := add_calls w (map (fun i => (np_genfromtxt_call (fileName i), Returned))
                              (range 6))).
  set (fs := map files (range 6)).
  assert (E : barcodes w = (Ok fs, w1))
    by (rewrite barcodes_run, Hread; reflexivity).
  unfold load_barcodes. rewrite (bind_ok _ _ _ _ _ E).
  assert (Hrep : forall w0 out w0',
             rep_barcodes fs w0 <> (Ok out, w0')).
  { intros w0 out w0' H. unfold rep_barcodes in H.
    destruct (barcodes_of_rows_reads fs _ w0 out w0' 430%Z k H)
      as (file & bar & Hfile & Hbar); [apply in_range2; lia | exact Hk|].
    unfold fs in Hfile. rewrite (nth_error_map_range files 6 k Hk) in Hfile.
    injection Hfile as <-. unfold row_slice in Hbar.
    destruct (files k) as [a|rows] eqn:Efile; [discriminate|].
    specialize (Hshort rows eq_refl).
    destruct (nth_error rows (Z.to_nat 430)) eqn:En; [|discriminate].
    assert (Hlt : (Z.to_nat 430 < length rows)%nat)
      by (apply nth_error_Some; rewrite En; discriminate).
    lia. }
  unfold bind at 1.
  destruct (dem_barcodes fs w1) as [[dem|e] w2] eqn:Edem.
  - unfold bind at 1.
    destruct (rep_barcodes fs w2) as [[rep|e] w3] eqn:Erep.
    + exfalso. exact (Hrep _ _ _ Erep).
    + apply barcodes_of_rows_exn in Erep. subst e. reflexivity.
  - apply barcodes_of_rows_exn in Edem. subst e. reflexivity.
Qed.

End LoaderEdges.

(** X19.  The loader stops at the first file that cannot be read:
    when file [j] raises [e] and the files before it are there,
    [load_barcodes] raises [e], and the calls it has made are those
    for the files [0 .. j], in order - the files after [j] are not
    asked for. *)
Theorem load_barcodes_first_failure (RS : RandomState) (w : world)
        (j : Z) (e : exn) :
  (0 <= j < 6)%Z ->
  csv_files w (fileName j) = Raise e ->
  (forall i, (0 <= i < j)%Z -> exists a, csv_files w (fileName i) = Ok a) ->
  fst (load_barcodes w) = Raise e /\
  calls (snd (load_barcodes w)) =
  calls w ++
  map (fun i => (np_genfromtxt_call (fileName i), Returned)) (range j) ++
  [(np_genfromtxt_call (fileName j), Raised e)].
Proof. apply load_barcodes_stops. Qed.

Lemma load_barcodes_first_failure_witness :
  fst (load_barcodes Demo2.gap_disk) = Raise FileNotFoundError /\
  calls (snd (load_barcodes Demo2.gap_disk)) =
  [(np_genfromtxt_call "data/50biased_0.csv", Returned);
   (np_genfromtxt_call "data/50biased_1.csv", Returned);
   (np_genfromtxt_call "data/50biased_2.csv", Returned);
   (np_genfromtxt_call "data/50biased_3.csv", Raised FileNotFoundError)].
Proof.
  apply (load_barcodes_first_failure Demo.counter Demo2.gap_disk 3
                                     FileNotFoundError).
  - lia.
  - reflexivity.
  - intros i Hi.
    assert (H : i = 0%Z \/ i = 1%Z \/ i = 2%Z) by lia.
    destruct H as [->|[->| ->]]; eexists; reflexivity.
Defined.

(** X20.  When the six files are read and every two-dimensional one
    has rows of at least three columns (so that every bar is a pair),
    but one of the files is one-dimensional or has fewer than 431
    rows, the loader raises [IndexError], after reading all six
    files. *)
Theorem load_barcodes_short_file (RS : RandomState) (w : world)
        (files : Z -> ndarray) (k : Z) :
  (forall i, (0 <= i < 6)%Z -> csv_files w (fileName i) = Ok (files i)) ->
  (forall i rows, (0 <= i < 6)%Z -> files i = Arr2 rows ->
                  Forall (fun row => (3 <= length row)%nat) rows) ->
  (0 <= k < 6)%Z ->
  (forall rows, files k = Arr2 rows -> (length rows < 431)%nat) ->
  fst (load_barcodes w) = Raise IndexError /\
  calls (snd (load_barcodes w)) =
  calls w ++
  map (fun i => (np_genfromtxt_call (fileName i), Returned)) (range 6).
Proof.
  intros Hfiles _ Hk Hshort. exact (load_barcodes_short w files k Hfiles Hk Hshort).
Qed.

Lemma load_barcodes_short_file_witness :
  fst (load_barcodes Demo2.short_disk) = Raise IndexError /\
  length (calls (snd (load_barcodes Demo2.short_disk))) = 6%nat.
Proof.
  destruct (load_barcodes_short_file Demo.counter Demo2.short_disk
              (fun i => if (i =? 1)%Z then Arr2 [[0; 1; 2]; [0; 1; 2]]
                        else Arr2 Demo.csv_table) 1) as [Hraise Hcalls].
  - intros i Hi.
    assert (H : i = 0%Z \/ i = 1%Z \/ i = 2%Z \/ i = 3%Z \/ i = 4%Z \/ i = 5%Z)
      by lia.
    destruct H as [->|[->|[->|[->|[->| ->]]]]]; reflexivity.
  - intros i rows _ H. destruct (i =? 1)%Z; injection H as <-.
    + repeat constructor.
    + apply Forall_repeat. simpl. lia.
  - lia.
  - intros rows H. injection H as <-. simpl. lia.
  - split; [exact Hraise|]. rewrite Hcalls. reflexivity.
Defined.

(** ** Single linkage: the largest ultrametric below the metric *)

Section Subdominant.
Import Np Clustering.

Variable D : array2.
Hypothesis HD : metric_space D.

(** A function on the points that satisfies the strong triangle
    inequality and lies below the metric. *)
Variable u : nat -> nat -> R.
Hypothesis u_strong : forall x y z,
  (x < length D)%nat -> (y < length D)%nat -> (z < length D)%nat ->
  u x z <= Rmax (u x y) (u y z).
Hypothesis u_below : forall x y,
  (x < length D)%nat -> (y < length D)%nat -> u x y <= entry D x y.

Lemma chain_ultra mid : forall x y,
  (x < length D)%nat -> (y < length D)%nat -> in_space (length D) mid ->
  u x y <= maxstep u (x :: mid ++ [y]).
Proof.
  induction mid as [|m mid IH]; intros x y Hx Hy Hmid.
  - simpl. apply Rmax_l.
  - inversion Hmid as [|? ? Hm Hmid']; subst.
    change (maxstep u (x :: (m :: mid) ++ [y]))
      with (Rmax (u x m) (maxstep u (m :: mid ++ [y]))).
    eapply Rle_trans; [apply (u_strong x m y Hx Hm Hy)|].
    apply Rle_max_compat_l. apply IH; assumption.
Qed.

Lemma maxstep_below c :
  in_space (length D) c -> maxstep u c <= maxstep (entry D) c.
Proof.
  induction c as [|a [|b c] IH]; intros Hc; try (simpl; lra).
  inversion Hc as [|? ? Ha Hc']; subst. inversion Hc' as [|? ? Hb _]; subst.
  change (Rmax (u a b) (maxstep u (b :: c)) <=
          Rmax (entry D a b) (maxstep (entry D) (b :: c))).
  apply Rmax_lub.
  - eapply Rle_trans; [apply (u_below a b Ha Hb) | apply Rmax_l].
  - eapply Rle_trans; [apply IH; exact Hc' | apply Rmax_r].
Qed.

Lemma u_le_u_X x y :
  (x < length D)%nat -> (y < length D)%nat -> u x y <= u_X D x y.
Proof.
  intros Hx Hy. destruct (u_X_attained D HD x y) as (mid & Hmid & ->).
  eapply Rle_trans; [apply (chain_ultra mid x y Hx Hy Hmid)|].
  apply maxstep_below. constructor; [exact Hx|].
  apply Forall_app. split; [exact Hmid | constructor; [exact Hy | constructor]].
Qed.

End Subdominant.

Section Idempotent.
Import Np Clustering.

Lemma u_X_SLHC D i j :
  metric_space D -> (i < length D)%nat -> (j < length D)%nat ->
  u_X (SLHC D) i j = u_X D i j.
Proof.
  intros HD Hi Hj. apply Rle_antisym.
  - rewrite <- (entry_SLHC D i j Hi Hj). apply closure_le_d.
  - apply (u_le_u_X (SLHC D) (SLHC_metric_space D HD) (u_X D));
      rewrite ?length_SLHC; try assumption.
    + intros x y z _ Hy _. apply (u_X_strong_triangle D HD x y z Hy).
    + intros x y Hx Hy. rewrite entry_SLHC by assumption. lra.
Qed.

Lemma SLHC_SLHC D : metric_space D -> SLHC (SLHC D) = SLHC D.
Proof.
  intros HD. unfold SLHC at 1 3. rewrite length_SLHC.
  apply map_ext_in. intros i Hi. apply map_ext_in. intros j Hj.
  apply in_seq in Hi, Hj. apply u_X_SLHC; [exact HD | lia | lia].
Qed.

End Idempotent.

Import Clustering.

(** X21.  Single linkage never makes two points farther apart:
    [u_X(x, x') <= d_X(x, x')] for every pair of points. *)
Theorem u_X_below_metric (D : array2) (x x' : nat) :
  u_X D x x' <= entry D x x'.
Proof. apply closure_le_d. Qed.

(** X22.  [u_X] is the largest ultrametric below the metric: a
    function on the points that satisfies the strong triangle
    inequality and is at most [d_X] is at most [u_X]. *)
Theorem u_X_largest_ultrametric (D : array2) (u : nat -> nat -> R) :
  metric_space D ->
  (forall x y z,
      (x < length D)%nat -> (y < length D)%nat -> (z < length D)%nat ->
      u x z <= Rmax (u x y) (u y z)) ->
  (forall x y, (x < length D)%nat -> (y < length D)%nat ->
               u x y <= entry D x y) ->
  forall x y, (x < length D)%nat -> (y < length D)%nat ->
              u x y <= u_X D x y.
Proof. intros HD Hs Hb x y. apply (u_le_u_X D HD u Hs Hb). Qed.

Lemma u_X_largest_ultrametric_witness :
  (if (1 =? 2)%nat then 0 else 1) <= u_X D_graph 1 2.
Proof.
  refine (u_X_largest_ultrametric D_graph
            (fun x y => if (x =? y)%nat then 0 else 1) D_graph_metric
            _ _ 1%nat 2%nat _ _); [| |simpl; lia|simpl; lia].
  - intros x y z _ _ _.
    destruct (Nat.eqb_spec x z), (Nat.eqb_spec x y), (Nat.eqb_spec y z);
      try (exfalso; congruence);
      unfold Rmax; destruct (Rle_dec _ _); lra.
  - intros x y Hx Hy. simpl in Hx, Hy.
    repeat (destruct x as [|x]; [|try (exfalso; lia)]);
      repeat (destruct y as [|y]; [|try (exfalso; lia)]);
      unfold entry; simpl; lra.
Defined.

(** X23.  The map [SLHC] is idempotent: applied to the ultrametric
    space it has produced, it returns the same space. *)
Theorem SLHC_idempotent (D : array2) :
  metric_space D -> SLHC (SLHC D) = SLHC D.
Proof. apply SLHC_SLHC. Qed.

Lemma SLHC_idempotent_witness : SLHC (SLHC D_graph) = SLHC D_graph.
Proof. apply (SLHC_idempotent D_graph D_graph_metric). Defined.

(** ** Gravitational waves: the series to plot *)

Import Takens Takens2.

(** X25.  The plotting cell after a run of [make_gravitational_waves]:
    when the run has returned at least one sample the cell returns,
    reading inside the three containers; when [n_signals] was [0] it
    raises [ValueError], from [np.argmin] of an empty array. *)
Theorem series_to_plot_after_run (RS : RandomState) (w w' : world)
        (path_to_data : string) (n_signals downsample_factor : Z)
        (r_min r_max : R) (n_snr_values : Z)
        (noisy_signals gw_signals : list array1) (labels : array1) :
  make_gravitational_waves path_to_data n_signals downsample_factor
                           r_min r_max n_snr_values w
  = (Ok (noisy_signals, gw_signals, labels), w') ->
  ((1 <= n_signals)%Z ->
   exists background_idx signal_idx,
     (background_idx < Z.to_nat n_signals)%nat /\
     (signal_idx < Z.to_nat n_signals)%nat /\
     series_to_plot noisy_signals gw_signals labels =
     Ok (background_idx, signal_idx,
         nth background_idx noisy_signals [],
         nth signal_idx noisy_signals [],
         nth signal_idx gw_signals [])) /\
  (n_signals = 0%Z ->
   series_to_plot noisy_signals gw_signals labels = Raise ValueError).
Proof.
  intros H. apply make_gravitational_waves_inv in H.
  destruct H as (gw & Rcoef & first & _ & _ & _ & Hn & Hok).
  destruct Hok as (Hnoisy & Hgws & Hlab & _). split.
  - intros Hpos.
    assert (Hne : labels <> []).
    { intros ->. simpl in Hlab. lia. }
    destruct (argmin_spec labels Hne) as (bi & Ebi & Hbi & _).
    destruct (argmax_spec labels Hne) as (si & Esi & Hsi & _).
    exists bi, si. rewrite Hlab in Hbi, Hsi.
    split; [exact Hbi|]. split; [exact Hsi|].
    unfold series_to_plot. rewrite Ebi, Esi.
    rewrite (getitem_ok noisy_signals bi []) by (rewrite Hnoisy; exact Hbi).
    rewrite (getitem_ok noisy_signals si []) by (rewrite Hnoisy; exact Hsi).
    rewrite (getitem_ok gw_signals si []) by (rewrite Hgws; exact Hsi).
    reflexivity.
  - intros ->. destruct labels; [reflexivity | discriminate].
Qed.

Lemma series_to_plot_after_run_witness :
  exists noisy_signals gw_signals labels w' background_idx signal_idx,
    make_gravitational_waves "data" 3 2 0.65 0.65 1 Demo.full_disk
    = (Ok (noisy_signals, gw_signals, labels), w') /\
    series_to_plot noisy_signals gw_signals labels =
    Ok (background_idx, signal_idx,
        nth background_idx noisy_signals [],
        nth signal_idx noisy_signals [],
        nth signal_idx gw_signals []).
Proof.
  destruct full_disk_ready as (H1 & H2 & H3 & H4 & H5 & H6 & H7).
  destruct (make_gravitational_waves_returns "data"%string 3%Z 2%Z 0.65 0.65 1%Z
              Demo.full_disk Demo.signals 4%nat H1 H2 H3 H4 H5 H6 H7)
    as (noisy & gws & labels & w' & E & _).
  destruct (series_to_plot_after_run Demo.counter Demo.full_disk w'
              "data"%string 3 2 0.65 0.65 1 noisy gws labels E) as [Hrun _].
  destruct (Hrun ltac:(lia)) as (bi & si & _ & _ & Eplot).
  exists noisy, gws, labels, w', bi, si. split; [exact E | exact Eplot].
Defined.
